(** * Qualitative evaluations, their linear constraints and the polytope's vertices

    A shallow embedding of [qualitative_evaluation_translator.py] and of the
    vertex computation of [polytope_visualizer.py].

    Conventions of the embedding:
    - Python floats are idealised as exact rationals ([Q]); the literals of
      the source ([0.01], [1e-10], [1e-8], [1e-5]) are the corresponding
      fractions.
    - A Python call that may raise returns a [result]; an exception that the
      source catches is matched on, one it does not catch is propagated.
    - Attributes of [self] are the fields of a record which the methods take
      and give back; what the source sends to its logger is given back as a
      list of [log_record]s.
    - [numpy.linalg] and [pypoman] are libraries, not code of the repository:
      the vertex computation takes them as an interface ([Libs]). *)

From Stdlib Require Import QArith Qabs Lqa.
From stdpp Require Import gmap strings list.

Open Scope string_scope.
Open Scope list_scope.

(** ** Python: exceptions and results *)

Inductive exn : Type :=
  | ValueError (msg : string)
  | KeyError (key : string)
  | IndexError
  | LinAlgError.

Inductive result (A : Type) : Type :=
  | Ok (a : A)
  | Raise (e : exn).
Arguments Ok {A} a.
Arguments Raise {A} e.

#[global] Instance result_ret : MRet result := fun _ a => Ok a.
#[global] Instance result_bind : MBind result := fun _ _ f r =>
  match r with
  | Ok a => f a
  | Raise e => Raise e
  end.

(** [for x in xs: acc.extend(body(x))], where the body may raise. *)
Fixpoint for_extend {A B} (body : A -> result (list B)) (xs : list A)
    (acc : list B) : result (list B) :=
  match xs with
  | [] => Ok acc
  | x :: xs' =>
      match body x with
      | Ok bs => for_extend body xs' (acc ++ bs)
      | Raise e => Raise e
      end
  end.

(** [enumerate(xs)] *)
Definition enumerate {A} (xs : list A) : list (nat * A) := imap pair xs.

(** [xs[i]] on a Python list *)
Definition list_getitem {A} (xs : list A) (i : nat) : result A :=
  match xs !! i with
  | Some x => Ok x
  | None => Raise IndexError
  end.

(** ** numpy: one-dimensional arrays *)

Definition np_zeros (n : nat) : list Q := replicate n 0%Q.

(** [a[i] = v]: numpy raises IndexError out of range. *)
Definition np_setitem (a : list Q) (i : nat) (v : Q) : result (list Q) :=
  if decide (i < length a)%nat then Ok (<[i:=v]> a) else Raise IndexError.

(** ** The data model of the translator *)

Inductive EvaluationType : Type :=
  | COMPARISON
  | RANGE
  | RANKING
  | PREFERENCE
  | THRESHOLD.

Inductive ComparisonOperator : Type :=
  | GREATER
  | LESS
  | GREATER_EQUAL
  | LESS_EQUAL
  | EQUAL
  | NOT_EQUAL.

Record QualitativeEvaluation : Type := {
  evaluator_id : string;
  evaluation_type : EvaluationType;
  projects : list string;
  operator : option ComparisonOperator;
  values : option (list Q);
  confidence : Q;
  criteria : option string;
  timestamp : option string;
  metadata : option (list (string * string))
}.

Record LinearConstraint : Type := {
  coefficients : list Q;
  bound : Q;
  is_equality : bool;
  constraint_id : string;
  source_evaluation : option QualitativeEvaluation
}.

(** What the translator sends to [logger]. *)
Inductive log_record : Type :=
  | LogInfoGenerated (n_constraints n_evaluations : nat)
  | LogWarningUnsupported (t : EvaluationType)
  | LogErrorProcessing (evaluator : string) (e : exn).

(** A two-dimensional array: numpy keeps the number of columns of an array
    without rows ([np.empty((0, n))]). *)
Record ndarray2 : Type := {
  ncols : nat;
  rows : list (list Q)
}.

Definition np_empty2 (n : nat) : ndarray2 := {| ncols := n; rows := [] |}.

(** [np.vstack]: the rows must have one length, and there must be one. *)
Definition np_vstack (rs : list (list Q)) : result ndarray2 :=
  match rs with
  | [] => Raise (ValueError "need at least one array to concatenate")
  | r :: _ =>
      if forallb (fun r' => Nat.eqb (length r') (length r)) rs
      then Ok {| ncols := length r; rows := rs |}
      else Raise (ValueError "all the input array dimensions must match")
  end.

(** ** QualitativeEvaluationTranslator *)

Module QualitativeEvaluationTranslator.

Record state : Type := {
  self_projects : list string;
  self_criteria : list string;
  self_evaluations : list QualitativeEvaluation;
  self_constraints : list LinearConstraint
}.

(** [__init__]: [criteria or ['value']]. *)
Definition init (projects : list string) (criteria : option (list string)) : state :=
  {| self_projects := projects;
     self_criteria :=
       match criteria with
       | None | Some [] => ["value"]
       | Some cs => cs
       end;
     self_evaluations := [];
     self_constraints := [] |}.

Definition n_projects (self : state) : nat := length (self_projects self).
Definition n_criteria (self : state) : nat := length (self_criteria self).

(** [{proj: i for i, proj in enumerate(projects)}]: a later occurrence of a
    name replaces an earlier one. *)
Definition project_index (self : state) : gmap string nat :=
  foldl (fun m '(i, proj) => <[proj:=i]> m) ∅ (enumerate (self_projects self)).

(** [self.project_index[proj]] *)
Definition project_index_getitem (self : state) (proj : string) : result nat :=
  match project_index self !! proj with
  | Some i => Ok i
  | None => Raise (KeyError proj)
  end.

Definition add_evaluation (self : state) (evaluation : QualitativeEvaluation) : state :=
  {| self_projects := self_projects self;
     self_criteria := self_criteria self;
     self_evaluations := self_evaluations self ++ [evaluation];
     self_constraints := self_constraints self |}.

(** The body of the loop over the criteria in [parse_comparison_evaluation]. *)
Definition comparison_body (self : state) (evaluation : QualitativeEvaluation)
    (proj_a proj_b : string) (idx_a idx_b : nat) (c : nat * string)
    : result (list LinearConstraint) :=
  let '(crit_idx, criterion) := c in
  let coeffs := np_zeros (n_projects self * n_criteria self) in
  let pos_a := (idx_a * n_criteria self + crit_idx)%nat in
  let pos_b := (idx_b * n_criteria self + crit_idx)%nat in
  match operator evaluation with
  | Some GREATER =>
      coeffs ← np_setitem coeffs pos_a 1%Q;
      coeffs ← np_setitem coeffs pos_b (-1)%Q;
      mret [ {| coefficients := coeffs;
                bound := (-1 # 100)%Q;
                is_equality := false;
                constraint_id := "comp_" +:+ proj_a +:+ "_" +:+ proj_b +:+ "_" +:+ criterion;
                source_evaluation := Some evaluation |} ]
  | Some LESS =>
      coeffs ← np_setitem coeffs pos_a 1%Q;
      coeffs ← np_setitem coeffs pos_b (-1)%Q;
      mret [ {| coefficients := coeffs;
                bound := (-1 # 100)%Q;
                is_equality := false;
                constraint_id := "comp_" +:+ proj_a +:+ "_" +:+ proj_b +:+ "_" +:+ criterion;
                source_evaluation := Some evaluation |} ]
  | Some EQUAL =>
      coeffs ← np_setitem coeffs pos_a 1%Q;
      coeffs ← np_setitem coeffs pos_b (-1)%Q;
      mret [ {| coefficients := coeffs;
                bound := 0%Q;
                is_equality := true;
                constraint_id := "comp_" +:+ proj_a +:+ "_" +:+ proj_b +:+ "_" +:+ criterion;
                source_evaluation := Some evaluation |} ]
  | _ => mret []
  end.

Definition parse_comparison_evaluation (self : state)
    (evaluation : QualitativeEvaluation) : result (list LinearConstraint) :=
  match projects evaluation with
  | [proj_a; proj_b] =>
      idx_a ← project_index_getitem self proj_a;
      idx_b ← project_index_getitem self proj_b;
      for_extend (comparison_body self evaluation proj_a proj_b idx_a idx_b)
        (enumerate (self_criteria self)) []
  | _ => Raise (ValueError "Comparison evaluation must involve exactly 2 projects")
  end.

Definition range_body (self : state) (evaluation : QualitativeEvaluation)
    (proj : string) (idx : nat) (min_val max_val : Q) (c : nat * string)
    : result (list LinearConstraint) :=
  let '(crit_idx, criterion) := c in
  let coeffs := np_zeros (n_projects self * n_criteria self) in
  let pos := (idx * n_criteria self + crit_idx)%nat in
  coeffs ← np_setitem coeffs pos 1%Q;
  let constraint_lower :=
    {| coefficients := coeffs;
       bound := min_val;
       is_equality := false;
       constraint_id := "range_lower_" +:+ proj +:+ "_" +:+ criterion;
       source_evaluation := Some evaluation |} in
  coeffs ← np_setitem coeffs pos (-1)%Q;
  let constraint_upper :=
    {| coefficients := coeffs;
       bound := (- max_val)%Q;
       is_equality := false;
       constraint_id := "range_upper_" +:+ proj +:+ "_" +:+ criterion;
       source_evaluation := Some evaluation |} in
  mret [constraint_lower; constraint_upper].

Definition parse_range_evaluation (self : state)
    (evaluation : QualitativeEvaluation) : result (list LinearConstraint) :=
  match projects evaluation with
  | [proj] =>
      match values evaluation with
      | Some [min_val; max_val] =>
          idx ← project_index_getitem self proj;
          for_extend (range_body self evaluation proj idx min_val max_val)
            (enumerate (self_criteria self)) []
      | _ => Raise (ValueError "Range evaluation must specify exactly 2 values (min, max)")
      end
  | _ => Raise (ValueError "Range evaluation must involve exactly 1 project")
  end.

(** The body of the loop over [range(len(projects) - 1)] in
    [parse_ranking_evaluation]. *)
Definition ranking_body (self : state) (evaluation : QualitativeEvaluation)
    (i : nat) : result (list LinearConstraint) :=
  proj_higher ← list_getitem (projects evaluation) i;
  proj_lower ← list_getitem (projects evaluation) (i + 1);
  let comp_eval :=
    {| evaluator_id := evaluator_id evaluation;
       evaluation_type := COMPARISON;
       projects := [proj_higher; proj_lower];
       operator := Some GREATER;
       values := None;
       confidence := confidence evaluation;
       criteria := criteria evaluation;
       timestamp := None;
       metadata := None |} in
  parse_comparison_evaluation self comp_eval.

Definition parse_ranking_evaluation (self : state)
    (evaluation : QualitativeEvaluation) : result (list LinearConstraint) :=
  if decide (length (projects evaluation) < 2)%nat
  then Raise (ValueError "Ranking evaluation must involve at least 2 projects")
  else for_extend (ranking_body self evaluation)
         (seq 0 (length (projects evaluation) - 1)) [].

Definition threshold_body (self : state) (evaluation : QualitativeEvaluation)
    (proj : string) (idx : nat) (threshold : Q) (c : nat * string)
    : result (list LinearConstraint) :=
  let '(crit_idx, criterion) := c in
  let coeffs := np_zeros (n_projects self * n_criteria self) in
  let pos := (idx * n_criteria self + crit_idx)%nat in
  match operator evaluation with
  | Some GREATER_EQUAL =>
      coeffs ← np_setitem coeffs pos 1%Q;
      mret [ {| coefficients := coeffs;
                bound := threshold;
                is_equality := false;
                constraint_id := "threshold_" +:+ proj +:+ "_" +:+ criterion;
                source_evaluation := Some evaluation |} ]
  | Some LESS_EQUAL =>
      coeffs ← np_setitem coeffs pos (-1)%Q;
      mret [ {| coefficients := coeffs;
                bound := (- threshold)%Q;
                is_equality := false;
                constraint_id := "threshold_" +:+ proj +:+ "_" +:+ criterion;
                source_evaluation := Some evaluation |} ]
  | _ => mret []
  end.

Definition parse_threshold_evaluation (self : state)
    (evaluation : QualitativeEvaluation) : result (list LinearConstraint) :=
  match projects evaluation with
  | [proj] =>
      match values evaluation with
      | Some [threshold] =>
          idx ← project_index_getitem self proj;
          for_extend (threshold_body self evaluation proj idx threshold)
            (enumerate (self_criteria self)) []
      | _ => Raise (ValueError "Threshold evaluation must specify exactly 1 threshold value")
      end
  | _ => Raise (ValueError "Threshold evaluation must involve exactly 1 project")
  end.

(** The [if]/[elif] chain of [translate_evaluations]: [None] is its [else]
    branch (a warning, then [continue]). *)
Definition dispatch (self : state) (evaluation : QualitativeEvaluation)
    : option (result (list LinearConstraint)) :=
  match evaluation_type evaluation with
  | COMPARISON => Some (parse_comparison_evaluation self evaluation)
  | RANGE => Some (parse_range_evaluation self evaluation)
  | RANKING => Some (parse_ranking_evaluation self evaluation)
  | THRESHOLD => Some (parse_threshold_evaluation self evaluation)
  | PREFERENCE => None
  end.

(** One turn of the loop of [translate_evaluations], on the pair of
    [all_constraints] and of the records logged so far. *)
Definition translate_step (self : state)
    (acc : list LinearConstraint * list log_record)
    (evaluation : QualitativeEvaluation)
    : list LinearConstraint * list log_record :=
  let '(all_constraints, log) := acc in
  match dispatch self evaluation with
  | None =>
      (all_constraints, log ++ [LogWarningUnsupported (evaluation_type evaluation)])
  | Some (Ok constraints) =>
      (all_constraints ++ constraints, log)
  | Some (Raise e) =>
      (all_constraints, log ++ [LogErrorProcessing (evaluator_id evaluation) e])
  end.

Definition set_constraints (self : state) (cs : list LinearConstraint) : state :=
  {| self_projects := self_projects self;
     self_criteria := self_criteria self;
     self_evaluations := self_evaluations self;
     self_constraints := cs |}.

(** [translate_evaluations]: the list returned, the records logged and the
    translator afterwards. *)
Definition translate_evaluations (self : state)
    : list LinearConstraint * list log_record * state :=
  let '(all_constraints, log) :=
    foldl (translate_step self) ([], []) (self_evaluations self) in
  (all_constraints,
   log ++ [LogInfoGenerated (length all_constraints) (length (self_evaluations self))],
   set_constraints self all_constraints).

(** [get_constraint_matrices]: [(A_ineq, b_ineq, A_eq, b_eq)]. *)
Definition get_constraint_matrices (self : state)
    : result (ndarray2 * list Q * ndarray2 * list Q) * state :=
  let self :=
    match self_constraints self with
    | [] => (translate_evaluations self).2
    | _ => self
    end in
  let ineq_constraints := filter (fun c => is_equality c = false) (self_constraints self) in
  let eq_constraints := filter (fun c => is_equality c = true) (self_constraints self) in
  let n := (n_projects self * n_criteria self)%nat in
  (ineq ← match ineq_constraints with
          | [] => Ok (np_empty2 n, [])
          | _ => A ← np_vstack (coefficients <$> ineq_constraints);
                 mret (A, bound <$> ineq_constraints)
          end;
   eq ← match eq_constraints with
        | [] => Ok (np_empty2 n, [])
        | _ => A ← np_vstack (coefficients <$> eq_constraints);
               mret (A, bound <$> eq_constraints)
        end;
   mret (ineq.1, ineq.2, eq.1, eq.2),
   self).

End QualitativeEvaluationTranslator.

(** ** numpy and pypoman, as the vertex computation uses them *)

Definition vertex : Type := list Q.

(** [np.linalg.det], [np.linalg.solve] and [pypoman.compute_polytope_vertices]:
    [det] wants a square matrix, [solve] gives one unknown per row, and both
    signal failure with [LinAlgError] or [ValueError]. *)
Class Libs : Type := {
  PYPOMAN_AVAILABLE : bool;
  pypoman_compute_polytope_vertices : ndarray2 -> list Q -> result (list vertex);
  np_linalg_det : ndarray2 -> result Q;
  np_linalg_solve : ndarray2 -> list Q -> result vertex
}.

(** What the documentation of numpy promises of them. *)
Class LibsLaws `{Libs} : Prop := {
  np_linalg_det_square : forall A d,
    np_linalg_det A = Ok d -> length (rows A) = ncols A;
  np_linalg_det_raises : forall A e,
    np_linalg_det A = Raise e -> e = LinAlgError \/ exists msg, e = ValueError msg;
  np_linalg_solve_length : forall A b x,
    np_linalg_solve A b = Ok x -> length x = length (rows A);
  np_linalg_solve_raises : forall A b e,
    np_linalg_solve A b = Raise e -> e = LinAlgError \/ exists msg, e = ValueError msg
}.

(** [itertools.combinations(xs, k)], in its order. *)
Fixpoint combinations {A} (xs : list A) (k : nat) : list (list A) :=
  match k with
  | O => [[]]
  | S k' =>
      match xs with
      | [] => []
      | x :: xs' => (cons x <$> combinations xs' k') ++ combinations xs' k
      end
  end.

(** [A[list(idx)]] and [b[list(idx)]]: IndexError out of range. *)
Definition np_take {A} (xs : list A) (idx : list nat) : result (list A) :=
  mapM (M := result) (list_getitem xs) idx.

Definition np_take_rows (A : ndarray2) (idx : list nat) : result ndarray2 :=
  rs ← np_take (rows A) idx;
  mret {| ncols := ncols A; rows := rs |}.

Definition dot (r v : list Q) : Q :=
  foldr Qplus 0%Q (zip_with Qmult r v).

(** [A @ v] *)
Definition np_matvec (A : ndarray2) (v : list Q) : result (list Q) :=
  if decide (ncols A = length v)
  then Ok ((fun r => dot r v) <$> rows A)
  else Raise (ValueError "matmul: mismatch in core dimension").

(** [np.all(x <= b + tol)] for two arrays of one shape (the only case the
    matrices of a translator give). *)
Definition np_all_le (x b : list Q) (tol : Q) : result bool :=
  if decide (length x = length b)
  then Ok (forallb (fun p => Qle_bool p.1 (p.2 + tol)) (zip x b))
  else Raise (ValueError "operands could not be broadcast together").

(** [np.allclose(a, b, atol=atol)] with numpy's default [rtol=1e-05]:
    [|a - b| <= atol + rtol * |b|] at every coordinate. *)
Definition rtol : Q := (1 # 100000)%Q.

Definition isclose (atol : Q) (p : Q * Q) : bool :=
  Qle_bool (Qabs (p.1 - p.2)) (atol + rtol * Qabs p.2).

Definition np_allclose (a b : list Q) (atol : Q) : result bool :=
  if decide (length a = length b)
  then Ok (forallb (isclose atol) (zip a b))
  else Raise (ValueError "operands could not be broadcast together").

(** ** PolytopeVisualizer *)

Module PolytopeVisualizer.

Module T := QualitativeEvaluationTranslator.

(** [A_eq] is an optional array because [compute_vertices] asks whether it
    [is None]. *)
Record state : Type := {
  self_translator : T.state;
  self_constraints : list LinearConstraint;
  self_A_ineq : ndarray2;
  self_b_ineq : list Q;
  self_A_eq : option ndarray2;
  self_b_eq : list Q;
  self_dimension_names : list string;
  self_n_dimensions : nat;
  self__vertices : option (list vertex);
  self__volume : option Q;
  self__centroid : option vertex
}.

(** [__init__] *)
Definition init (translator : T.state) : result state :=
  let translator :=
    match T.self_constraints translator with
    | [] => (T.translate_evaluations translator).2
    | _ => translator
    end in
  let constraints := T.self_constraints translator in
  let '(matrices, translator) := T.get_constraint_matrices translator in
  '(A_ineq, b_ineq, A_eq, b_eq) ← matrices;
  let dimension_names :=
    project ← T.self_projects translator;
    criterion ← T.self_criteria translator;
    [project +:+ "_" +:+ criterion] in
  mret {| self_translator := translator;
          self_constraints := constraints;
          self_A_ineq := A_ineq;
          self_b_ineq := b_ineq;
          self_A_eq := Some A_eq;
          self_b_eq := b_eq;
          self_dimension_names := dimension_names;
          self_n_dimensions := length dimension_names;
          self__vertices := None;
          self__volume := None;
          self__centroid := None |}.

Definition set_vertices (self : state) (vs : list vertex) : state :=
  {| self_translator := self_translator self;
     self_constraints := self_constraints self;
     self_A_ineq := self_A_ineq self;
     self_b_ineq := self_b_ineq self;
     self_A_eq := self_A_eq self;
     self_b_eq := self_b_eq self;
     self_dimension_names := self_dimension_names self;
     self_n_dimensions := self_n_dimensions self;
     self__vertices := Some vs;
     self__volume := self__volume self;
     self__centroid := self__centroid self |}.

(** The feasibility slack and the tolerance of the duplicate test. *)
Definition slack : Q := (1 # 10000000000)%Q.
Definition atol : Q := (1 # 100000000)%Q.

(** [all(bounds[i][0] <= vertex[i] <= bounds[i][1] for i in ...)]: stops
    at the first coordinate out of its bounds; an index out of range
    raises. *)
Fixpoint all_in_bounds (bounds : list (Q * Q)) (v : vertex) (indices : list nat)
    : result bool :=
  match indices with
  | [] => Ok true
  | i :: indices' =>
      b ← list_getitem bounds i;
      x ← list_getitem v i;
      if Qle_bool b.1 x && Qle_bool x b.2
      then all_in_bounds bounds v indices'
      else Ok false
  end.

(** [except (np.linalg.LinAlgError, ValueError): continue] *)
Definition except_continue {A} (r : result (list A)) : result (list A) :=
  match r with
  | Raise LinAlgError => Ok []
  | Raise (ValueError _) => Ok []
  | _ => r
  end.

Section WithLibs.
Context `{Libs}.

(** The [try] block of the loop over the combinations: the vertices it
    appends (none or one). *)
Definition try_combination (self : state) (bounds : list (Q * Q))
    (constraint_indices : list nat) : result (list vertex) :=
  A_subset ← np_take_rows (self_A_ineq self) constraint_indices;
  b_subset ← np_take (self_b_ineq self) constraint_indices;
  d ← np_linalg_det A_subset;
  if Qeq_bool d 0 then Ok []
  else
    v ← np_linalg_solve A_subset b_subset;
    lhs ← np_matvec (self_A_ineq self) v;
    feasible ← np_all_le lhs (self_b_ineq self) slack;
    if (feasible : bool) then
      inside ← all_in_bounds bounds v (seq 0 (self_n_dimensions self));
      if (inside : bool) then Ok [v] else Ok []
    else Ok [].

Definition combination_body (self : state) (bounds : list (Q * Q))
    (constraint_indices : list nat) : result (list vertex) :=
  except_continue (try_combination self bounds constraint_indices).

(** The inner loop of the removal of duplicates, with its [break]. *)
Fixpoint is_duplicate (v : vertex) (unique_vertices : list vertex) : result bool :=
  match unique_vertices with
  | [] => Ok false
  | existing :: rest =>
      close ← np_allclose v existing atol;
      if (close : bool) then Ok true else is_duplicate v rest
  end.

Fixpoint remove_duplicates (vertices unique_vertices : list vertex)
    : result (list vertex) :=
  match vertices with
  | [] => Ok unique_vertices
  | v :: vertices' =>
      dup ← is_duplicate v unique_vertices;
      remove_duplicates vertices'
        (if (dup : bool) then unique_vertices else unique_vertices ++ [v])
  end.

Definition default_bounds (self : state) : list (Q * Q) :=
  replicate (self_n_dimensions self) ((-10)%Q, 10%Q).

(** The index combinations the fallback goes through. *)
Definition constraint_combinations (self : state) : list (list nat) :=
  combinations (seq 0 (length (self_b_ineq self))) (self_n_dimensions self).

(** The fallback: enumerate the intersections of constraints. *)
Definition enumerate_intersections (self : state) (bounds : option (list (Q * Q)))
    : result (list vertex) :=
  let bounds := default (default_bounds self) bounds in
  vertices ← for_extend (combination_body self bounds)
               (constraint_combinations self) [];
  match vertices with
  | [] => Ok []
  | _ => remove_duplicates vertices []
  end.

(** The guarded call of pypoman: [Some] when it gave the vertices. *)
Definition try_pypoman (self : state) : option (list vertex) :=
  if PYPOMAN_AVAILABLE && bool_decide (self_A_eq self = None) then
    match pypoman_compute_polytope_vertices (self_A_ineq self) (self_b_ineq self) with
    | Ok vertices => Some vertices
    | Raise _ => None
    end
  else None.

(** [compute_vertices]: what the call gives and the visualizer
    afterwards. An exception leaves the cache as it was. *)
Definition compute_vertices (self : state) (bounds : option (list (Q * Q)))
    : result (list vertex) * state :=
  match self__vertices self with
  | Some vs => (Ok vs, self)
  | None =>
      match try_pypoman self with
      | Some vertices => (Ok vertices, set_vertices self vertices)
      | None =>
          match enumerate_intersections self bounds with
          | Ok vertices => (Ok vertices, set_vertices self vertices)
          | Raise e => (Raise e, self)
          end
      end
  end.

End WithLibs.

End PolytopeVisualizer.

(** ** Exact linear algebra, one implementation of [Libs]

    Determinants by expansion along the first row and solutions by Cramer's
    rule, on rationals: what [np.linalg.det] and [np.linalg.solve] compute
    when no rounding occurs. *)

Module Exact.

Definition drop_col (j : nat) (r : list Q) : list Q := take j r ++ drop (S j) r.

Fixpoint det_rows (n : nat) (rs : list (list Q)) : Q :=
  match n, rs with
  | S n', r :: rest =>
      foldr Qplus 0%Q
        (imap (fun j a =>
                 ((if Nat.even j then a else - a) *
                  det_rows n' (drop_col j <$> rest))%Q) r)
  | _, _ => 1%Q
  end.

Definition is_square (A : ndarray2) : bool :=
  Nat.eqb (length (rows A)) (ncols A) &&
  forallb (fun r => Nat.eqb (length r) (ncols A)) (rows A).

Definition det (A : ndarray2) : result Q :=
  if is_square A then Ok (Qred (det_rows (ncols A) (rows A)))
  else Raise LinAlgError.

Definition replace_col (j : nat) (b : list Q) (rs : list (list Q)) : list (list Q) :=
  zip_with (fun r bi => <[j:=bi]> r) rs b.

Definition solve (A : ndarray2) (b : list Q) : result vertex :=
  if negb (is_square A) then Raise LinAlgError
  else if negb (Nat.eqb (length b) (length (rows A)))
  then Raise (ValueError "solve: mismatch in core dimension")
  else
    let d := det_rows (ncols A) (rows A) in
    if Qeq_bool d 0 then Raise LinAlgError
    else Ok ((fun j => Qred (det_rows (ncols A) (replace_col j b (rows A)) / d))
               <$> seq 0 (length (rows A))).

(** numpy in exact arithmetic, with or without pypoman. *)
Definition libs (available : bool)
    (pypoman : ndarray2 -> list Q -> result (list vertex)) : Libs :=
  {| PYPOMAN_AVAILABLE := available;
     pypoman_compute_polytope_vertices := pypoman;
     np_linalg_det := det;
     np_linalg_solve := solve |}.

End Exact.

(** ** The engine with a budget that the specification asks for *)

Module Budgeted.

Import PolytopeVisualizer.

Section WithLibs.
Context `{Libs}.

(** The enumeration of [enumerate_intersections], stopped after
    [max_combinations] combinations; the flag tells whether some
    combination was left out. It follows the words of the
    specification, not a function of the source. *)
Definition enumerate_within (self : state) (bounds : option (list (Q * Q)))
    (max_combinations : nat) : result (list vertex * bool) :=
  let bounds := default (default_bounds self) bounds in
  let truncated :=
    bool_decide (max_combinations < length (constraint_combinations self))%nat in
  vertices ← for_extend (combination_body self bounds)
               (take max_combinations (constraint_combinations self)) [];
  unique ← match vertices with
           | [] => Ok []
           | _ => remove_duplicates vertices []
           end;
  Ok (unique, truncated).

End WithLibs.

End Budgeted.

(** Pascal's triangle: the number of [k]-element combinations of [n] things. *)
Fixpoint choose (n k : nat) : nat :=
  match k with
  | O => 1
  | S k' =>
      match n with
      | O => 0
      | S n' => choose n' k' + choose n' k
      end
  end.

(** ** Closed forms used in the statements *)

Module Closed.

Module T := QualitativeEvaluationTranslator.

(** The coordinate of a project (by its index) and a criterion (by its
    position) in the flattened value matrix. *)
Definition variable_index (self : T.state) (idx crit_idx : nat) : nat :=
  (idx * T.n_criteria self + crit_idx)%nat.

(** The bound and the equality flag that [parse_comparison_evaluation]
    gives for an operator; [None] for an operator without a branch. *)
Definition comparison_kind (op : option ComparisonOperator) : option (Q * bool) :=
  match op with
  | Some GREATER => Some ((-1 # 100)%Q, false)
  | Some LESS => Some ((-1 # 100)%Q, false)
  | Some EQUAL => Some (0%Q, true)
  | _ => None
  end.

(** The constraint of one criterion, for an operator with a branch. *)
Definition comparison_constraint (self : T.state) (ev : QualitativeEvaluation)
    (a b : string) (ia ib : nat) (k : Q * bool) (c : nat * string) : LinearConstraint :=
  {| coefficients :=
       <[variable_index self ib c.1 := (-1)%Q]>
         (<[variable_index self ia c.1 := 1%Q]>
            (np_zeros (T.n_projects self * T.n_criteria self)));
     bound := k.1;
     is_equality := k.2;
     constraint_id := "comp_" +:+ a +:+ "_" +:+ b +:+ "_" +:+ c.2;
     source_evaluation := Some ev |}.

(** What is left of a constraint without its back-reference to the
    evaluation. *)
Definition content (c : LinearConstraint) : list Q * Q * bool * string :=
  (coefficients c, bound c, is_equality c, constraint_id c).

Definition with_operator (ev : QualitativeEvaluation)
    (op : option ComparisonOperator) : QualitativeEvaluation :=
  {| evaluator_id := evaluator_id ev;
     evaluation_type := evaluation_type ev;
     projects := projects ev;
     operator := op;
     values := values ev;
     confidence := confidence ev;
     criteria := criteria ev;
     timestamp := timestamp ev;
     metadata := metadata ev |}.

(** The Comparison that [parse_ranking_evaluation] builds for a pair. *)
Definition ranking_pair (ev : QualitativeEvaluation) (higher lower : string)
    : QualitativeEvaluation :=
  {| evaluator_id := evaluator_id ev;
     evaluation_type := COMPARISON;
     projects := [higher; lower];
     operator := Some GREATER;
     values := None;
     confidence := confidence ev;
     criteria := criteria ev;
     timestamp := None;
     metadata := None |}.

(** The constraints of the evaluations that translate, and the records of
    those that do not. *)
Definition produced (self : T.state) (ev : QualitativeEvaluation) : list LinearConstraint :=
  match T.dispatch self ev with
  | Some (Ok cs) => cs
  | _ => []
  end.

Definition failure (self : T.state) (ev : QualitativeEvaluation) : option log_record :=
  match T.dispatch self ev with
  | Some (Ok _) => None
  | Some (Raise e) => Some (LogErrorProcessing (evaluator_id ev) e)
  | None => Some (LogWarningUnsupported (evaluation_type ev))
  end.

End Closed.

(** ** Properties of vertices used in the statements *)

Module Geometry.

Module V := PolytopeVisualizer.

(** [A_ineq·v <= b_ineq + 1e-10], row by row. *)
Definition satisfies_inequalities (self : V.state) (v : vertex) : Prop :=
  Forall2 (fun row b => (dot row v <= b + V.slack)%Q)
    (rows (V.self_A_ineq self)) (V.self_b_ineq self).

(** [A_eq·v = b_eq] within [1e-10], row by row. *)
Definition satisfies_equalities (self : V.state) (v : vertex) : Prop :=
  forall A_eq, V.self_A_eq self = Some A_eq ->
    Forall2 (fun row b => (Qabs (dot row v - b) <= V.slack)%Q)
      (rows A_eq) (V.self_b_eq self).

(** Every coordinate of the visualizer lies between its bounds. *)
Definition inside_bounds (self : V.state) (bounds : list (Q * Q)) (v : vertex) : Prop :=
  forall i, (i < V.self_n_dimensions self)%nat ->
    exists b x, bounds !! i = Some b /\ v !! i = Some x /\ (b.1 <= x <= b.2)%Q.

(** The two arrays of inequalities have one row per constraint and one
    column per dimension, as those that [__init__] stores do. *)
Definition well_formed (self : V.state) : Prop :=
  length (rows (V.self_A_ineq self)) = length (V.self_b_ineq self) /\
  ncols (V.self_A_ineq self) = V.self_n_dimensions self.

(** The coefficient vector of a constraint has one entry per project and
    criterion; the constraints that a translator generates are so, those
    that a caller appends to its list need not be. *)
Definition sized (tr : V.T.state) (c : LinearConstraint) : Prop :=
  length (coefficients c) = (V.T.n_projects tr * V.T.n_criteria tr)%nat.

Definition uniform (tr : V.T.state) : Prop :=
  Forall (sized tr) (V.T.self_constraints tr).

(** Every coordinate differs by less than [1e-8]. *)
Definition within_1e8 (x y : vertex) : Prop :=
  Forall2 (fun a b => (Qabs (a - b) < V.atol)%Q) x y.

(** The test of [np.allclose(x, y, atol=1e-8)]: every coordinate differs
    by at most [1e-8 + 1e-5 * |y|]. *)
Definition allclose (x y : vertex) : Prop :=
  Forall2 (fun a b => (Qabs (a - b) <= V.atol + rtol * Qabs b)%Q) x y.

(** No two vertices at different places of the list are within [1e-8]. *)
Definition separated (vs : list vertex) : Prop :=
  forall i j x y, i ≠ j -> vs !! i = Some x -> vs !! j = Some y -> ~ within_1e8 x y.

Section WithLibs.
Context `{Libs}.

(** The vertices that the loop over the combinations accepts, before the
    removal of duplicates. *)
Definition accepted_candidates (self : V.state) (bounds : option (list (Q * Q)))
    : result (list vertex) :=
  for_extend (V.combination_body self (default (V.default_bounds self) bounds))
    (V.constraint_combinations self) [].

(** The deduplication as the specification words it: the vertices
    returned are separated, and each accepted candidate has one of them
    within [1e-8]. *)
Definition deduplicated_1e8 (self : V.state) (bounds : option (list (Q * Q)))
    (vs : list vertex) : Prop :=
  separated vs /\
  forall candidates v, accepted_candidates self bounds = Ok candidates ->
    v ∈ candidates -> exists u, u ∈ vs /\ within_1e8 v u.

(** A call honours a budget when what it returns is what the budgeted
    enumeration returns for it, with some flag. *)
Definition honours_budget (self : V.state) (bounds : option (list (Q * Q)))
    (max_combinations : nat) : Prop :=
  exists truncated,
    Budgeted.enumerate_within self bounds max_combinations =
    match (V.compute_vertices self bounds).1 with
    | Ok vs => Ok (vs, truncated)
    | Raise e => Raise e
    end.

(** [n] calls of [compute_vertices], each with its own [bounds]: what
    they return, and the visualizer at the end. *)
Fixpoint calls (self : V.state) (args : list (option (list (Q * Q))))
    : list (result (list vertex)) * V.state :=
  match args with
  | [] => ([], self)
  | bounds :: args' =>
      let '(r, self) := V.compute_vertices self bounds in
      let '(rs, self) := calls self args' in
      (r :: rs, self)
  end.

End WithLibs.

End Geometry.

(** ** Translators used as examples *)

Module Examples.

Module T := QualitativeEvaluationTranslator.

(** numpy without pypoman installed. *)
Definition numpy : Libs :=
  Exact.libs false (fun _ _ => Raise (ValueError "pypoman is not installed")).

Definition threshold (p : string) (op : ComparisonOperator) (v : Q)
    : QualitativeEvaluation :=
  {| evaluator_id := "expert"; evaluation_type := THRESHOLD; projects := [p];
     operator := Some op; values := Some [v]; confidence := 1%Q;
     criteria := None; timestamp := None; metadata := None |}.

Definition comparison (a b : string) (op : ComparisonOperator)
    : QualitativeEvaluation :=
  {| evaluator_id := "expert"; evaluation_type := COMPARISON; projects := [a; b];
     operator := Some op; values := None; confidence := 1%Q;
     criteria := None; timestamp := None; metadata := None |}.

Definition ranking (ps : list string) : QualitativeEvaluation :=
  {| evaluator_id := "expert"; evaluation_type := RANKING; projects := ps;
     operator := None; values := None; confidence := 1%Q;
     criteria := None; timestamp := None; metadata := None |}.

Definition translator (ps : list string) (evs : list QualitativeEvaluation) : T.state :=
  foldl T.add_evaluation (T.init ps None) evs.

(** [A = B], [A] at most [0.5] and [B] at most [0.25]. *)
Definition equal_but_apart : T.state :=
  translator ["A"; "B"]
    [comparison "A" "B" EQUAL;
     threshold "A" GREATER_EQUAL (1 # 2); threshold "B" GREATER_EQUAL (1 # 4)].

(** [A] between [1] and [1.000005]. *)
Definition thin_interval : T.state :=
  translator ["A"]
    [threshold "A" GREATER_EQUAL (1000005 # 1000000); threshold "A" LESS_EQUAL 1].

(** [A] and [B] between [0.25] and [0.5]. *)
Definition square : T.state :=
  translator ["A"; "B"]
    [threshold "A" GREATER_EQUAL (1 # 2); threshold "A" LESS_EQUAL (1 # 4);
     threshold "B" GREATER_EQUAL (1 # 2); threshold "B" LESS_EQUAL (1 # 4)].

(** A batch whose first evaluation names an unknown project and whose
    second has a kind without translation. *)
Definition batch : T.state :=
  translator ["A"; "B"]
    [comparison "A" "C" GREATER;
     {| evaluator_id := "expert"; evaluation_type := PREFERENCE; projects := ["A"];
        operator := None; values := None; confidence := 1%Q;
        criteria := None; timestamp := None; metadata := None |};
     comparison "A" "B" GREATER].

End Examples.

(** ** Rows with one entry *)

Module Rows.

Module T := QualitativeEvaluationTranslator.

(** The coefficient vector that is [v] at the coordinate of a project (by
    its index) and a criterion (by its position), and zero elsewhere. *)
Definition unit_row (self : T.state) (idx crit_idx : nat) (v : Q) : list Q :=
  <[Closed.variable_index self idx crit_idx := v]>
    (np_zeros (T.n_projects self * T.n_criteria self)).

(** A project of the translator. *)
Definition known (self : T.state) (proj : string) : Prop :=
  proj ∈ T.self_projects self.

(** The two constraints of a Range for one criterion. *)
Definition range_lower (self : T.state) (ev : QualitativeEvaluation)
    (proj : string) (idx : nat) (lo : Q) (c : nat * string) : LinearConstraint :=
  {| coefficients := unit_row self idx c.1 1%Q;
     bound := lo;
     is_equality := false;
     constraint_id := "range_lower_" +:+ proj +:+ "_" +:+ c.2;
     source_evaluation := Some ev |}.

Definition range_upper (self : T.state) (ev : QualitativeEvaluation)
    (proj : string) (idx : nat) (hi : Q) (c : nat * string) : LinearConstraint :=
  {| coefficients := unit_row self idx c.1 (-1)%Q;
     bound := (- hi)%Q;
     is_equality := false;
     constraint_id := "range_upper_" +:+ proj +:+ "_" +:+ c.2;
     source_evaluation := Some ev |}.

(** The constraint of a Threshold for one criterion: [sign] is [1] and
    [bnd] the threshold for [>=], [-1] and its opposite for [<=]. *)
Definition threshold_constraint (self : T.state) (ev : QualitativeEvaluation)
    (proj : string) (idx : nat) (sign bnd : Q) (c : nat * string) : LinearConstraint :=
  {| coefficients := unit_row self idx c.1 sign;
     bound := bnd;
     is_equality := false;
     constraint_id := "threshold_" +:+ proj +:+ "_" +:+ c.2;
     source_evaluation := Some ev |}.

End Rows.

(** ** Python values of the report dictionaries *)

(** What the dictionaries that the reporting methods return hold:
    [PyStrOf e] is [str(e)] of an exception, [PyArray] a one-dimensional
    numpy array. *)
#[warnings="-register-all"] Inductive pyvalue : Type :=
  | PyNone
  | PyBool (b : bool)
  | PyInt (n : nat)
  | PyFloat (q : Q)
  | PyStr (s : string)
  | PyStrOf (e : exn)
  | PyArray (a : list Q)
  | PyList (l : list pyvalue)
  | PyDict (d : gmap string pyvalue).

(** [d[key]] on a dict *)
Definition dict_getitem (d : gmap string pyvalue) (key : string) : result pyvalue :=
  match d !! key with
  | Some v => Ok v
  | None => Raise (KeyError key)
  end.

(** [d[key].append(x)] where [d[key]] is a list. *)
Definition dict_append (key : string) (x : pyvalue) (d : gmap string pyvalue)
    : gmap string pyvalue :=
  match d !! key with
  | Some (PyList l) => <[key := PyList (l ++ [x])]> d
  | _ => d
  end.

(** [A.tolist()] of a two-dimensional array and of a vector. *)
Definition tolist1 (a : list Q) : pyvalue := PyList (PyFloat <$> a).
Definition tolist2 (A : ndarray2) : pyvalue := PyList (tolist1 <$> rows A).

(** [np.column_stack([A, b])]: [b] becomes the last column; the numbers of
    rows must agree. *)
Definition np_column_stack (A : ndarray2) (b : list Q) : result ndarray2 :=
  if Nat.eqb (length (rows A)) (length b)
  then Ok {| ncols := S (ncols A); rows := zip_with (fun r x => r ++ [x]) (rows A) b |}
  else Raise (ValueError "all the input array dimensions must match").

(** [np.linalg.matrix_rank] is a library function. *)
Class Rank : Type := {
  np_linalg_matrix_rank : ndarray2 -> result nat
}.

(** ** QualitativeEvaluationTranslator.validate_constraints *)

Module TranslatorValidation.

Module T := QualitativeEvaluationTranslator.

Section WithRank.
Context `{Rank}.

(** The [try] block on the equality constraints: the two ranks. *)
Definition ranks (A_eq : ndarray2) (b_eq : list Q) : result (nat * nat) :=
  rank_A ← np_linalg_matrix_rank A_eq;
  stacked ← np_column_stack A_eq b_eq;
  rank_Ab ← np_linalg_matrix_rank stacked;
  mret (rank_A, rank_Ab).

(** [validate_constraints]: the dictionary of results, and the translator
    afterwards. An exception of [get_constraint_matrices] is not caught;
    the bare [except] around the ranks catches every one. *)
Definition validate_constraints (self : T.state)
    : result (gmap string pyvalue) * T.state :=
  let '(matrices, self) := T.get_constraint_matrices self in
  ('(A_ineq, b_ineq, A_eq, b_eq) ← matrices;
   let validation_results : gmap string pyvalue :=
     {[ "n_inequality_constraints" := PyInt (length b_ineq);
        "n_equality_constraints" := PyInt (length b_eq);
        "total_constraints" := PyInt (length b_ineq + length b_eq);
        "n_variables" := PyInt (T.n_projects self * T.n_criteria self);
        "is_overconstrained" := PyBool false;
        "warnings" := PyList [] ]} in
   let n_variables := (T.n_projects self * T.n_criteria self)%nat in
   let validation_results :=
     if decide (n_variables < length b_eq)%nat then
       dict_append "warnings"
         (PyStr "System may be overconstrained (more equality constraints than variables)")
         (<["is_overconstrained" := PyBool true]> validation_results)
     else validation_results in
   let validation_results :=
     if decide (0 < length b_eq)%nat then
       match ranks A_eq b_eq with
       | Ok (rank_A, rank_Ab) =>
           if decide (rank_A ≠ rank_Ab) then
             dict_append "warnings"
               (PyStr "Equality constraints appear to be inconsistent")
               validation_results
           else validation_results
       | Raise _ =>
           dict_append "warnings"
             (PyStr "Could not verify equality constraint consistency")
             validation_results
       end
     else validation_results in
   mret validation_results,
   self).

End WithRank.

End TranslatorValidation.

(** ** WizardBackend *)

Module WizardBackend.

Module T := QualitativeEvaluationTranslator.
Module V := PolytopeVisualizer.

(** The projects and the evaluations are the dictionaries of the wizard's
    export; the translator and the visualizer are [None] until created. *)
Record state : Type := {
  self_projects : list (gmap string pyvalue);
  self_evaluations : list (gmap string pyvalue);
  self_translator : option T.state;
  self_visualizer : option V.state
}.

(** [__init__] *)
Definition init : state :=
  {| self_projects := []; self_evaluations := [];
     self_translator := None; self_visualizer := None |}.

(** The translator is an object that the backend holds: what a method
    does to it is seen through [self.translator]. *)
Definition set_translator (self : state) (tr : T.state) : state :=
  {| self_projects := self_projects self;
     self_evaluations := self_evaluations self;
     self_translator := Some tr;
     self_visualizer := self_visualizer self |}.

Definition error (message : pyvalue) : gmap string pyvalue :=
  {[ "status" := PyStr "error"; "message" := message ]}.

Definition not_initialized : gmap string pyvalue :=
  error (PyStr "Translator not initialized. Call create_translator() first.").

(** [generate_constraint_matrices]: the response and the backend
    afterwards. [except Exception] turns an exception into a response. *)
Definition generate_constraint_matrices (self : state) : gmap string pyvalue * state :=
  match self_translator self with
  | None => (not_initialized, self)
  | Some translator =>
      let translator := (T.translate_evaluations translator).2 in
      let '(matrices, translator) := T.get_constraint_matrices translator in
      (match matrices with
       | Ok (A_ineq, b_ineq, A_eq, b_eq) =>
           {[ "status" := PyStr "success";
              "A_ineq" := tolist2 A_ineq;
              "b_ineq" := tolist1 b_ineq;
              "A_eq" := tolist2 A_eq;
              "b_eq" := tolist1 b_eq;
              "n_inequality_constraints" := PyInt (length b_ineq);
              "n_equality_constraints" := PyInt (length b_eq);
              "n_variables" := PyInt (ncols A_ineq) ]}
       | Raise e => error (PyStrOf e)
       end,
       set_translator self translator)
  end.

Section WithRank.
Context `{Rank}.

(** [validate_constraints]: it reads the key ['is_feasible'] of what the
    translator's validation returns. *)
Definition validate_constraints (self : state) : gmap string pyvalue * state :=
  match self_translator self with
  | None => (not_initialized, self)
  | Some translator =>
      let '(r, translator) := TranslatorValidation.validate_constraints translator in
      (match (validation_result ← r;
              is_valid ← dict_getitem validation_result "is_feasible";
              mret ({[ "status" := PyStr "success";
                       "is_valid" := is_valid;
                       "validation_details" := PyDict validation_result ]}
                    : gmap string pyvalue)) with
       | Ok response => response
       | Raise e => error (PyStrOf e)
       end,
       set_translator self translator)
  end.

End WithRank.

End WizardBackend.

(** ** PolytopeVisualizer.compute_polytope_properties *)

(** [scipy.spatial.ConvexHull(vertices)] is a library call: its [volume]
    and its [area], or the exception it raises. *)
Class Scipy : Type := {
  scipy_spatial_ConvexHull : list vertex -> result (Q * Q)
}.

(** The columns of a two-dimensional array given by its rows, which have
    the length of the first. *)
Definition np_columns (vs : list vertex) : list (list Q) :=
  (fun j => omap (fun v : vertex => v !! j) vs) <$> seq 0 (length (hd [] vs)).

Definition Qsum (xs : list Q) : Q := foldr Qplus 0%Q xs.

Definition minimum (a b : Q) : Q := if Qle_bool a b then a else b.
Definition maximum (a b : Q) : Q := if Qle_bool a b then b else a.

(** [np.mean(vs, axis=0)], [np.min(vs, axis=0)] and [np.max(vs, axis=0)]
    of an array with at least one row. The minimum and the maximum are
    entries of the array. The mean is the exact one: [np.mean] adds and
    divides in doubles and rounds, so that the mean of three entries
    [0.1] is [0.10000000000000002]; nothing below places the centroid
    between the minimum and the maximum of the vertices. *)
Definition np_mean0 (vs : list vertex) : list Q :=
  (fun col => Qsum col / inject_Z (Z.of_nat (length col)))%Q <$> np_columns vs.

Definition np_min0 (vs : list vertex) : list Q :=
  (fun col => foldr minimum (hd 0%Q col) col) <$> np_columns vs.

Definition np_max0 (vs : list vertex) : list Q :=
  (fun col => foldr maximum (hd 0%Q col) col) <$> np_columns vs.

Module PolytopeProperties.

Module V := PolytopeVisualizer.

Section WithLibs.
Context `{Libs} `{Scipy}.

(** The [try] block around the convex hull, with its [except Exception]. *)
Definition with_volume (vertices : list vertex) (properties : gmap string pyvalue)
    : gmap string pyvalue :=
  match scipy_spatial_ConvexHull vertices with
  | Ok (volume, area) =>
      <["surface_area" := PyFloat area]> (<["volume" := PyFloat volume]> properties)
  | Raise _ =>
      <["surface_area" := PyNone]> (<["volume" := PyNone]> properties)
  end.

(** [compute_polytope_properties]: the dictionary, and the visualizer
    afterwards (the call of [compute_vertices] may fill its cache). *)
Definition compute_polytope_properties (self : V.state)
    : result (gmap string pyvalue) * V.state :=
  let '(r, self) := V.compute_vertices self None in
  (vertices ← r;
   let properties : gmap string pyvalue :=
     {[ "n_vertices" := PyInt (length vertices);
        "n_constraints" := PyInt (length (V.self_b_ineq self));
        "n_dimensions" := PyInt (V.self_n_dimensions self);
        "dimension_names" := PyList (PyStr <$> V.self_dimension_names self) ]} in
   let properties :=
     if decide (0 < length vertices)%nat then
       let properties :=
         <["bounding_box" :=
             PyDict {[ "min" := PyArray (np_min0 vertices);
                       "max" := PyArray (np_max0 vertices) ]}]>
           (<["centroid" := PyArray (np_mean0 vertices)]> properties) in
       if decide (V.self_n_dimensions self <= 3 /\
                  V.self_n_dimensions self + 1 <= length vertices)%nat
       then with_volume vertices properties
       else properties
     else properties in
   mret properties,
   self).

End WithLibs.

End PolytopeProperties.

(** ** More translators to run the definitions on *)

Module Cases.

Module T := QualitativeEvaluationTranslator.

Definition range (p : string) (lo hi : Q) : QualitativeEvaluation :=
  {| evaluator_id := "expert"; evaluation_type := RANGE; projects := [p];
     operator := None; values := Some [lo; hi]; confidence := 1%Q;
     criteria := None; timestamp := None; metadata := None |}.

(** [A] between [0.25] and [0.5], as a Range. *)
Definition quarter_to_half : T.state :=
  Examples.translator ["A"] [range "A" (1 # 4) (1 # 2)].

(** [A > B] with two Thresholds, which the vertex computation reads as
    [A - B <= -0.01], [A >= 0.25] and [B <= 0.5]. *)
Definition ordered : T.state :=
  Examples.translator ["A"; "B"]
    [Examples.comparison "A" "B" GREATER;
     Examples.threshold "A" LESS_EQUAL (1 # 4);
     Examples.threshold "B" GREATER_EQUAL (1 # 2)].

(** Three projects and a single Comparison. *)
Definition underdetermined : T.state :=
  Examples.translator ["A"; "B"; "C"] [Examples.comparison "A" "B" GREATER].

(** A translator into whose list of constraints a caller has put two
    rows of different lengths. *)
Definition row (coeffs : list Q) (b : Q) : LinearConstraint :=
  {| coefficients := coeffs; bound := b; is_equality := false;
     constraint_id := "manual"; source_evaluation := None |}.

Definition ragged : T.state :=
  {| T.self_projects := ["A"; "B"]; T.self_criteria := ["value"];
     T.self_evaluations := [];
     T.self_constraints := [row [1; 0] 1; row [1] 1]%Q |}.

(** A backend of the wizard that holds a translator. *)
Definition backend (tr : T.state) : WizardBackend.state :=
  WizardBackend.set_translator WizardBackend.init tr.

(** Exact rank by elimination on the first column. *)
Definition scale_sub (p r : list Q) : list Q :=
  match p, r with
  | a :: p', b :: r' => zip_with (fun x y => (y - b / a * x)%Q) p' r'
  | _, _ => []
  end.

Definition leads (r : list Q) : bool :=
  match r with
  | a :: _ => negb (Qeq_bool a 0)
  | [] => false
  end.

Fixpoint rank_rows (n : nat) (rs : list (list Q)) : nat :=
  match n with
  | O => O
  | S n' =>
      match filter (fun r => leads r = true) rs with
      | [] => rank_rows n' (tail <$> rs)
      | p :: ps =>
          S (rank_rows n'
               ((scale_sub p <$> ps) ++
                (tail <$> filter (fun r => leads r = false) rs)))
      end
  end.

Definition rank : Rank :=
  {| np_linalg_matrix_rank := fun A => Ok (rank_rows (ncols A) (rows A)) |}.

(** A hull computation that gives up, as Qhull does on degenerate input. *)
Definition no_hull : Scipy :=
  {| scipy_spatial_ConvexHull := fun _ => Raise (ValueError "QhullError") |}.

End Cases.

(** ** Failures by position, other equality arrays, marked candidates *)

Module Reports.

Module T := QualitativeEvaluationTranslator.

(** Which evaluations of the batch fail, by their position in the input,
    and why: what a returned report of the failures would have to tell. *)
Definition failed (self : T.state) : list (nat * log_record) :=
  omap (fun p : nat * QualitativeEvaluation => pair p.1 <$> Closed.failure self p.2)
    (enumerate (T.self_evaluations self)).

End Reports.

Module Variants.

Module V := PolytopeVisualizer.

(** The same visualizer holding other equality arrays. *)
Definition with_equalities (self : V.state) (A_eq : ndarray2) (b_eq : list Q)
    : V.state :=
  {| V.self_translator := V.self_translator self;
     V.self_constraints := V.self_constraints self;
     V.self_A_ineq := V.self_A_ineq self;
     V.self_b_ineq := V.self_b_ineq self;
     V.self_A_eq := Some A_eq;
     V.self_b_eq := b_eq;
     V.self_dimension_names := V.self_dimension_names self;
     V.self_n_dimensions := V.self_n_dimensions self;
     V.self__vertices := V.self__vertices self;
     V.self__volume := V.self__volume self;
     V.self__centroid := V.self__centroid self |}.

End Variants.

Module Kept.

Import Geometry.

(** The candidates that [keep] marks, in their order. *)
Fixpoint marked (candidates : list vertex) (keep : list bool) : list vertex :=
  match candidates, keep with
  | v :: candidates, k :: keep =>
      (if (k : bool) then [v] else []) ++ marked candidates keep
  | _, _ => []
  end.

(** [keep] marks a candidate exactly when it is not close, in the sense of
    [np.allclose], to any marked candidate before it. *)
Definition first_of_each (candidates : list vertex) (keep : list bool) : Prop :=
  length keep = length candidates /\
  forall k v, candidates !! k = Some v ->
    (keep !! k = Some true <->
     forall i u, (i < k)%nat -> keep !! i = Some true ->
       candidates !! i = Some u -> ~ allclose v u).

End Kept.

(** * Properties *)

Module T := QualitativeEvaluationTranslator.
Module V := PolytopeVisualizer.

(** ** Loops that extend a list *)

Lemma for_extend_acc {A B} (body : A -> result (list B)) xs acc :
  for_extend body xs acc =
  match for_extend body xs [] with
  | Ok r => Ok (acc ++ r)
  | Raise e => Raise e
  end.
Proof.
  revert acc. induction xs as [|x xs IH]; intros acc; simpl.
  - by rewrite app_nil_r.
  - destruct (body x) as [bs|e]; [|done].
    rewrite (IH (acc ++ bs)), (IH bs).
    destruct (for_extend body xs []); [|done].
    by rewrite app_assoc.
Qed.

Lemma for_extend_cons {A B} (body : A -> result (list B)) x xs :
  for_extend body (x :: xs) [] =
  match body x with
  | Ok bs =>
      match for_extend body xs [] with
      | Ok r => Ok (bs ++ r)
      | Raise e => Raise e
      end
  | Raise e => Raise e
  end.
Proof. simpl. destruct (body x); [|done]. apply for_extend_acc. Qed.

Lemma for_extend_app {A B} (body : A -> result (list B)) xs ys :
  for_extend body (xs ++ ys) [] =
  match for_extend body xs [] with
  | Ok r => for_extend body ys r
  | Raise e => Raise e
  end.
Proof.
  induction xs as [|x xs IH]; [done|].
  rewrite <- app_comm_cons, !for_extend_cons.
  destruct (body x) as [bs|e]; [|done].
  rewrite IH. destruct (for_extend body xs []) as [r|e]; [|done].
  rewrite (for_extend_acc body ys (bs ++ r)), (for_extend_acc body ys r).
  destruct (for_extend body ys []); [|done]. by rewrite app_assoc.
Qed.

(** A loop whose body never raises gives the concatenation of what its
    turns give. *)
Lemma for_extend_total {A B} (body : A -> result (list B)) (f : A -> list B) xs :
  Forall (fun x => body x = Ok (f x)) xs ->
  for_extend body xs [] = Ok (concat (f <$> xs)).
Proof.
  induction 1 as [|x xs Hx _ IH]; [done|].
  rewrite for_extend_cons, Hx, IH. done.
Qed.

Lemma for_extend_Ok_inv {A B} (body : A -> result (list B)) xs r :
  for_extend body xs [] = Ok r ->
  exists bss, Forall2 (fun x bs => body x = Ok bs) xs bss /\ r = concat bss.
Proof.
  revert r. induction xs as [|x xs IH]; intros r.
  - intros [= <-]. exists []. split; [constructor|done].
  - rewrite for_extend_cons. destruct (body x) as [bs|e] eqn:Hx; [|done].
    destruct (for_extend body xs []) as [r'|e] eqn:Hr; [|done].
    intros [= <-]. destruct (IH r' eq_refl) as (bss & HF & ->).
    exists (bs :: bss). split; [by constructor|done].
Qed.

(** ** The index of the projects *)

Lemma enumerate_snoc {A} (xs : list A) x :
  enumerate (xs ++ [x]) = enumerate xs ++ [(length xs, x)].
Proof.
  unfold enumerate. rewrite imap_app. simpl. by rewrite Nat.add_0_r.
Qed.

Lemma project_index_snoc ps cs es ks p :
  T.project_index (T.Build_state (ps ++ [p]) cs es ks) =
  <[p:=length ps]> (T.project_index (T.Build_state ps cs es ks)).
Proof.
  unfold T.project_index. simpl. by rewrite enumerate_snoc, foldl_app.
Qed.

(** The index of a name is a position where the list of projects has it. *)
Lemma project_index_Some self proj i :
  T.project_index self !! proj = Some i ->
  T.self_projects self !! i = Some proj.
Proof.
  destruct self as [ps cs es ks]. simpl. revert i.
  induction ps as [|p ps IH] using rev_ind; intros i.
  - unfold T.project_index. simpl. by rewrite lookup_empty.
  - rewrite project_index_snoc, lookup_insert.
    case_decide as Hp.
    + intros [= <-]. subst p. by rewrite list_lookup_middle.
    + intros Hi. apply lookup_app_l_Some. by apply IH.
Qed.

(** Every project of the translator has an index. *)
Lemma project_index_known self proj :
  proj ∈ T.self_projects self <-> is_Some (T.project_index self !! proj).
Proof.
  split.
  - destruct self as [ps cs es ks]. simpl.
    induction ps as [|p ps IH] using rev_ind.
    + by intros ?%elem_of_nil.
    + rewrite project_index_snoc, lookup_insert. case_decide; [by eauto|].
      intros [Hin | ->%list_elem_of_singleton]%elem_of_app; [by apply IH|done].
  - intros [i Hi]. apply project_index_Some in Hi.
    by eapply list_elem_of_lookup_2.
Qed.

Lemma project_index_lt self proj i :
  T.project_index self !! proj = Some i -> (i < T.n_projects self)%nat.
Proof. intros Hi%project_index_Some. by eapply lookup_lt_Some. Qed.

Lemma project_index_inj self a b i :
  T.project_index self !! a = Some i ->
  T.project_index self !! b = Some i -> a = b.
Proof. intros Ha%project_index_Some Hb%project_index_Some. congruence. Qed.

(** Without repeated names the index is the position. *)
Lemma project_index_NoDup self proj i :
  NoDup (T.self_projects self) ->
  T.self_projects self !! i = Some proj ->
  T.project_index self !! proj = Some i.
Proof.
  intros Hnd Hi.
  destruct (proj1 (project_index_known self proj)) as [j Hj].
  { by eapply list_elem_of_lookup_2. }
  rewrite Hj. f_equal.
  eapply NoDup_lookup; [done| |done]. by apply project_index_Some.
Qed.

Lemma project_index_getitem_Ok self proj i :
  T.project_index self !! proj = Some i ->
  T.project_index_getitem self proj = Ok i.
Proof. unfold T.project_index_getitem. by intros ->. Qed.

Import Closed.

(** ** Comparisons *)

Lemma np_setitem_Ok a i v :
  (i < length a)%nat -> np_setitem a i v = Ok (<[i:=v]> a).
Proof. intros Hi. unfold np_setitem. by rewrite decide_True. Qed.

Lemma np_zeros_length n : length (np_zeros n) = n.
Proof. apply length_replicate. Qed.

Lemma variable_index_lt self idx c :
  (idx < T.n_projects self)%nat -> (c < T.n_criteria self)%nat ->
  (variable_index self idx c < T.n_projects self * T.n_criteria self)%nat.
Proof. unfold variable_index. nia. Qed.

Lemma variable_index_inj self i c j d :
  (c < T.n_criteria self)%nat -> (d < T.n_criteria self)%nat ->
  variable_index self i c = variable_index self j d -> i = j /\ c = d.
Proof.
  unfold variable_index. intros Hc Hd Heq.
  destruct (Nat.lt_trichotomy i j) as [Hlt|[->|Hlt]]; [|lia|].
  - assert (S i * T.n_criteria self <= j * T.n_criteria self)%nat
      by (apply Nat.mul_le_mono_r; lia). lia.
  - assert (S j * T.n_criteria self <= i * T.n_criteria self)%nat
      by (apply Nat.mul_le_mono_r; lia). lia.
Qed.

Lemma enumerate_lookup {A} (xs : list A) i :
  enumerate xs !! i = pair i <$> xs !! i.
Proof. unfold enumerate. apply list_lookup_imap. Qed.

Lemma enumerate_length {A} (xs : list A) : length (enumerate xs) = length xs.
Proof. apply length_imap. Qed.

Lemma enumerate_Forall {A} (xs : list A) :
  Forall (fun p => xs !! p.1 = Some p.2) (enumerate xs).
Proof.
  apply Forall_lookup. intros i [j x]. rewrite enumerate_lookup.
  destruct (xs !! i) eqn:Hi; simpl; [|done]. by intros [= <- <-].
Qed.

Lemma concat_singletons {A B} (g : A -> B) xs :
  concat ((fun x => [g x]) <$> xs) = g <$> xs.
Proof. induction xs as [|x xs IH]; simpl; [done|]. f_equal. exact IH. Qed.

Lemma concat_nils {A B} (xs : list A) :
  concat ((fun _ => @nil B) <$> xs) = [].
Proof. by induction xs. Qed.

Lemma comparison_body_closed self ev a b ia ib c :
  (ia < T.n_projects self)%nat -> (ib < T.n_projects self)%nat ->
  (c.1 < T.n_criteria self)%nat ->
  T.comparison_body self ev a b ia ib c =
  Ok match comparison_kind (operator ev) with
     | Some k => [comparison_constraint self ev a b ia ib k c]
     | None => []
     end.
Proof.
  intros Ha Hb Hc. destruct c as [ci crit]. unfold T.comparison_body.
  pose proof (variable_index_lt self ia ci Ha Hc) as Hpa.
  pose proof (variable_index_lt self ib ci Hb Hc) as Hpb.
  unfold variable_index in Hpa, Hpb.
  destruct (operator ev) as [[]|]; simpl; try done;
    rewrite np_setitem_Ok by (by rewrite np_zeros_length); simpl;
    rewrite np_setitem_Ok by (by rewrite length_insert, np_zeros_length); done.
Qed.

(** A Comparison between two known projects always translates: one
    constraint for each criterion when its operator is [>], [<] or [=], and
    nothing otherwise. *)
Lemma parse_comparison_closed self ev a b ia ib :
  projects ev = [a; b] ->
  T.project_index self !! a = Some ia ->
  T.project_index self !! b = Some ib ->
  T.parse_comparison_evaluation self ev =
  Ok match comparison_kind (operator ev) with
     | Some k => comparison_constraint self ev a b ia ib k <$> enumerate (T.self_criteria self)
     | None => []
     end.
Proof.
  intros Hp Ha Hb. unfold T.parse_comparison_evaluation. rewrite Hp.
  rewrite (project_index_getitem_Ok _ _ _ Ha), (project_index_getitem_Ok _ _ _ Hb).
  simpl.
  pose proof (project_index_lt _ _ _ Ha) as Hia.
  pose proof (project_index_lt _ _ _ Hb) as Hib.
  rewrite (for_extend_total _
    (fun c => match comparison_kind (operator ev) with
              | Some k => [comparison_constraint self ev a b ia ib k c]
              | None => []
              end)).
  - destruct (comparison_kind (operator ev)).
    + f_equal. apply concat_singletons.
    + f_equal. apply (concat_nils (B:=LinearConstraint)).
  - eapply Forall_impl; [apply enumerate_Forall|].
    intros c Hc. apply comparison_body_closed; [done..|].
    simpl in Hc. unfold T.n_criteria. exact (lookup_lt_Some _ _ _ Hc).
Qed.

(** The coefficient vector of a Comparison between different projects. *)
Lemma comparison_coefficients self ev a b ia ib k c :
  ia ≠ ib ->
  (ia < T.n_projects self)%nat -> (ib < T.n_projects self)%nat ->
  (c.1 < T.n_criteria self)%nat ->
  let v := coefficients (comparison_constraint self ev a b ia ib k c) in
  length v = (T.n_projects self * T.n_criteria self)%nat /\
  v !! variable_index self ia c.1 = Some 1%Q /\
  v !! variable_index self ib c.1 = Some (-1)%Q /\
  (forall j, (j < length v)%nat ->
     j ≠ variable_index self ia c.1 -> j ≠ variable_index self ib c.1 ->
     v !! j = Some 0%Q).
Proof.
  intros Hne Ha Hb Hc. simpl.
  pose proof (variable_index_lt self ia c.1 Ha Hc) as Hpa.
  pose proof (variable_index_lt self ib c.1 Hb Hc) as Hpb.
  assert (variable_index self ib c.1 ≠ variable_index self ia c.1) as Hpne.
  { intros [? _]%variable_index_inj; [congruence|done..]. }
  rewrite !length_insert, np_zeros_length.
  split; [done|]. split; [|split].
  - rewrite list_lookup_insert_ne by done.
    apply list_lookup_insert_eq. by rewrite np_zeros_length.
  - apply list_lookup_insert_eq. by rewrite length_insert, np_zeros_length.
  - intros j Hj Hja Hjb.
    rewrite !list_lookup_insert_ne by done.
    apply lookup_replicate_2. done.
Qed.

Lemma length_concat_uniform {A} (xss : list (list A)) n :
  Forall (fun xs => length xs = n) xss -> length (concat xss) = (length xss * n)%nat.
Proof.
  induction 1 as [|xs xss Hxs _ IH]; [done|].
  simpl. rewrite length_app, IH, Hxs. done.
Qed.

(** A loop whose every turn succeeds with something that satisfies [P]. *)
Lemma for_extend_Forall2 {A B} (body : A -> result (list B))
    (P : A -> list B -> Prop) xs :
  Forall (fun x => exists bs, body x = Ok bs /\ P x bs) xs ->
  exists bss, Forall2 (fun x bs => body x = Ok bs /\ P x bs) xs bss /\
              for_extend body xs [] = Ok (concat bss).
Proof.
  induction 1 as [|x xs (bs & Hx & HP) _ (bss & HF & IH)].
  - exists []. split; [constructor|done].
  - exists (bs :: bss). split; [by constructor|].
    by rewrite for_extend_cons, Hx, IH.
Qed.

(** C2, as the code has it: a Comparison with operator [>] between two
    different known projects
    [a] and [b] translates into exactly one constraint for each criterion
    [c]; its coefficient vector has [+1] at index(a,c), [-1] at index(b,c)
    and [0] everywhere else, its bound is [-0.01], it is an inequality, and
    no constraint of another criterion has this coefficient vector. The
    criterion named by the evaluation plays no part. *)
Theorem C2_comparison_greater self ev a b ia ib :
  projects ev = [a; b] ->
  operator ev = Some GREATER ->
  a ≠ b ->
  T.project_index self !! a = Some ia ->
  T.project_index self !! b = Some ib ->
  exists cs,
    T.parse_comparison_evaluation self ev = Ok cs /\
    length cs = T.n_criteria self /\
    forall c, (c < T.n_criteria self)%nat ->
      exists con,
        cs !! c = Some con /\
        length (coefficients con) = (T.n_projects self * T.n_criteria self)%nat /\
        coefficients con !! variable_index self ia c = Some 1%Q /\
        coefficients con !! variable_index self ib c = Some (-1)%Q /\
        (forall j, (j < length (coefficients con))%nat ->
           j ≠ variable_index self ia c -> j ≠ variable_index self ib c ->
           coefficients con !! j = Some 0%Q) /\
        bound con = (-1 # 100)%Q /\
        is_equality con = false /\
        (forall c' con', cs !! c' = Some con' ->
           coefficients con' = coefficients con -> c' = c).
Proof.
  intros Hp Hop Hne Ha Hb.
  assert (ia ≠ ib) as Hi by (intros ->; by eapply Hne, project_index_inj).
  pose proof (project_index_lt _ _ _ Ha) as Hia.
  pose proof (project_index_lt _ _ _ Hb) as Hib.
  eexists. split; [by apply parse_comparison_closed|].
  rewrite Hop. simpl.
  split; [by rewrite length_fmap, enumerate_length|].
  intros c Hc.
  destruct (lookup_lt_is_Some_2 (T.self_criteria self) c Hc) as [crit Hcrit].
  exists (comparison_constraint self ev a b ia ib ((-1 # 100)%Q, false) (c, crit)).
  split; [by rewrite list_lookup_fmap, enumerate_lookup, Hcrit|].
  destruct (comparison_coefficients self ev a b ia ib ((-1 # 100)%Q, false)
              (c, crit) Hi Hia Hib Hc) as (Hlen & H1 & H2 & H0).
  do 4 (split; [done|]). split; [done|]. split; [done|].
  intros c' con'. rewrite list_lookup_fmap, enumerate_lookup.
  destruct (T.self_criteria self !! c') as [crit'|] eqn:Hcrit'; [|done].
  simpl. intros [= <-] Heq.
  pose proof (lookup_lt_Some _ _ _ Hcrit') as Hc'.
  destruct (comparison_coefficients self ev a b ia ib ((-1 # 100)%Q, false)
              (c', crit') Hi Hia Hib Hc') as (Hlen' & H1' & H2' & H0').
  rewrite Heq in H1', H2', H0'. simpl fst in *.
  destruct (decide (variable_index self ia c' = variable_index self ia c)) as [He|Hn].
  { by apply variable_index_inj in He as [_ ?]. }
  destruct (decide (variable_index self ia c' = variable_index self ib c)) as [He|Hn'].
  { apply variable_index_inj in He as [? _]; done. }
  rewrite H0 in H1'; [done| |done..].
  rewrite Hlen. by apply variable_index_lt.
Qed.

(** C4: for a Comparison between two known projects, operator [<] gives the
    same constraints as operator [>]: the same coefficient vectors, bounds,
    equality flags and identifiers, in the same order. *)
Theorem C4_less_same_as_greater self ev a b :
  projects ev = [a; b] ->
  a ∈ T.self_projects self ->
  b ∈ T.self_projects self ->
  exists cs_lt cs_gt,
    T.parse_comparison_evaluation self (with_operator ev (Some LESS)) = Ok cs_lt /\
    T.parse_comparison_evaluation self (with_operator ev (Some GREATER)) = Ok cs_gt /\
    content <$> cs_lt = content <$> cs_gt.
Proof.
  intros Hp [ia Ha]%project_index_known [ib Hb]%project_index_known.
  do 2 eexists. split; [|split].
  - by apply (parse_comparison_closed self _ a b ia ib).
  - by apply (parse_comparison_closed self _ a b ia ib).
  - simpl. rewrite <- !list_fmap_compose. by apply list_fmap_ext.
Qed.

(** ** Rankings *)

(** C5: a Ranking of [k >= 2] known projects translates into
    [(k-1) * n_criteria] constraints, the concatenation of the translations
    of the Comparisons with operator [>] of its consecutive pairs; a
    Ranking of fewer than 2 projects raises. *)
Theorem C5_ranking self ev :
  ((length (projects ev) < 2)%nat ->
   T.parse_ranking_evaluation self ev =
   Raise (ValueError "Ranking evaluation must involve at least 2 projects")) /\
  ((2 <= length (projects ev))%nat ->
   Forall (fun p => p ∈ T.self_projects self) (projects ev) ->
   exists css,
     Forall2 (fun i cs =>
                exists higher lower,
                  projects ev !! i = Some higher /\
                  projects ev !! (i + 1)%nat = Some lower /\
                  T.parse_comparison_evaluation self (ranking_pair ev higher lower) = Ok cs /\
                  length cs = T.n_criteria self)
             (seq 0 (length (projects ev) - 1)) css /\
     T.parse_ranking_evaluation self ev = Ok (concat css) /\
     length (concat css) = ((length (projects ev) - 1) * T.n_criteria self)%nat).
Proof.
  unfold T.parse_ranking_evaluation. split.
  - intros Hk. by rewrite decide_True.
  - intros Hk Hknown. rewrite decide_False by lia.
    destruct (for_extend_Forall2 (T.ranking_body self ev)
      (fun i cs => exists higher lower,
         projects ev !! i = Some higher /\
         projects ev !! (i + 1)%nat = Some lower /\
         T.parse_comparison_evaluation self (ranking_pair ev higher lower) = Ok cs /\
         length cs = T.n_criteria self)
      (seq 0 (length (projects ev) - 1))) as (css & HF & Hcss).
    + apply Forall_forall. intros i Hi%elem_of_seq.
      destruct (lookup_lt_is_Some_2 (projects ev) i) as [hi Hhi]; [lia|].
      destruct (lookup_lt_is_Some_2 (projects ev) (i + 1)) as [lo Hlo]; [lia|].
      rewrite Forall_forall in Hknown.
      destruct (proj1 (project_index_known self hi)) as [ia Ha].
      { by eapply Hknown, list_elem_of_lookup_2. }
      destruct (proj1 (project_index_known self lo)) as [ib Hb].
      { by eapply Hknown, list_elem_of_lookup_2. }
      pose proof (parse_comparison_closed self (ranking_pair ev hi lo) hi lo ia ib
                    eq_refl Ha Hb) as Hparse.
      simpl in Hparse.
      eexists. split.
      * unfold T.ranking_body, list_getitem. rewrite Hhi, Hlo. simpl. exact Hparse.
      * exists hi, lo. do 3 (split; [done|]).
        by rewrite length_fmap, enumerate_length.
    + exists css. split; [|split; [done|]].
      * eapply Forall2_impl; [exact HF|]. by intros i cs [_ ?].
      * rewrite (length_concat_uniform css (T.n_criteria self)).
        -- apply Forall2_length in HF. rewrite length_seq in HF. by rewrite <- HF.
        -- eapply Forall2_Forall_r; [exact HF|].
           apply Forall_forall. intros i _ cs (_ & ? & ? & _ & _ & _ & ?). done.
Qed.

(** ** Operators without a branch *)

Lemma threshold_body_unhandled self ev proj idx threshold c :
  operator ev ≠ Some GREATER_EQUAL ->
  operator ev ≠ Some LESS_EQUAL ->
  T.threshold_body self ev proj idx threshold c = Ok [].
Proof.
  intros Hge Hle. destruct c as [ci crit]. unfold T.threshold_body.
  by destruct (operator ev) as [[]|].
Qed.

(** C10: a Comparison of two known projects whose operator is none of [>],
    [<], [=], and a Threshold of one known project and one value whose
    operator is neither [>=] nor [<=], translate to the empty list of
    constraints; the batch translation appends nothing for them and logs
    neither an error nor a warning. *)
Theorem C10_unhandled_operator self ev :
  (forall a b,
     evaluation_type ev = COMPARISON ->
     projects ev = [a; b] ->
     a ∈ T.self_projects self -> b ∈ T.self_projects self ->
     operator ev ≠ Some GREATER -> operator ev ≠ Some LESS ->
     operator ev ≠ Some EQUAL ->
     T.parse_comparison_evaluation self ev = Ok [] /\
     forall acc, T.translate_step self acc ev = acc) /\
  (forall a v,
     evaluation_type ev = THRESHOLD ->
     projects ev = [a] ->
     values ev = Some [v] ->
     a ∈ T.self_projects self ->
     operator ev ≠ Some GREATER_EQUAL -> operator ev ≠ Some LESS_EQUAL ->
     T.parse_threshold_evaluation self ev = Ok [] /\
     forall acc, T.translate_step self acc ev = acc).
Proof.
  split.
  - intros a b Hty Hp [ia Ha]%project_index_known [ib Hb]%project_index_known
      Hgt Hlt Heq.
    assert (T.parse_comparison_evaluation self ev = Ok []) as Hparse.
    { rewrite (parse_comparison_closed self ev a b ia ib Hp Ha Hb).
      by destruct (operator ev) as [[]|]. }
    split; [done|]. intros [all_constraints log].
    unfold T.translate_step, T.dispatch. rewrite Hty, Hparse.
    by rewrite app_nil_r.
  - intros a v Hty Hp Hv [ia Ha]%project_index_known Hge Hle.
    assert (T.parse_threshold_evaluation self ev = Ok []) as Hparse.
    { unfold T.parse_threshold_evaluation. rewrite Hp, Hv.
      rewrite (project_index_getitem_Ok _ _ _ Ha). simpl.
      rewrite (for_extend_total _ (fun _ => [])).
      - f_equal. apply (concat_nils (B:=LinearConstraint)).
      - apply Forall_forall. intros c _. by apply threshold_body_unhandled. }
    split; [done|]. intros [all_constraints log].
    unfold T.translate_step, T.dispatch. rewrite Hty, Hparse.
    by rewrite app_nil_r.
Qed.

(** ** The batch translation *)

Lemma translate_step_closed self acc ev :
  T.translate_step self acc ev =
  (acc.1 ++ produced self ev, acc.2 ++ option_list (failure self ev)).
Proof.
  destruct acc as [all_constraints log].
  unfold T.translate_step, produced, failure.
  destruct (T.dispatch self ev) as [[cs|e]|]; simpl; by rewrite ?app_nil_r.
Qed.

Lemma translate_loop self evs acc :
  foldl (T.translate_step self) acc evs =
  (acc.1 ++ concat (produced self <$> evs), acc.2 ++ omap (failure self) evs).
Proof.
  revert acc. induction evs as [|ev evs IH]; intros acc.
  - simpl. rewrite !app_nil_r. by destruct acc.
  - simpl foldl. rewrite IH, translate_step_closed, fmap_cons. simpl.
    rewrite <- !app_assoc. by destruct (failure self ev).
Qed.

(** C3, as the code has it: the batch translation goes through every
    evaluation. The list it returns is the concatenation, in the order of
    the input, of the constraints of the evaluations that translate, and
    nothing else. For each evaluation that does not translate (an
    exception of its translation, or a kind without translation) one
    record goes to the logger, with the evaluator and the exception, or
    the kind; an evaluation that fails takes nothing away from those
    before and after it. *)
Theorem C3_batch_translation self :
  let evs := T.self_evaluations self in
  exists cs log self',
    T.translate_evaluations self = (cs, log, self') /\
    cs = concat (produced self <$> evs) /\
    log = omap (failure self) evs ++ [LogInfoGenerated (length cs) (length evs)] /\
    T.self_constraints self' = cs /\
    T.self_evaluations self' = evs /\
    forall before bad after r,
      evs = before ++ bad :: after ->
      failure self bad = Some r ->
      cs = concat (produced self <$> before) ++ concat (produced self <$> after) /\
      omap (failure self) evs =
        omap (failure self) before ++ r :: omap (failure self) after.
Proof.
  unfold T.translate_evaluations. rewrite translate_loop. simpl.
  do 3 eexists. split; [reflexivity|].
  do 4 (split; [done|]).
  intros before bad after r -> Hr.
  rewrite fmap_app, fmap_cons, concat_app, omap_app. simpl.
  rewrite Hr.
  assert (produced self bad = []) as ->; [|done].
  unfold failure in Hr. unfold produced.
  by destruct (T.dispatch self bad) as [[]|].
Qed.

(** ** The exact linear algebra is an implementation of the libraries *)

Lemma exact_det_square A d :
  Exact.det A = Ok d -> length (rows A) = ncols A.
Proof.
  unfold Exact.det, Exact.is_square.
  destruct (Nat.eqb_spec (length (rows A)) (ncols A)); simpl; [done|]. done.
Qed.

Lemma exact_det_raises A e :
  Exact.det A = Raise e -> e = LinAlgError \/ exists msg, e = ValueError msg.
Proof.
  unfold Exact.det. destruct (Exact.is_square A); [done|]. intros [= <-]. by left.
Qed.

Lemma exact_solve_length A b x :
  Exact.solve A b = Ok x -> length x = length (rows A).
Proof.
  unfold Exact.solve.
  destruct (negb (Exact.is_square A)); [done|].
  destruct (negb (length b =? length (rows A))%nat); [done|].
  destruct (Qeq_bool _ _); [done|].
  intros [= <-]. by rewrite length_fmap, length_seq.
Qed.

Lemma exact_solve_raises A b e :
  Exact.solve A b = Raise e -> e = LinAlgError \/ exists msg, e = ValueError msg.
Proof.
  unfold Exact.solve.
  destruct (negb (Exact.is_square A)); [intros [= <-]; by left|].
  destruct (negb (length b =? length (rows A))%nat); [intros [= <-]; right; eauto|].
  destruct (Qeq_bool _ _); [intros [= <-]; by left|done].
Qed.

Lemma exact_libs_laws available pypoman :
  @LibsLaws (Exact.libs available pypoman).
Proof.
  split; simpl.
  - apply exact_det_square.
  - apply exact_det_raises.
  - apply exact_solve_length.
  - apply exact_solve_raises.
Qed.

Import Geometry.

(** ** The visualizer that [__init__] builds *)

Lemma np_vstack_rows rs A : np_vstack rs = Ok A -> rows A = rs.
Proof.
  unfold np_vstack. destruct rs as [|r rs]; [done|].
  destruct (forallb _ _); [|done]. by intros [= <-].
Qed.

Lemma stack_part_inv n (cs : list LinearConstraint) A b :
  match cs with
  | [] => Ok (np_empty2 n, [])
  | _ => A ← np_vstack (coefficients <$> cs); mret (A, bound <$> cs)
  end = Ok (A, b) ->
  rows A = coefficients <$> cs /\ b = bound <$> cs.
Proof.
  destruct cs as [|c cs]; [by intros [= <- <-]|].
  destruct (np_vstack _) as [A'|e] eqn:HA; simpl; [|done].
  intros [= <- <-]. by apply np_vstack_rows in HA.
Qed.

(** What [get_constraint_matrices] returns: the coefficient vectors and the
    bounds of the inequality constraints, and those of the equality
    constraints, in the order of the list of constraints. *)
Lemma get_constraint_matrices_Ok self A_ineq b_ineq A_eq b_eq self' :
  T.get_constraint_matrices self = (Ok (A_ineq, b_ineq, A_eq, b_eq), self') ->
  let cs := T.self_constraints self' in
  rows A_ineq = coefficients <$> filter (fun c => is_equality c = false) cs /\
  b_ineq = bound <$> filter (fun c => is_equality c = false) cs /\
  rows A_eq = coefficients <$> filter (fun c => is_equality c = true) cs /\
  b_eq = bound <$> filter (fun c => is_equality c = true) cs.
Proof.
  unfold T.get_constraint_matrices.
  set (self1 := match T.self_constraints self with
                | [] => (T.translate_evaluations self).2
                | _ => self
                end).
  destruct (match filter (fun c => is_equality c = false) (T.self_constraints self1) with
            | [] => _ | _ => _ end) as [[A1 b1]|e] eqn:H1; simpl; [|done].
  destruct (match filter (fun c => is_equality c = true) (T.self_constraints self1) with
            | [] => _ | _ => _ end) as [[A2 b2]|e] eqn:H2; simpl; [|done].
  intros [= <- <- <- <- <-]. simpl.
  apply stack_part_inv in H1 as [? ?]. apply stack_part_inv in H2 as [? ?].
  done.
Qed.

Lemma init_inv tr vis :
  V.init tr = Ok vis ->
  V.self__vertices vis = None /\
  exists A_eq,
    V.self_A_eq vis = Some A_eq /\
    rows A_eq =
      coefficients <$> filter (fun c => is_equality c = true)
                         (T.self_constraints (V.self_translator vis)).
Proof.
  unfold V.init.
  destruct (T.get_constraint_matrices _)
    as [[[[[A_ineq b_ineq] A_eq] b_eq]|e] tr'] eqn:Hm; simpl; [|done].
  intros [= <-]. simpl. split; [done|].
  exists A_eq. split; [done|].
  by apply get_constraint_matrices_Ok in Hm as (_ & _ & ? & _).
Qed.

Section Visualizer.
Context `{Libs}.

Lemma try_pypoman_with_A_eq self A_eq :
  V.self_A_eq self = Some A_eq -> V.try_pypoman self = None.
Proof.
  intros HA. unfold V.try_pypoman. rewrite HA.
  rewrite bool_decide_eq_false_2 by done. by rewrite andb_false_r.
Qed.

Lemma compute_vertices_fallback self A_eq bounds :
  V.self__vertices self = None ->
  V.self_A_eq self = Some A_eq ->
  V.compute_vertices self bounds =
  match V.enumerate_intersections self bounds with
  | Ok vertices => (Ok vertices, V.set_vertices self vertices)
  | Raise e => (Raise e, self)
  end.
Proof.
  intros Hc HA. unfold V.compute_vertices.
  by rewrite Hc, (try_pypoman_with_A_eq self A_eq HA).
Qed.

(** C8: in a visualizer built from a translator, [A_eq] is an array (the
    stacked coefficient vectors of the equality constraints, without rows
    when there is none) and never [None]; so the guard of the pypoman
    path is false, whether or not pypoman is available, and
    [compute_vertices] runs the enumeration of constraint intersections. *)
Theorem C8_library_path_unreachable tr vis bounds :
  V.init tr = Ok vis ->
  (exists A_eq,
     V.self_A_eq vis = Some A_eq /\
     rows A_eq =
       coefficients <$> filter (fun c => is_equality c = true)
                          (T.self_constraints (V.self_translator vis))) /\
  PYPOMAN_AVAILABLE && bool_decide (V.self_A_eq vis = None) = false /\
  V.try_pypoman vis = None /\
  V.compute_vertices vis bounds =
  match V.enumerate_intersections vis bounds with
  | Ok vertices => (Ok vertices, V.set_vertices vis vertices)
  | Raise e => (Raise e, vis)
  end.
Proof.
  intros (Hc & A_eq & HA & Hrows)%init_inv.
  split; [by eauto|]. split; [|split].
  - rewrite HA, bool_decide_eq_false_2 by done. apply andb_false_r.
  - by eapply try_pypoman_with_A_eq.
  - by eapply compute_vertices_fallback.
Qed.

(** ** The cache *)

Lemma compute_vertices_cached self vs bounds :
  V.self__vertices self = Some vs ->
  V.compute_vertices self bounds = (Ok vs, self).
Proof. intros Hc. unfold V.compute_vertices. by rewrite Hc. Qed.

Lemma compute_vertices_sets_cache self bounds vs self' :
  V.compute_vertices self bounds = (Ok vs, self') ->
  V.self__vertices self' = Some vs.
Proof.
  unfold V.compute_vertices.
  destruct (V.self__vertices self) as [cached|] eqn:Hc.
  { by intros [= <- <-]. }
  destruct (V.try_pypoman self) as [vertices|].
  { by intros [= <- <-]. }
  destruct (V.enumerate_intersections self bounds) as [vertices|e]; [|done].
  by intros [= <- <-].
Qed.

Lemma calls_cached self vs args :
  V.self__vertices self = Some vs ->
  calls self args = (replicate (length args) (Ok vs), self).
Proof.
  intros Hc. induction args as [|bounds args IH]; [done|].
  simpl. by rewrite (compute_vertices_cached self vs bounds Hc), IH.
Qed.

(** C9: once a call of [compute_vertices] has returned, every later call
    returns the same vertices and leaves the visualizer as it is, whatever
    bounds it is given. *)
Theorem C9_cached_regardless_of_bounds self bounds vs self' :
  V.compute_vertices self bounds = (Ok vs, self') ->
  (forall bounds', V.compute_vertices self' bounds' = (Ok vs, self')) /\
  (forall args, calls self' args = (replicate (length args) (Ok vs), self')).
Proof.
  intros Hc%compute_vertices_sets_cache. split.
  - intros bounds'. by apply compute_vertices_cached.
  - intros args. by apply calls_cached.
Qed.

End Visualizer.

(** ** What the enumeration accepts *)

Lemma forallb_zip_Forall2 {A B} (f : A * B -> bool) (xs : list A) (ys : list B) :
  length xs = length ys ->
  forallb f (zip xs ys) = true ->
  Forall2 (fun x y => f (x, y) = true) xs ys.
Proof.
  revert ys. induction xs as [|x xs IH]; intros [|y ys]; simpl; try done.
  intros [= Hlen] [Hx Hxs]%andb_true_iff. constructor; [done|by apply IH].
Qed.

Lemma forallb_zip_false {A B} (f : A * B -> bool) (xs : list A) (ys : list B) :
  forallb f (zip xs ys) = false ->
  ~ Forall2 (fun x y => f (x, y) = true) xs ys.
Proof.
  intros Hf HF. induction HF as [|x y xs ys Hxy _ IH]; simpl in Hf; [done|].
  rewrite Hxy in Hf. by apply IH.
Qed.

Lemma np_all_le_true x b tol :
  np_all_le x b tol = Ok true ->
  Forall2 (fun xi bi => (xi <= bi + tol)%Q) x b.
Proof.
  unfold np_all_le. case_decide as Hlen; [|done]. intros [= Hall].
  apply forallb_zip_Forall2 in Hall; [|done].
  eapply Forall2_impl; [exact Hall|]. intros xi bi. simpl. apply Qle_bool_iff.
Qed.

Lemma np_matvec_Ok A v lhs :
  np_matvec A v = Ok lhs ->
  ncols A = length v /\ lhs = (fun r => dot r v) <$> rows A.
Proof. unfold np_matvec. case_decide; [|done]. by intros [= <-]. Qed.

Lemma elem_of_concat {A} (x : A) (xss : list (list A)) :
  x ∈ concat xss <-> exists xs, xs ∈ xss /\ x ∈ xs.
Proof.
  induction xss as [|ys xss IH]; simpl.
  - split; [by intros ?%elem_of_nil|by intros (xs & ?%elem_of_nil & _)].
  - rewrite elem_of_app, IH. split.
    + intros [Hx|(xs & Hxs & Hx)].
      * exists ys. split; [by left|done].
      * exists xs. split; [by right|done].
    + intros (xs & [->|Hxs]%elem_of_cons & Hx); [by left|right; eauto].
Qed.

Lemma list_getitem_Ok {A} (xs : list A) i x :
  list_getitem xs i = Ok x -> xs !! i = Some x.
Proof. unfold list_getitem. destruct (xs !! i); [|done]. by intros [= <-]. Qed.

Lemma all_in_bounds_true bounds v indices :
  V.all_in_bounds bounds v indices = Ok true ->
  forall i, i ∈ indices ->
    exists b x, bounds !! i = Some b /\ v !! i = Some x /\ (b.1 <= x <= b.2)%Q.
Proof.
  induction indices as [|i indices IH]; simpl.
  - intros _ i Hi. by apply elem_of_nil in Hi.
  - destruct (list_getitem bounds i) as [b|e] eqn:Hb; simpl; [|done].
    destruct (list_getitem v i) as [x|e] eqn:Hx; simpl; [|done].
    apply list_getitem_Ok in Hb, Hx.
    destruct (Qle_bool b.1 x) eqn:Hlo; simpl; [|done].
    destruct (Qle_bool x b.2) eqn:Hhi; simpl; [|done].
    intros Hrest j [->|Hj]%elem_of_cons; [|by apply IH].
    exists b, x. do 2 (split; [done|]).
    split; by apply Qle_bool_iff.
Qed.

Lemma except_continue_Ok {A} (r : result (list A)) xs :
  V.except_continue r = Ok xs -> r = Ok xs \/ xs = [].
Proof.
  destruct r as [ys|[]]; simpl; intros [= <-]; by eauto.
Qed.

Section Enumeration.
Context `{Libs}.

(** A vertex that a combination contributes passed both tests. *)
Lemma try_combination_accepts self bounds idx vs v :
  V.try_combination self bounds idx = Ok vs ->
  v ∈ vs ->
  satisfies_inequalities self v /\ inside_bounds self bounds v /\
  length v = ncols (V.self_A_ineq self).
Proof.
  unfold V.try_combination.
  destruct (np_take_rows _ _) as [A_subset|e]; simpl; [|done].
  destruct (np_take _ _) as [b_subset|e]; simpl; [|done].
  destruct (np_linalg_det A_subset) as [d|e]; simpl; [|done].
  destruct (Qeq_bool d 0).
  { intros [= <-] Hv. by apply elem_of_nil in Hv. }
  destruct (np_linalg_solve A_subset b_subset) as [x|e]; simpl; [|done].
  destruct (np_matvec _ x) as [lhs|e] eqn:Hm; simpl; [|done].
  destruct (np_all_le lhs _ _) as [[]|e] eqn:Hle; simpl; [| |done].
  2:{ intros [= <-] Hv. by apply elem_of_nil in Hv. }
  destruct (V.all_in_bounds _ _ _) as [[]|e] eqn:Hb; simpl; [| |done].
  2:{ intros [= <-] Hv. by apply elem_of_nil in Hv. }
  intros [= <-] ->%list_elem_of_singleton.
  apply np_matvec_Ok in Hm as [Hcols ->].
  apply np_all_le_true in Hle.
  split; [|split; [|done]].
  - unfold satisfies_inequalities. by apply Forall2_fmap_l in Hle.
  - intros i Hi. eapply all_in_bounds_true; [exact Hb|].
    apply elem_of_seq. lia.
Qed.

Lemma combination_body_accepts self bounds idx vs v :
  V.combination_body self bounds idx = Ok vs ->
  v ∈ vs ->
  satisfies_inequalities self v /\ inside_bounds self bounds v /\
  length v = ncols (V.self_A_ineq self).
Proof.
  unfold V.combination_body.
  intros [Hr| ->]%except_continue_Ok Hv.
  - by eapply try_combination_accepts.
  - by apply elem_of_nil in Hv.
Qed.

Lemma accepted_candidates_accept self bounds candidates v :
  accepted_candidates self bounds = Ok candidates ->
  v ∈ candidates ->
  satisfies_inequalities self v /\
  inside_bounds self (default (V.default_bounds self) bounds) v /\
  length v = ncols (V.self_A_ineq self).
Proof.
  unfold accepted_candidates.
  intros (bss & HF & ->)%for_extend_Ok_inv (bs & Hbs & Hv)%elem_of_concat.
  apply list_elem_of_lookup in Hbs as [i Hi].
  destruct (Forall2_lookup_r _ _ _ _ _ HF Hi) as (idx & _ & Hbody).
  by eapply combination_body_accepts.
Qed.

(** ** The removal of duplicates *)

Lemma is_duplicate_false v unique_vertices :
  V.is_duplicate v unique_vertices = Ok false ->
  forall u, u ∈ unique_vertices -> np_allclose v u V.atol = Ok false.
Proof.
  induction unique_vertices as [|existing rest IH]; simpl.
  - intros _ u Hu. by apply elem_of_nil in Hu.
  - destruct (np_allclose v existing V.atol) as [[]|e] eqn:Hc; simpl; [done| |done].
    intros Hrest u [->|Hu]%elem_of_cons; [done|by apply IH].
Qed.

Lemma is_duplicate_true v unique_vertices :
  V.is_duplicate v unique_vertices = Ok true ->
  exists u, u ∈ unique_vertices /\ np_allclose v u V.atol = Ok true.
Proof.
  induction unique_vertices as [|existing rest IH]; simpl; [done|].
  destruct (np_allclose v existing V.atol) as [[]|e] eqn:Hc; simpl; [| |done].
  - intros _. exists existing. split; [by left|done].
  - intros (u & Hu & Hclose)%IH. exists u. split; [by right|done].
Qed.

(** The vertices kept are, in order, those given at the start and then
    some of the candidates; each later one is not close to any earlier
    one; every candidate is kept or close to one that is kept. *)
Lemma remove_duplicates_spec vertices unique_vertices kept :
  V.remove_duplicates vertices unique_vertices = Ok kept ->
  (exists added, kept = unique_vertices ++ added /\ added ⊆ vertices /\
     forall i u, added !! i = Some u ->
       forall w, w ∈ unique_vertices ++ take i added ->
         np_allclose u w V.atol = Ok false) /\
  (forall v, v ∈ vertices ->
     v ∈ kept \/ exists u, u ∈ kept /\ np_allclose v u V.atol = Ok true).
Proof.
  revert unique_vertices.
  induction vertices as [|v vertices IH]; intros unique_vertices; simpl.
  - intros [= <-]. split.
    + exists []. rewrite app_nil_r. split; [done|]. split; [done|].
      intros i u Hi. by rewrite lookup_nil in Hi.
    + intros v Hv. by apply elem_of_nil in Hv.
  - destruct (V.is_duplicate v unique_vertices) as [[]|e] eqn:Hd; simpl; [| |done].
    + intros ((added & -> & Hsub & Hsep) & Hrep)%IH. split.
      * exists added. split; [done|]. split; [|done].
        intros u Hu. right. by apply Hsub.
      * intros w [->|Hw]%elem_of_cons; [|by apply Hrep].
        right. apply is_duplicate_true in Hd as (u & Hu & Hclose).
        exists u. split; [|done]. apply elem_of_app. by left.
    + intros ((added & -> & Hsub & Hsep) & Hrep)%IH. split.
      * exists (v :: added). split; [by rewrite <- app_assoc|]. split.
        -- intros u [->|Hu]%elem_of_cons; [by left|]. right. by apply Hsub.
        -- intros [|i] u Hi w Hw; simpl in Hi, Hw.
           ++ injection Hi as <-. rewrite app_nil_r in Hw.
              by eapply is_duplicate_false.
           ++ apply (Hsep i u Hi). rewrite <- app_assoc. exact Hw.
      * intros w [->|Hw]%elem_of_cons; [|by apply Hrep].
        left. rewrite <- app_assoc. apply elem_of_app. right. by left.
Qed.

End Enumeration.

(** ** Closeness *)

Lemma isclose_of_lt a b :
  (Qabs (a - b) < V.atol)%Q -> isclose V.atol (a, b) = true.
Proof.
  intros Hlt. unfold isclose. simpl. apply Qle_bool_iff.
  apply Qlt_le_weak in Hlt.
  eapply Qle_trans; [exact Hlt|].
  rewrite <- (Qplus_0_r V.atol) at 1.
  apply Qplus_le_r. apply Qmult_le_0_compat; [done|apply Qabs_nonneg].
Qed.

Lemma within_1e8_sym x y : within_1e8 x y -> within_1e8 y x.
Proof.
  unfold within_1e8. intros HF. apply Forall2_flip.
  eapply Forall2_impl; [exact HF|].
  intros a b Hab. unfold flip. by rewrite Qabs_Qminus.
Qed.

(** Two vertices that [np.allclose] tells apart are not within [1e-8]. *)
Lemma np_allclose_false x y :
  np_allclose x y V.atol = Ok false -> ~ within_1e8 x y /\ ~ within_1e8 y x.
Proof.
  unfold np_allclose. case_decide as Hlen; [|done]. intros [= Hall].
  apply forallb_zip_false in Hall.
  assert (~ within_1e8 x y) as Hxy.
  { intros HF. apply Hall. eapply Forall2_impl; [exact HF|].
    intros a b. apply isclose_of_lt. }
  split; [done|]. intros HF. by apply Hxy, within_1e8_sym.
Qed.

Lemma np_allclose_true x y :
  np_allclose x y V.atol = Ok true -> allclose x y.
Proof.
  unfold np_allclose. case_decide as Hlen; [|done]. intros [= Hall].
  apply forallb_zip_Forall2 in Hall; [|done].
  eapply Forall2_impl; [exact Hall|].
  intros a b. unfold isclose. simpl. apply Qle_bool_iff.
Qed.

(** Two vertices that [np.allclose] tells apart are not close in its
    sense. *)
Lemma np_allclose_not x y :
  np_allclose x y V.atol = Ok false -> ~ allclose x y.
Proof.
  unfold np_allclose. case_decide as Hlen; [|done]. intros [= Hall].
  apply forallb_zip_false in Hall. intros HF. apply Hall.
  eapply Forall2_impl; [exact HF|].
  intros a b Hab. unfold isclose. simpl. by apply Qle_bool_iff.
Qed.

Section Vertices.
Context `{Libs}.

(** The vertices kept are taken from the candidates in their order. *)
Lemma remove_duplicates_sublist vertices unique_vertices kept :
  V.remove_duplicates vertices unique_vertices = Ok kept ->
  exists added, kept = unique_vertices ++ added /\ sublist added vertices.
Proof.
  revert unique_vertices.
  induction vertices as [|v vertices IH]; intros unique_vertices; simpl.
  - intros [= <-]. exists []. by rewrite app_nil_r.
  - destruct (V.is_duplicate v unique_vertices) as [[]|e]; simpl; [| |done].
    + intros (added & -> & Hsub)%IH. exists added. split; [done|].
      by constructor.
    + intros (added & -> & Hsub)%IH. exists (v :: added).
      split; [by rewrite <- app_assoc|]. by constructor.
Qed.

(** A vertex is marked when it stands at a marked place. *)
Lemma marked_elem candidates keep u :
  u ∈ Kept.marked candidates keep <->
  exists i, candidates !! i = Some u /\ keep !! i = Some true.
Proof.
  revert keep. induction candidates as [|v candidates IH]; intros [|k keep]; simpl.
  - split; [by intros ?%elem_of_nil|by intros (i & ? & _)].
  - split; [by intros ?%elem_of_nil|by intros (i & ? & _)].
  - split; [by intros ?%elem_of_nil|by intros (i & _ & ?)].
  - rewrite elem_of_app, IH. split.
    + intros [Hu|(i & Hc & Hk)].
      * destruct k; [|by apply elem_of_nil in Hu].
        apply list_elem_of_singleton in Hu as ->. by exists 0%nat.
      * by exists (S i).
    + intros ([|i] & Hc & Hk); simpl in Hc, Hk.
      * injection Hc as ->. injection Hk as ->. left. by left.
      * right. by exists i.
Qed.

(** The removal of duplicates keeps a candidate exactly when it is close
    to none of the vertices kept before it. *)
Lemma remove_duplicates_marked vertices unique_vertices kept :
  V.remove_duplicates vertices unique_vertices = Ok kept ->
  exists keep,
    length keep = length vertices /\
    kept = unique_vertices ++ Kept.marked vertices keep /\
    forall k v, vertices !! k = Some v ->
      (keep !! k = Some true <->
       forall u, u ∈ unique_vertices ++ Kept.marked (take k vertices) (take k keep) ->
         ~ allclose v u).
Proof.
  revert unique_vertices.
  induction vertices as [|v vertices IH]; intros unique_vertices; simpl.
  - intros [= <-]. exists []. split; [done|]. split; [by rewrite app_nil_r|].
    intros k w Hw. by rewrite lookup_nil in Hw.
  - destruct (V.is_duplicate v unique_vertices) as [[]|e] eqn:Hd; simpl; [| |done].
    + intros (keep & Hlen & -> & Hk)%IH. exists (false :: keep).
      split; [simpl; by rewrite Hlen|]. split; [done|].
      intros [|k] w Hw; simpl in Hw.
      * injection Hw as <-. simpl. rewrite app_nil_r. split; [done|].
        intros Hall. apply is_duplicate_true in Hd as (u & Hu & Hclose).
        by destruct (Hall u Hu); apply np_allclose_true.
      * simpl. exact (Hk k w Hw).
    + intros (keep & Hlen & -> & Hk)%IH. exists (true :: keep).
      split; [simpl; by rewrite Hlen|]. split; [by rewrite <- app_assoc|].
      intros [|k] w Hw; simpl in Hw.
      * injection Hw as <-. simpl. rewrite app_nil_r. split; [|done].
        intros _ u Hu. by apply np_allclose_not, (is_duplicate_false _ _ Hd).
      * simpl. rewrite (Hk k w Hw), <- app_assoc. done.
Qed.

Lemma remove_duplicates_first_of_each candidates vs :
  V.remove_duplicates candidates [] = Ok vs ->
  exists keep, Kept.first_of_each candidates keep /\ vs = Kept.marked candidates keep.
Proof.
  intros (keep & Hlen & -> & Hk)%remove_duplicates_marked.
  exists keep. split; [|done]. split; [done|].
  intros k v Hv. rewrite (Hk k v Hv). simpl. split.
  - intros Hall i u Hik Hi Hu. apply Hall, marked_elem. exists i.
    by rewrite !lookup_take_lt.
  - intros Hall u (i & Hu & Hi)%marked_elem.
    assert (i < k)%nat as Hik.
    { apply lookup_lt_Some in Hu. rewrite length_take in Hu. lia. }
    rewrite lookup_take_lt in Hu by done. rewrite lookup_take_lt in Hi by done.
    by apply (Hall i u).
Qed.

(** Calls on a visualizer that has no cached vertices and holds an array
    of equalities: each result is that of the enumeration for the bounds
    of one of the calls. *)
Lemma calls_results self A_eq args rs self' :
  V.self__vertices self = None -> V.self_A_eq self = Some A_eq ->
  calls self args = (rs, self') ->
  forall vs, Ok vs ∈ rs ->
    exists bounds, bounds ∈ args /\ V.enumerate_intersections self bounds = Ok vs.
Proof.
  intros Hc HA. revert rs self'.
  induction args as [|b args IH]; intros rs self'; simpl.
  - intros [= <- <-] vs Hin. by apply elem_of_nil in Hin.
  - rewrite (compute_vertices_fallback self A_eq b Hc HA).
    destruct (V.enumerate_intersections self b) as [vs0|e] eqn:He.
    + rewrite (calls_cached (V.set_vertices self vs0) vs0 args eq_refl).
      intros [= <- <-] vs Hin. exists b. split; [by left|].
      apply elem_of_cons in Hin as [Heq|Hin]; [by injection Heq as ->|].
      apply elem_of_replicate in Hin as [Heq _]. by injection Heq as ->.
    + destruct (calls self args) as [rs0 s0] eqn:Hcalls.
      intros [= <- <-] vs [Heq|Hin]%elem_of_cons; [done|].
      destruct (IH rs0 s0 eq_refl vs Hin) as (b' & Hb' & He').
      exists b'. split; [by right|done].
Qed.

(** Two visualizers whose enumerations agree give the same results. *)
Lemma calls_agree s1 s2 A1 A2 args :
  V.self__vertices s1 = None -> V.self_A_eq s1 = Some A1 ->
  V.self__vertices s2 = None -> V.self_A_eq s2 = Some A2 ->
  (forall b, V.enumerate_intersections s1 b = V.enumerate_intersections s2 b) ->
  (calls s1 args).1 = (calls s2 args).1.
Proof.
  intros Hc1 HA1 Hc2 HA2 Henum.
  induction args as [|b args IH]; [done|]. simpl.
  rewrite (compute_vertices_fallback s1 A1 b Hc1 HA1).
  rewrite (compute_vertices_fallback s2 A2 b Hc2 HA2).
  rewrite Henum.
  destruct (V.enumerate_intersections s2 b) as [vs0|e].
  - rewrite (calls_cached (V.set_vertices s1 vs0) vs0 args eq_refl).
    by rewrite (calls_cached (V.set_vertices s2 vs0) vs0 args eq_refl).
  - destruct (calls s1 args) as [rs1 s1'], (calls s2 args) as [rs2 s2'].
    simpl in *. by rewrite IH.
Qed.

Lemma enumerate_intersections_Ok self bounds vs :
  V.enumerate_intersections self bounds = Ok vs ->
  exists candidates,
    accepted_candidates self bounds = Ok candidates /\
    V.remove_duplicates candidates [] = Ok vs.
Proof.
  unfold V.enumerate_intersections, accepted_candidates.
  destruct (for_extend _ _ _) as [candidates|e]; simpl; [|done].
  intros Hvs. exists candidates. split; [done|].
  by destruct candidates.
Qed.

(** The first call on a visualizer built from a translator returns what
    the enumeration of intersections gives. *)
Lemma compute_vertices_init tr vis bounds :
  V.init tr = Ok vis ->
  (V.compute_vertices vis bounds).1 = V.enumerate_intersections vis bounds.
Proof.
  intros (Hc & A_eq & HA & _)%init_inv.
  rewrite (compute_vertices_fallback vis A_eq bounds Hc HA).
  by destruct (V.enumerate_intersections vis bounds).
Qed.

Lemma remove_duplicates_separated candidates vs :
  V.remove_duplicates candidates [] = Ok vs -> separated vs.
Proof.
  intros [(added & -> & _ & Hsep) _]%remove_duplicates_spec. simpl.
  assert (forall i j x y, (i < j)%nat ->
            added !! i = Some x -> added !! j = Some y ->
            ~ within_1e8 x y /\ ~ within_1e8 y x) as Hlt.
  { intros i j x y Hij Hx Hy.
    apply and_comm, np_allclose_false, (Hsep j y Hy). simpl.
    apply list_elem_of_lookup. exists i. by rewrite lookup_take_lt. }
  intros i j x y Hij Hx Hy.
  destruct (Nat.lt_trichotomy i j) as [Hl|[->|Hl]]; [|done|].
  - by apply (Hlt i j x y).
  - by apply (Hlt j i y x).
Qed.

(** C1, as the code has it: in any sequence of calls of
    [compute_vertices] on a visualizer built from a translator, every
    vertex that a call returns satisfies every inequality constraint
    within [1e-10]. The equality constraints are not looked at: with any
    other [A_eq] and [b_eq] in the visualizer, the calls return the
    same. *)
Theorem C1_vertices_satisfy_inequalities tr vis args rs vis' :
  V.init tr = Ok vis ->
  calls vis args = (rs, vis') ->
  (forall vs v, Ok vs ∈ rs -> v ∈ vs -> satisfies_inequalities vis v) /\
  (forall A_eq b_eq,
     (calls (Variants.with_equalities vis A_eq b_eq) args).1 = rs).
Proof.
  intros Hinit Hcalls.
  pose proof Hinit as (Hc & A_eq & HA & _)%init_inv.
  split.
  - intros vs v Hvs Hv.
    destruct (calls_results vis A_eq args rs vis' Hc HA Hcalls vs Hvs)
      as (bounds & _ & He).
    apply enumerate_intersections_Ok in He as (candidates & Hcand & Hdedup).
    apply remove_duplicates_spec in Hdedup as [(added & -> & Hsub & _) _].
    simpl in Hv. apply Hsub in Hv.
    by destruct (accepted_candidates_accept vis bounds candidates v Hcand Hv)
      as (? & _).
  - intros A' b'.
    replace rs with (calls vis args).1 by (by rewrite Hcalls).
    apply (calls_agree (Variants.with_equalities vis A' b') vis A' A_eq args);
      [exact Hc|reflexivity|exact Hc|exact HA|].
    intros b. reflexivity.
Qed.

Lemma candidates_represented tr vis bounds vs :
  V.init tr = Ok vis ->
  (V.compute_vertices vis bounds).1 = Ok vs ->
  exists candidates,
    accepted_candidates vis bounds = Ok candidates /\
    V.remove_duplicates candidates [] = Ok vs /\
    vs ⊆ candidates /\
    forall v, v ∈ candidates ->
      v ∈ vs \/ exists u, u ∈ vs /\ allclose v u.
Proof.
  intros Hinit He.
  rewrite (compute_vertices_init tr vis bounds Hinit) in He.
  apply enumerate_intersections_Ok in He as (candidates & Hcand & Hdedup).
  exists candidates. do 2 (split; [done|]).
  apply remove_duplicates_spec in Hdedup as [(added & -> & Hsub & _) Hrep].
  split; [done|].
  intros v Hv. destruct (Hrep v Hv) as [?|(u & Hu & Hclose)]; [by left|].
  right. exists u. split; [done|]. by apply np_allclose_true.
Qed.

(** C6, as the code has it: no two vertices that [compute_vertices]
    returns have every coordinate differing by less than [1e-8]. The test
    for a duplicate is [np.allclose], which allows
    [1e-8 + 1e-5 * |u|] at every coordinate: the vertices returned are
    accepted candidates, in the order of the enumeration; a candidate is
    kept exactly when it is close in that sense to none of the candidates
    kept before it, so that one close to a vertex already kept is dropped;
    none of the vertices returned is close to one returned before it; and
    every accepted candidate is returned or close in that sense to a
    returned vertex. *)
Theorem C6_vertices_deduplicated tr vis bounds vs :
  V.init tr = Ok vis ->
  (V.compute_vertices vis bounds).1 = Ok vs ->
  separated vs /\
  (forall i j x y, (i < j)%nat -> vs !! i = Some x -> vs !! j = Some y ->
     ~ allclose y x) /\
  exists candidates keep,
    accepted_candidates vis bounds = Ok candidates /\
    Kept.first_of_each candidates keep /\
    vs = Kept.marked candidates keep /\
    sublist vs candidates /\
    forall v, v ∈ candidates ->
      v ∈ vs \/ exists u, u ∈ vs /\ allclose v u.
Proof.
  intros Hinit He.
  destruct (candidates_represented tr vis bounds vs Hinit He)
    as (candidates & Hcand & Hdedup & _ & Hrep).
  destruct (remove_duplicates_first_of_each candidates vs Hdedup)
    as (keep & Hfirst & Hmarked).
  split; [by eapply remove_duplicates_separated|].
  split.
  - pose proof Hdedup as [(added & -> & _ & Hsep) _]%remove_duplicates_spec.
    simpl. intros i j x y Hij Hx Hy.
    apply np_allclose_not, (Hsep j y Hy). simpl.
    apply list_elem_of_lookup. exists i. by rewrite lookup_take_lt.
  - exists candidates, keep. do 3 (split; [done|]). split; [|done].
    by apply remove_duplicates_sublist in Hdedup as (added & -> & Hsub).
Qed.

End Vertices.

(** ** The combinations *)

Lemma combinations_length {A} (xs : list A) k :
  length (combinations xs k) = choose (length xs) k.
Proof.
  revert k. induction xs as [|x xs IH]; intros [|k]; simpl; try done.
  by rewrite length_app, length_fmap, !IH.
Qed.

Lemma choose_factorial n k :
  (k <= n)%nat -> (choose n k * (fact k * fact (n - k)) = fact n)%nat.
Proof.
  revert k. induction n as [|n IH]; intros [|k] Hk; simpl choose.
  - done.
  - lia.
  - simpl. lia.
  - destruct (decide (k = n)) as [->|Hne].
    + assert (choose n (S n) = 0%nat) as ->.
      { clear. assert (forall m j, (m < j)%nat -> choose m j = 0%nat) as Hz.
        { induction m as [|m IHm]; intros [|j] Hj; simpl; try lia.
          rewrite !IHm by lia. done. }
        apply Hz. lia. }
      pose proof (IH n (le_n _)) as Hn. rewrite Nat.sub_diag in *.
      change (fact 0) with 1%nat in *.
      change (fact (S n)) with (S n * fact n)%nat.
      nia.
    + pose proof (IH k ltac:(lia)) as H1.
      pose proof (IH (S k) ltac:(lia)) as H2.
      replace (S n - S k)%nat with (n - k)%nat by lia.
      replace (n - k)%nat with (S (n - S k))%nat in * by lia.
      change (fact (S n)) with (S n * fact n)%nat.
      change (fact (S k)) with (S k * fact k)%nat in *.
      change (fact (S (n - S k))) with (S (n - S k) * fact (n - S k))%nat in *.
      nia.
Qed.

Section Budget.
Context `{Libs}.

Lemma enumerate_within_all self bounds k :
  (length (V.constraint_combinations self) <= k)%nat ->
  Budgeted.enumerate_within self bounds k =
  match V.enumerate_intersections self bounds with
  | Ok vs => Ok (vs, false)
  | Raise e => Raise e
  end.
Proof.
  intros Hk. unfold Budgeted.enumerate_within, V.enumerate_intersections.
  rewrite take_ge by done.
  rewrite bool_decide_eq_false_2 by lia.
  destruct (for_extend _ _ _) as [candidates|e]; simpl; [|done].
  destruct candidates as [|c candidates]; [done|].
  by destruct (V.remove_duplicates _ _).
Qed.

(** C7, as the code has it: [compute_vertices] takes no budget and flags
    nothing. On its first call for a visualizer built from a translator it
    goes through all the [choose n_constraints n_dimensions] combinations
    of inequality rows; what it returns is what the budgeted enumeration
    returns when its budget is not hit, flag [false]; and the vertex of
    every combination that is accepted is among the vertices returned, or
    close to one of them. *)
Theorem C7_enumeration_is_exhaustive tr vis bounds :
  V.init tr = Ok vis ->
  let total := choose (length (V.self_b_ineq vis)) (V.self_n_dimensions vis) in
  length (V.constraint_combinations vis) = total /\
  Budgeted.enumerate_within vis bounds total =
    match (V.compute_vertices vis bounds).1 with
    | Ok vs => Ok (vs, false)
    | Raise e => Raise e
    end /\
  forall vs idx v,
    (V.compute_vertices vis bounds).1 = Ok vs ->
    idx ∈ V.constraint_combinations vis ->
    V.combination_body vis (default (V.default_bounds vis) bounds) idx = Ok [v] ->
    v ∈ vs \/ exists u, u ∈ vs /\ allclose v u.
Proof.
  intros Hinit total.
  assert (length (V.constraint_combinations vis) = total) as Hlen.
  { unfold V.constraint_combinations, total.
    by rewrite combinations_length, length_seq. }
  split; [done|]. split.
  - rewrite (compute_vertices_init tr vis bounds Hinit).
    apply enumerate_within_all. lia.
  - intros vs idx v Hvs Hidx Hbody.
    destruct (candidates_represented tr vis bounds vs Hinit Hvs)
      as (candidates & Hcand & _ & _ & Hrep).
    apply Hrep. unfold accepted_candidates in Hcand.
    apply for_extend_Ok_inv in Hcand as (bss & HF & ->).
    apply list_elem_of_lookup in Hidx as [i Hi].
    destruct (Forall2_lookup_l _ _ _ _ _ HF Hi) as (bs & Hbs & Hb).
    rewrite Hbody in Hb. injection Hb as <-.
    apply elem_of_concat. exists [v]. split; [|by left].
    by eapply list_elem_of_lookup_2.
Qed.

End Budget.

(** ** The translation, the construction and the first call always return *)

Lemma np_setitem_length a i v a' :
  np_setitem a i v = Ok a' -> length a' = length a.
Proof.
  unfold np_setitem. case_decide; [|done]. intros [= <-]. apply length_insert.
Qed.

Ltac setitem_step H :=
  match goal with
  | |- context [np_setitem ?a ?i ?v] =>
      destruct (np_setitem a i v) as [?|?] eqn:H; simpl; [|done];
      apply np_setitem_length in H
  end.

Lemma comparison_body_sized self ev a b ia ib c bs :
  T.comparison_body self ev a b ia ib c = Ok bs -> Forall (sized self) bs.
Proof.
  destruct c as [ci crit]. unfold T.comparison_body.
  destruct (operator ev) as [[]|]; simpl;
    try (intros [= <-]; constructor);
    setitem_step H1; setitem_step H2; intros [= <-];
    (constructor; [|constructor]); unfold sized; simpl;
    by rewrite H2, H1, np_zeros_length.
Qed.

Lemma range_body_sized self ev proj idx lo hi c bs :
  T.range_body self ev proj idx lo hi c = Ok bs -> Forall (sized self) bs.
Proof.
  destruct c as [ci crit]. unfold T.range_body.
  setitem_step H1. setitem_step H2. intros [= <-].
  repeat constructor; unfold sized; simpl.
  - by rewrite H1, np_zeros_length.
  - by rewrite H2, H1, np_zeros_length.
Qed.

Lemma threshold_body_sized self ev proj idx t c bs :
  T.threshold_body self ev proj idx t c = Ok bs -> Forall (sized self) bs.
Proof.
  destruct c as [ci crit]. unfold T.threshold_body.
  destruct (operator ev) as [[]|]; simpl;
    try (intros [= <-]; constructor);
    setitem_step H1; intros [= <-];
    (constructor; [|constructor]); unfold sized; simpl;
    by rewrite H1, np_zeros_length.
Qed.

Lemma for_extend_Forall {A B} (body : A -> result (list B)) (P : B -> Prop) xs r :
  (forall x bs, body x = Ok bs -> Forall P bs) ->
  for_extend body xs [] = Ok r -> Forall P r.
Proof.
  intros Hbody (bss & HF & ->)%for_extend_Ok_inv.
  apply Forall_forall. intros b (bs & Hbs & Hb)%elem_of_concat.
  apply list_elem_of_lookup in Hbs as [i Hi].
  destruct (Forall2_lookup_r _ _ _ _ _ HF Hi) as (x & _ & Hx).
  apply Hbody in Hx. rewrite Forall_forall in Hx. by apply Hx.
Qed.

Lemma parse_comparison_sized self ev cs :
  T.parse_comparison_evaluation self ev = Ok cs -> Forall (sized self) cs.
Proof.
  unfold T.parse_comparison_evaluation.
  destruct (projects ev) as [|a [|b [|]]]; try done.
  destruct (T.project_index_getitem self a) as [ia|]; simpl; [|done].
  destruct (T.project_index_getitem self b) as [ib|]; simpl; [|done].
  apply for_extend_Forall. intros c bs. apply comparison_body_sized.
Qed.

Lemma parse_range_sized self ev cs :
  T.parse_range_evaluation self ev = Ok cs -> Forall (sized self) cs.
Proof.
  unfold T.parse_range_evaluation.
  destruct (projects ev) as [|a [|]]; try done.
  destruct (values ev) as [[|lo [|hi [|]]]|]; try done.
  destruct (T.project_index_getitem self a) as [ia|]; simpl; [|done].
  apply for_extend_Forall. intros c bs. apply range_body_sized.
Qed.

Lemma parse_threshold_sized self ev cs :
  T.parse_threshold_evaluation self ev = Ok cs -> Forall (sized self) cs.
Proof.
  unfold T.parse_threshold_evaluation.
  destruct (projects ev) as [|a [|]]; try done.
  destruct (values ev) as [[|t [|]]|]; try done.
  destruct (T.project_index_getitem self a) as [ia|]; simpl; [|done].
  apply for_extend_Forall. intros c bs. apply threshold_body_sized.
Qed.

Lemma parse_ranking_sized self ev cs :
  T.parse_ranking_evaluation self ev = Ok cs -> Forall (sized self) cs.
Proof.
  unfold T.parse_ranking_evaluation. case_decide; [done|].
  apply for_extend_Forall. intros i bs. unfold T.ranking_body.
  destruct (list_getitem (projects ev) i) as [hi|]; simpl; [|done].
  destruct (list_getitem (projects ev) (i + 1)) as [lo|]; simpl; [|done].
  apply parse_comparison_sized.
Qed.

Lemma produced_sized self ev : Forall (sized self) (produced self ev).
Proof.
  unfold produced, T.dispatch.
  destruct (evaluation_type ev).
  - destruct (T.parse_comparison_evaluation self ev) eqn:Hp; [|done].
    by eapply parse_comparison_sized.
  - destruct (T.parse_range_evaluation self ev) eqn:Hp; [|done].
    by eapply parse_range_sized.
  - destruct (T.parse_ranking_evaluation self ev) eqn:Hp; [|done].
    by eapply parse_ranking_sized.
  - done.
  - destruct (T.parse_threshold_evaluation self ev) eqn:Hp; [|done].
    by eapply parse_threshold_sized.
Qed.

(** The translator after [translate_evaluations]: the same projects and
    criteria, and constraints of the right size. *)
Lemma translate_evaluations_uniform self :
  let self' := (T.translate_evaluations self).2 in
  T.self_projects self' = T.self_projects self /\
  T.self_criteria self' = T.self_criteria self /\
  T.self_evaluations self' = T.self_evaluations self /\
  T.self_constraints self' = (T.translate_evaluations self).1.1 /\
  uniform self'.
Proof.
  unfold T.translate_evaluations. rewrite translate_loop. simpl.
  do 4 (split; [done|]).
  unfold uniform. simpl.
  apply Forall_forall. intros c (cs & Hcs & Hc)%elem_of_concat.
  apply list_elem_of_fmap in Hcs as (ev & -> & _).
  pose proof (produced_sized self ev) as Hs. rewrite Forall_forall in Hs.
  by apply Hs.
Qed.

Lemma Forall_filter_sub {A} (P : A -> Prop) (Q : A -> Prop)
    `{forall x, Decision (Q x)} (xs : list A) :
  Forall P xs -> Forall P (filter Q xs).
Proof.
  rewrite !Forall_forall. intros HP x [_ Hx]%list_elem_of_filter. by apply HP.
Qed.

Lemma np_vstack_uniform rs n :
  rs ≠ [] -> Forall (fun r => length r = n) rs ->
  np_vstack rs = Ok {| ncols := n; rows := rs |}.
Proof.
  destruct rs as [|r rs]; [done|]. intros _ HF. unfold np_vstack.
  pose proof (Forall_inv HF) as Hr. simpl in Hr.
  rewrite (proj2 (forallb_forall _ _)).
  - by rewrite Hr.
  - intros r' Hr'%list_elem_of_In. rewrite Forall_forall in HF.
    apply Nat.eqb_eq. rewrite Hr. by apply HF.
Qed.

(** The matrices of a part of the constraints of a translator. *)
Lemma stack_part tr (cs : list LinearConstraint) :
  Forall (sized tr) cs ->
  exists A,
    match cs with
    | [] => Ok (np_empty2 (T.n_projects tr * T.n_criteria tr), [])
    | _ => A ← np_vstack (coefficients <$> cs); mret (A, bound <$> cs)
    end = Ok (A, bound <$> cs) /\
    ncols A = (T.n_projects tr * T.n_criteria tr)%nat /\
    rows A = coefficients <$> cs.
Proof.
  intros HF. destruct cs as [|c cs].
  - by eexists.
  - rewrite (np_vstack_uniform _ (T.n_projects tr * T.n_criteria tr)).
    + by eexists.
    + done.
    + by apply Forall_fmap.
Qed.

Lemma length_dimension_names (ps cs : list string) :
  length (p ← ps; c ← cs; [p +:+ "_" +:+ c]) = (length ps * length cs)%nat.
Proof.
  induction ps as [|p ps IH]; [done|].
  change (length ((c ← cs; [p +:+ "_" +:+ c]) ++
                  (p ← ps; c ← cs; [p +:+ "_" +:+ c])) =
          (length cs + length ps * length cs)%nat).
  rewrite length_app, IH. f_equal.
  clear. induction cs as [|c cs IH]; [done|]. simpl. f_equal. exact IH.
Qed.

(** [__init__] succeeds for every translator whose constraints, if it has
    some already, are of the right size; the visualizer is well formed. *)
Lemma init_Ok tr :
  uniform tr ->
  exists vis, V.init tr = Ok vis /\ well_formed vis /\
    V.self_n_dimensions vis = (T.n_projects tr * T.n_criteria tr)%nat.
Proof.
  intros Hu. unfold V.init, T.get_constraint_matrices.
  set (tr1 := match T.self_constraints tr with
              | [] => (T.translate_evaluations tr).2
              | _ => tr
              end).
  assert (uniform tr1) as Hu1.
  { unfold tr1. destruct (T.self_constraints tr); [|done].
    apply translate_evaluations_uniform. }
  set (tr2 := match T.self_constraints tr1 with
              | [] => (T.translate_evaluations tr1).2
              | _ => tr1
              end).
  assert (uniform tr2) as Hu2.
  { unfold tr2. destruct (T.self_constraints tr1); [|done].
    apply translate_evaluations_uniform. }
  destruct (stack_part tr2
              (filter (fun c => is_equality c = false) (T.self_constraints tr2)))
    as (A_ineq & -> & Hcols & Hrows).
  { by apply Forall_filter_sub. }
  destruct (stack_part tr2
              (filter (fun c => is_equality c = true) (T.self_constraints tr2)))
    as (A_eq & -> & _ & _).
  { by apply Forall_filter_sub. }
  assert (T.self_projects tr1 = T.self_projects tr /\
          T.self_criteria tr1 = T.self_criteria tr) as [Hp1 Hc1].
  { unfold tr1. destruct (T.self_constraints tr); [|done].
    by destruct (translate_evaluations_uniform tr) as (? & ? & _). }
  assert (T.self_projects tr2 = T.self_projects tr /\
          T.self_criteria tr2 = T.self_criteria tr) as [Hp2 Hc2].
  { rewrite <- Hp1, <- Hc1. unfold tr2. destruct (T.self_constraints tr1); [|done].
    by destruct (translate_evaluations_uniform tr1) as (? & ? & _). }
  simpl. eexists. split; [reflexivity|].
  unfold well_formed. simpl. split; [split|].
  - by rewrite Hrows, !length_fmap.
  - by rewrite Hcols, length_dimension_names.
  - rewrite length_dimension_names. unfold T.n_projects, T.n_criteria.
    by rewrite Hp2, Hc2.
Qed.

Lemma combinations_elem {A} (xs : list A) k c :
  c ∈ combinations xs k -> length c = k /\ c ⊆ xs.
Proof.
  revert k c. induction xs as [|x xs IH]; intros [|k] c; simpl.
  - intros ->%list_elem_of_singleton. done.
  - by intros ?%elem_of_nil.
  - intros ->%list_elem_of_singleton. split; [done|]. by intros y ?%elem_of_nil.
  - intros [(c' & -> & Hc')%list_elem_of_fmap | Hc]%elem_of_app.
    + destruct (IH k c' Hc') as [<- Hsub]. split; [done|].
      intros y [->|Hy]%elem_of_cons; [by left|right; by apply Hsub].
    + destruct (IH (S k) c Hc) as [Hlen Hsub]. split; [done|].
      intros y Hy. right. by apply Hsub.
Qed.

Lemma list_getitem_lt {A} (xs : list A) i :
  (i < length xs)%nat -> exists x, list_getitem xs i = Ok x.
Proof.
  intros [x Hx]%lookup_lt_is_Some_2. exists x. unfold list_getitem. by rewrite Hx.
Qed.

Lemma np_take_Ok {A} (xs : list A) idx :
  Forall (fun i => (i < length xs)%nat) idx ->
  exists ys, np_take xs idx = Ok ys /\ length ys = length idx.
Proof.
  unfold np_take. induction 1 as [|i idx Hi _ (ys & IH & Hlen)].
  - by exists [].
  - destruct (list_getitem_lt xs i Hi) as [x Hx].
    exists (x :: ys).
    change (mapM (list_getitem xs) (i :: idx))
      with (y ← list_getitem xs i; k ← mapM (list_getitem xs) idx; mret (y :: k)).
    rewrite Hx. simpl. rewrite IH. simpl. by rewrite Hlen.
Qed.

Lemma all_in_bounds_Ok bounds v indices :
  Forall (fun i => (i < length bounds)%nat /\ (i < length v)%nat) indices ->
  exists inside, V.all_in_bounds bounds v indices = Ok inside.
Proof.
  induction 1 as [|i indices [Hb Hv] _ [inside IH]]; simpl; [by eauto|].
  destruct (list_getitem_lt bounds i Hb) as [b ->].
  destruct (list_getitem_lt v i Hv) as [x ->]. simpl.
  destruct (Qle_bool b.1 x && Qle_bool x b.2); eauto.
Qed.

Lemma np_allclose_Ok a b tol :
  length a = length b -> exists close, np_allclose a b tol = Ok close.
Proof. intros Hlen. unfold np_allclose. rewrite decide_True by done. eauto. Qed.

Section Returns.
Context `{Libs} `{!LibsLaws}.

Lemma caught e :
  e = LinAlgError \/ (exists msg, e = ValueError msg) ->
  V.except_continue (A := vertex) (Raise e) = Ok [].
Proof. by intros [->|[msg ->]]. Qed.

(** A combination gives vertices or raises what the loop catches. *)
Lemma try_combination_outcome self bounds idx :
  well_formed self ->
  (V.self_n_dimensions self <= length bounds)%nat ->
  idx ∈ V.constraint_combinations self ->
  (exists vs, V.try_combination self bounds idx = Ok vs) \/
  (exists e, V.try_combination self bounds idx = Raise e /\
             (e = LinAlgError \/ exists msg, e = ValueError msg)).
Proof.
  intros [Hrows Hcols] Hbounds [Hlen Hsub]%combinations_elem.
  assert (Forall (fun i => (i < length (V.self_b_ineq self))%nat) idx) as Hidx.
  { apply Forall_forall. intros i Hi%Hsub%elem_of_seq. lia. }
  unfold V.try_combination, np_take_rows.
  destruct (np_take_Ok (rows (V.self_A_ineq self)) idx) as (rs & -> & Hrs).
  { by rewrite Hrows. }
  destruct (np_take_Ok (V.self_b_ineq self) idx) as (bs & -> & _); [done|].
  simpl.
  destruct (np_linalg_det _) as [d|e] eqn:Hd; simpl.
  2:{ right. exists e. split; [done|]. by eapply np_linalg_det_raises. }
  apply np_linalg_det_square in Hd. simpl in Hd.
  destruct (Qeq_bool d 0); [by eauto|].
  destruct (np_linalg_solve _ bs) as [x|e] eqn:Hs; simpl.
  2:{ right. exists e. split; [done|]. by eapply np_linalg_solve_raises. }
  apply np_linalg_solve_length in Hs. simpl in Hs.
  unfold np_matvec. case_decide as Hm; simpl; [|by eauto 6].
  unfold np_all_le. case_decide as Hle; simpl; [|by eauto 6].
  destruct (forallb _ _); simpl; [|by eauto].
  destruct (all_in_bounds_Ok bounds x (seq 0 (V.self_n_dimensions self)))
    as [inside ->].
  { apply Forall_forall. intros i Hi%elem_of_seq. lia. }
  simpl. destruct inside; eauto.
Qed.

(** No turn of the loop over the combinations lets an exception out. *)
Lemma combination_body_Ok self bounds idx :
  well_formed self ->
  (V.self_n_dimensions self <= length bounds)%nat ->
  idx ∈ V.constraint_combinations self ->
  exists vs, V.combination_body self bounds idx = Ok vs.
Proof.
  intros Hwf Hbounds Hidx. unfold V.combination_body.
  destruct (try_combination_outcome self bounds idx Hwf Hbounds Hidx)
    as [[vs ->]|(e & -> & He)].
  - by exists vs.
  - exists []. by apply caught.
Qed.

Lemma is_duplicate_Ok n v unique_vertices :
  length v = n -> Forall (fun u => length u = n) unique_vertices ->
  exists dup, V.is_duplicate v unique_vertices = Ok dup.
Proof.
  intros Hv. induction 1 as [|u us Hu _ [dup IH]]; simpl; [by eauto|].
  destruct (np_allclose_Ok v u V.atol) as [close ->]; [congruence|].
  simpl. destruct close; eauto.
Qed.

Lemma remove_duplicates_Ok n vertices unique_vertices :
  Forall (fun u => length u = n) vertices ->
  Forall (fun u => length u = n) unique_vertices ->
  exists kept, V.remove_duplicates vertices unique_vertices = Ok kept.
Proof.
  intros HF. revert unique_vertices.
  induction HF as [|v vs Hv _ IH]; intros unique_vertices Hu; simpl; [by eauto|].
  destruct (is_duplicate_Ok n v unique_vertices Hv Hu) as [dup ->]. simpl.
  apply IH. destruct dup; [done|].
  apply Forall_app. split; [done|]. by constructor.
Qed.

(** The enumeration returns whenever the visualizer is well formed and
  the bounds, if given, are one for each dimension at least. *)
Lemma enumerate_intersections_Ok_wf self bounds :
  well_formed self ->
  (V.self_n_dimensions self <= length (default (V.default_bounds self) bounds))%nat ->
  exists vs, V.enumerate_intersections self bounds = Ok vs.
Proof.
  intros Hwf Hbounds.
  destruct (for_extend_Forall2
              (V.combination_body self (default (V.default_bounds self) bounds))
              (fun _ _ => True) (V.constraint_combinations self))
    as (bss & HF & Hloop).
  { apply Forall_forall. intros idx Hidx.
    destruct (combination_body_Ok self _ idx Hwf Hbounds Hidx) as [vs Hvs].
    by exists vs. }
  assert (accepted_candidates self bounds = Ok (concat bss)) as Hcand by done.
  unfold V.enumerate_intersections. rewrite Hloop. simpl.
  assert (Forall (fun v => length v = ncols (V.self_A_ineq self)) (concat bss))
    as Hlen.
  { apply Forall_forall. intros v Hv.
    by destruct (accepted_candidates_accept self bounds _ v Hcand Hv) as (_ & _ & ?). }
  destruct (concat bss) as [|c cs]; [by eauto|].
  by apply (remove_duplicates_Ok (ncols (V.self_A_ineq self))).
Qed.

(** Building a visualizer from a translator and asking for its vertices
    always gives vertices, with the default bounds and with any bounds that
    are one for each dimension at least. *)
Lemma compute_vertices_returns tr bounds :
  uniform tr ->
  match bounds with
  | Some bs => (T.n_projects tr * T.n_criteria tr <= length bs)%nat
  | None => True
  end ->
  exists vis vs,
    V.init tr = Ok vis /\ (V.compute_vertices vis bounds).1 = Ok vs.
Proof.
  intros Hu Hb. destruct (init_Ok tr Hu) as (vis & Hinit & Hwf & Hdim).
  exists vis. rewrite (compute_vertices_init tr vis bounds Hinit).
  destruct (enumerate_intersections_Ok_wf vis bounds Hwf) as [vs Hvs].
  - destruct bounds as [bs|]; simpl.
    + by rewrite Hdim.
    + unfold V.default_bounds. by rewrite length_replicate.
  - by exists vs.
Qed.

(** In particular for a translator that holds evaluations and has not
    translated them yet. *)
Lemma compute_vertices_returns_fresh projects criteria evaluations :
  exists vis vs,
    V.init (foldl T.add_evaluation (T.init projects criteria) evaluations) = Ok vis /\
    (V.compute_vertices vis None).1 = Ok vs.
Proof.
  apply compute_vertices_returns; [|done].
  unfold uniform.
  assert (T.self_constraints
            (foldl T.add_evaluation (T.init projects criteria) evaluations) = [])
    as ->; [|constructor].
  assert (forall tr, T.self_constraints tr = [] ->
            T.self_constraints (foldl T.add_evaluation tr evaluations) = []) as Hfold.
  { induction evaluations as [|ev evs IH]; intros tr Htr; [done|].
    simpl. by apply IH. }
  by apply Hfold.
Qed.

End Returns.

(** ** The claims on examples *)

Section OnExamples.
Import Examples.
#[local] Existing Instance numpy.

(** With [A = B] asked for, the vertex [(0.5, 0.25)] is returned: it
    satisfies the two inequalities and not the equality. *)
Lemma C1_counterexample :
  exists vis vs,
    V.init equal_but_apart = Ok vis /\
    (V.compute_vertices vis None).1 = Ok vs /\
    ~ (forall v, v ∈ vs -> satisfies_inequalities vis v /\ satisfies_equalities vis v).
Proof.
  eexists. exists [[1 # 2; 1 # 4]%Q].
  split; [vm_compute; reflexivity|].
  split; [vm_compute; reflexivity|].
  intros Hall. destruct (Hall [1 # 2; 1 # 4]%Q) as [_ Heq]; [by left|].
  specialize (Heq _ eq_refl). simpl in Heq.
  apply Forall2_cons_1 in Heq as [Hrow _].
  vm_compute in Hrow. by apply Hrow.
Qed.

(** Two calls on the square: the second, with bounds that [(0.5, 0.5)]
    does not meet, returns the cached corners, which satisfy the
    inequalities. *)
Lemma C1_witness :
  exists vis rs vis',
    V.init square = Ok vis /\
    calls vis [None; Some [(0, 3 # 10); (0, 3 # 10)]%Q] = (rs, vis') /\
    length rs = 2%nat /\
    satisfies_inequalities vis [1 # 2; 1 # 2]%Q.
Proof.
  destruct (V.init square) as [vis|e] eqn:Hinit;
    [|vm_compute in Hinit; discriminate].
  destruct (calls vis [None; Some [(0, 3 # 10); (0, 3 # 10)]%Q])
    as [rs vis'] eqn:Hcalls.
  assert (rs !! 1%nat =
          Some (Ok [[1 # 2; 1 # 2]; [1 # 2; 1 # 4]; [1 # 4; 1 # 2]; [1 # 4; 1 # 4]]%Q)
          /\ length rs = 2%nat) as [Hrs Hlen].
  { pose proof Hinit as Hi. vm_compute in Hi. injection Hi as <-.
    vm_compute in Hcalls. injection Hcalls as <- _. by split. }
  exists vis, rs, vis'. split; [reflexivity|]. split; [exact Hcalls|].
  split; [exact Hlen|].
  apply (proj1 (C1_vertices_satisfy_inequalities square vis _ rs vis' Hinit Hcalls)
           [[1 # 2; 1 # 2]; [1 # 2; 1 # 4]; [1 # 4; 1 # 2]; [1 # 4; 1 # 4]]%Q).
  - by apply list_elem_of_lookup_2 in Hrs.
  - left.
Defined.

(** Of the two ends of the interval from [1] to [1.000005], both accepted,
    only one is returned: the other has no returned vertex within
    [1e-8]. *)
Lemma C6_counterexample :
  exists vis vs,
    V.init thin_interval = Ok vis /\
    (V.compute_vertices vis None).1 = Ok vs /\
    ~ deduplicated_1e8 vis None vs.
Proof.
  eexists. exists [[200001 # 200000]%Q].
  split; [vm_compute; reflexivity|].
  split; [vm_compute; reflexivity|].
  intros [_ Hrep].
  destruct (Hrep [[200001 # 200000]; [1]]%Q [1%Q]) as (u & Hu & Hclose).
  - vm_compute; reflexivity.
  - right. left.
  - apply list_elem_of_singleton in Hu as ->.
    apply Forall2_cons_1 in Hclose as [Hlt _].
    vm_compute in Hlt. discriminate.
Qed.

(** On the thin interval two candidates are accepted and one vertex is
    returned. *)
Lemma C6_witness :
  exists vis vs candidates,
    V.init thin_interval = Ok vis /\
    (V.compute_vertices vis None).1 = Ok vs /\
    accepted_candidates vis None = Ok candidates /\
    length candidates = 2%nat /\ length vs = 1%nat /\
    separated vs /\ sublist vs candidates.
Proof.
  destruct (V.init thin_interval) as [vis|e] eqn:Hinit;
    [|vm_compute in Hinit; discriminate].
  destruct (V.compute_vertices vis None).1 as [vs|e] eqn:Hcall.
  2:{ exfalso. vm_compute in Hinit. injection Hinit as <-.
      vm_compute in Hcall. discriminate. }
  destruct (C6_vertices_deduplicated thin_interval vis None vs Hinit Hcall)
    as (Hsep & _ & candidates & keep & Hcand & _ & _ & Hsub & _).
  assert (length candidates = 2%nat /\ length vs = 1%nat) as [Hc Hv].
  { pose proof Hinit as Hi. vm_compute in Hi. injection Hi as <-.
    vm_compute in Hcall. injection Hcall as <-.
    vm_compute in Hcand. injection Hcand as <-. by split. }
  exists vis, vs, candidates. split; [reflexivity|]. split; [exact Hcall|].
  split; [exact Hcand|]. split; [exact Hc|]. split; [exact Hv|].
  split; [exact Hsep|exact Hsub].
Defined.

(** With a budget of one combination the budgeted enumeration of the
    square returns no vertex, flagged; [compute_vertices] returns the four
    corners. *)
Lemma C7_counterexample :
  exists vis,
    V.init square = Ok vis /\
    ~ (forall max_combinations, honours_budget vis None max_combinations).
Proof.
  eexists. split; [vm_compute; reflexivity|].
  intros Hall. destruct (Hall 1%nat) as [truncated Ht].
  vm_compute in Ht. discriminate.
Qed.

Lemma C7_witness :
  exists vis,
    V.init square = Ok vis /\
    length (V.constraint_combinations vis) = 6%nat /\
    Budgeted.enumerate_within vis None 6 =
      Ok ([[1 # 2; 1 # 2]; [1 # 2; 1 # 4]; [1 # 4; 1 # 2]; [1 # 4; 1 # 4]]%Q, false).
Proof.
  eexists. split; [vm_compute; reflexivity|].
  pose proof (fun vis => C7_enumeration_is_exhaustive square vis None) as HC7.
  edestruct HC7 as (Hlen & Hall & _); [vm_compute; reflexivity|].
  split; [exact Hlen|exact Hall].
Defined.

(** A Comparison of [A] with itself is translated: the constraint has
    [-1] where the claim has [+1]. *)
Lemma C2_counterexample :
  exists con,
    T.project_index (translator ["A"; "B"] []) !! "A" = Some 0%nat /\
    T.parse_comparison_evaluation (translator ["A"; "B"] [])
      (comparison "A" "A" GREATER) = Ok [con] /\
    coefficients con = [-1; 0]%Q /\
    coefficients con !! variable_index (translator ["A"; "B"] []) 0 0 ≠ Some 1%Q.
Proof.
  eexists. split; [vm_compute; reflexivity|].
  split; [vm_compute; reflexivity|].
  split; [reflexivity|]. vm_compute. discriminate.
Qed.

Lemma C2_witness :
  exists con,
    T.parse_comparison_evaluation (translator ["A"; "B"] [])
      (comparison "A" "B" GREATER) = Ok [con] /\
    coefficients con = [1; -1]%Q /\ bound con = (-1 # 100)%Q /\
    is_equality con = false.
Proof.
  destruct (C2_comparison_greater (translator ["A"; "B"] [])
              (comparison "A" "B" GREATER) "A" "B" 0 1)
    as (cs & Hcs & Hlen & Hall).
  - reflexivity.
  - reflexivity.
  - discriminate.
  - vm_compute; reflexivity.
  - vm_compute; reflexivity.
  - destruct (Hall 0%nat) as (con & Hcon & _ & _ & _ & _ & Hb & He & _).
    { vm_compute. lia. }
    exists con. rewrite Hcs. split; [|split; [|by split]].
    + vm_compute in Hcs. injection Hcs as <-. vm_compute in Hcon.
      by injection Hcon as <-.
    + vm_compute in Hcs. injection Hcs as <-. vm_compute in Hcon.
      by injection Hcon as <-.
Defined.

(** Two batches in which different evaluations fail, with the same
    constraints returned and the same records logged: what the batch
    translation gives back does not tell which evaluation failed. *)
Lemma C3_counterexample :
  exists batch1 batch2,
    (T.translate_evaluations batch1).1 = (T.translate_evaluations batch2).1 /\
    Reports.failed batch1 ≠ Reports.failed batch2.
Proof.
  exists (translator ["A"; "B"]
            [comparison "A" "C" GREATER; comparison "A" "B" GREATER]),
         (translator ["A"; "B"]
            [comparison "A" "B" GREATER; comparison "A" "C" GREATER]).
  split; [vm_compute; reflexivity|].
  vm_compute. discriminate.
Qed.

Lemma C3_witness :
  exists cs,
    (T.translate_evaluations batch).1 =
    (cs, [LogErrorProcessing "expert" (KeyError "C");
          LogWarningUnsupported PREFERENCE;
          LogInfoGenerated 1 3]) /\
    cs = produced batch (comparison "A" "B" GREATER).
Proof.
  destruct (C3_batch_translation batch)
    as (cs & log & self' & Heq & Hcs & Hlog & _ & _ & Hsplit).
  exists cs. rewrite Heq. simpl.
  destruct (Hsplit [comparison "A" "C" GREATER]
              (Build_QualitativeEvaluation "expert" PREFERENCE ["A"] None None
                 1%Q None None None)
              [comparison "A" "B" GREATER]
              (LogWarningUnsupported PREFERENCE)) as [Hcs' _].
  - reflexivity.
  - reflexivity.
  - split.
    + rewrite Hlog, Hcs. vm_compute. reflexivity.
    + rewrite Hcs'. vm_compute. reflexivity.
Defined.

Lemma C4_witness :
  exists cs_lt cs_gt,
    T.parse_comparison_evaluation (translator ["A"; "B"] [])
      (comparison "A" "B" LESS) = Ok cs_lt /\
    T.parse_comparison_evaluation (translator ["A"; "B"] [])
      (comparison "A" "B" GREATER) = Ok cs_gt /\
    content <$> cs_lt = content <$> cs_gt.
Proof.
  apply (C4_less_same_as_greater (translator ["A"; "B"] [])
           (comparison "A" "B" LESS) "A" "B").
  - reflexivity.
  - left.
  - right. left.
Defined.

Lemma C5_witness :
  (exists cs,
     T.parse_ranking_evaluation (translator ["A"; "B"; "C"] [])
       (ranking ["A"; "C"; "B"]) = Ok cs /\ length cs = 2%nat) /\
  T.parse_ranking_evaluation (translator ["A"; "B"; "C"] []) (ranking ["A"]) =
  Raise (ValueError "Ranking evaluation must involve at least 2 projects").
Proof.
  split.
  - destruct (proj2 (C5_ranking (translator ["A"; "B"; "C"] [])
                       (ranking ["A"; "C"; "B"])))
      as (css & _ & Hparse & Hlen).
    + simpl. lia.
    + repeat constructor.
    + exists (concat css). split; [exact Hparse|exact Hlen].
  - apply (proj1 (C5_ranking (translator ["A"; "B"; "C"] []) (ranking ["A"]))).
    simpl. lia.
Defined.

Lemma C8_witness :
  exists vis,
    V.init equal_but_apart = Ok vis /\
    (exists A_eq, V.self_A_eq vis = Some A_eq /\ rows A_eq = [[1; -1]%Q]) /\
    V.try_pypoman (H := Exact.libs true (fun _ _ => Ok [])) vis = None.
Proof.
  eexists. split; [vm_compute; reflexivity|].
  pose proof (fun vis =>
    C8_library_path_unreachable (H := Exact.libs true (fun _ _ => Ok []))
      equal_but_apart vis None) as HC8.
  edestruct HC8 as ((A_eq & HA & Hrows) & _ & Hp & _); [vm_compute; reflexivity|].
  split; [|exact Hp]. exists A_eq. split; [exact HA|].
  rewrite Hrows. vm_compute. reflexivity.
Defined.

Lemma C9_witness :
  exists vis vs vis',
    V.init square = Ok vis /\
    V.compute_vertices vis None = (Ok vs, vis') /\
    V.compute_vertices vis' (Some [(0, 3 # 10); (0, 3 # 10)]%Q) = (Ok vs, vis') /\
    V.compute_vertices vis' (Some []) = (Ok vs, vis').
Proof.
  destruct (V.init square) as [vis|e] eqn:Hinit;
    [|vm_compute in Hinit; discriminate].
  destruct (V.compute_vertices vis None) as [[vs|e] vis'] eqn:Hcall.
  - exists vis, vs, vis'. split; [reflexivity|]. split; [exact Hcall|].
    split; apply (proj1 (C9_cached_regardless_of_bounds vis None vs vis' Hcall)).
  - exfalso. vm_compute in Hinit. injection Hinit as <-.
    vm_compute in Hcall. discriminate.
Defined.

Lemma C10_witness :
  T.parse_comparison_evaluation (translator ["A"; "B"] [])
    (comparison "A" "B" GREATER_EQUAL) = Ok [] /\
  T.parse_threshold_evaluation (translator ["A"; "B"] [])
    (threshold "A" GREATER (1 # 2)) = Ok [].
Proof.
  split.
  - apply (proj1 (C10_unhandled_operator (translator ["A"; "B"] [])
                    (comparison "A" "B" GREATER_EQUAL)) "A" "B");
      try done; [left|right; left].
  - apply (proj2 (C10_unhandled_operator (translator ["A"; "B"] [])
                    (threshold "A" GREATER (1 # 2))) "A" (1 # 2)%Q);
      try done; left.
Defined.

(** On a first call the bounds do count: inside [0, 0.3] on each axis the
    square has one corner; and bounds that are too short raise. *)
Example first_call_uses_bounds :
  exists vis,
    V.init square = Ok vis /\
    (V.compute_vertices vis (Some [(0, 3 # 10); (0, 3 # 10)]%Q)).1 =
      Ok [[1 # 4; 1 # 4]%Q] /\
    V.compute_vertices vis (Some []) = (Raise IndexError, vis).
Proof.
  eexists. split; [vm_compute; reflexivity|].
  split; vm_compute; reflexivity.
Qed.

End OnExamples.

(** * More of the translator *)

Import Rows.

Lemma project_index_getitem_unknown self proj :
  ~ known self proj -> T.project_index_getitem self proj = Raise (KeyError proj).
Proof.
  intros Hu. unfold T.project_index_getitem.
  destruct (T.project_index self !! proj) as [i|] eqn:Hi; [|done].
  destruct Hu. apply project_index_known. by eauto.
Qed.

Lemma concat_pairs_lookup {A B} (g h : A -> B) (xs : list A) i :
  concat ((fun x => [g x; h x]) <$> xs) !! (2 * i)%nat = g <$> xs !! i /\
  concat ((fun x => [g x; h x]) <$> xs) !! (2 * i + 1)%nat = h <$> xs !! i.
Proof.
  revert i. induction xs as [|x xs IH]; intros i; [done|].
  destruct i as [|i]; [done|].
  replace (2 * S i)%nat with (S (S (2 * i))) by lia.
  replace (S (S (2 * i)) + 1)%nat with (S (S (2 * i + 1))) by lia.
  apply IH.
Qed.

Lemma concat_pairs_length {A B} (g h : A -> B) (xs : list A) :
  length (concat ((fun x => [g x; h x]) <$> xs)) = (2 * length xs)%nat.
Proof.
  induction xs as [|x xs IH]; [done|].
  change (S (S (length (concat ((fun x => [g x; h x]) <$> xs)))) =
          (2 * S (length xs))%nat).
  rewrite IH. lia.
Qed.

Lemma range_body_closed self ev proj idx lo hi c :
  (idx < T.n_projects self)%nat -> (c.1 < T.n_criteria self)%nat ->
  T.range_body self ev proj idx lo hi c =
  Ok [range_lower self ev proj idx lo c; range_upper self ev proj idx hi c].
Proof.
  intros Hi Hc. destruct c as [ci crit].
  unfold T.range_body, range_lower, range_upper, unit_row.
  pose proof (variable_index_lt self idx ci Hi Hc) as Hp.
  unfold variable_index in *.
  rewrite np_setitem_Ok by (by rewrite np_zeros_length). simpl.
  rewrite np_setitem_Ok by (by rewrite length_insert, np_zeros_length). simpl.
  by rewrite list_insert_insert_eq.
Qed.

Lemma parse_range_closed self ev proj idx lo hi :
  projects ev = [proj] ->
  values ev = Some [lo; hi] ->
  T.project_index self !! proj = Some idx ->
  T.parse_range_evaluation self ev =
  Ok (concat ((fun c => [range_lower self ev proj idx lo c;
                         range_upper self ev proj idx hi c])
                <$> enumerate (T.self_criteria self))).
Proof.
  intros Hp Hv Hi. unfold T.parse_range_evaluation. rewrite Hp, Hv.
  rewrite (project_index_getitem_Ok _ _ _ Hi). simpl.
  pose proof (project_index_lt _ _ _ Hi) as Hlt.
  apply for_extend_total.
  eapply Forall_impl; [apply enumerate_Forall|].
  intros c Hc. apply range_body_closed; [done|].
  simpl in Hc. unfold T.n_criteria. exact (lookup_lt_Some _ _ _ Hc).
Qed.

(** X1: a Range [[lo, hi]] on a known project translates into two
    inequality constraints for each criterion, in the order of the
    criteria: first the row with [+1] at the coordinate of the project and
    the criterion and bound [lo], then the row with [-1] there and bound
    [-hi]; all other coefficients are zero. *)
Theorem range_constraints self ev proj idx lo hi :
  projects ev = [proj] ->
  values ev = Some [lo; hi] ->
  T.project_index self !! proj = Some idx ->
  exists cs,
    T.parse_range_evaluation self ev = Ok cs /\
    length cs = (2 * T.n_criteria self)%nat /\
    forall c crit, T.self_criteria self !! c = Some crit ->
      cs !! (2 * c)%nat = Some (range_lower self ev proj idx lo (c, crit)) /\
      cs !! (2 * c + 1)%nat = Some (range_upper self ev proj idx hi (c, crit)).
Proof.
  intros Hp Hv Hi.
  rewrite (parse_range_closed self ev proj idx lo hi Hp Hv Hi).
  eexists. split; [reflexivity|]. split.
  - by rewrite concat_pairs_length, enumerate_length.
  - intros c crit Hc.
    destruct (concat_pairs_lookup (range_lower self ev proj idx lo)
                (range_upper self ev proj idx hi)
                (enumerate (T.self_criteria self)) c) as [H1 H2].
    rewrite enumerate_lookup, Hc in H1, H2. split; [exact H1|exact H2].
Qed.

Lemma threshold_body_closed self ev proj idx t c :
  (idx < T.n_projects self)%nat -> (c.1 < T.n_criteria self)%nat ->
  T.threshold_body self ev proj idx t c =
  Ok match operator ev with
     | Some GREATER_EQUAL => [threshold_constraint self ev proj idx 1%Q t c]
     | Some LESS_EQUAL => [threshold_constraint self ev proj idx (-1)%Q (- t)%Q c]
     | _ => []
     end.
Proof.
  intros Hi Hc. destruct c as [ci crit].
  unfold T.threshold_body, threshold_constraint, unit_row.
  pose proof (variable_index_lt self idx ci Hi Hc) as Hp.
  unfold variable_index in *.
  destruct (operator ev) as [[]|]; simpl; try done;
    by rewrite np_setitem_Ok by (by rewrite np_zeros_length).
Qed.

Lemma parse_threshold_closed self ev proj idx t :
  projects ev = [proj] ->
  values ev = Some [t] ->
  T.project_index self !! proj = Some idx ->
  T.parse_threshold_evaluation self ev =
  Ok match operator ev with
     | Some GREATER_EQUAL =>
         threshold_constraint self ev proj idx 1%Q t <$> enumerate (T.self_criteria self)
     | Some LESS_EQUAL =>
         threshold_constraint self ev proj idx (-1)%Q (- t)%Q
           <$> enumerate (T.self_criteria self)
     | _ => []
     end.
Proof.
  intros Hp Hv Hi.
  pose proof (project_index_lt _ _ _ Hi) as Hlt.
  unfold T.parse_threshold_evaluation. rewrite Hp, Hv.
  rewrite (project_index_getitem_Ok _ _ _ Hi). simpl.
  rewrite (for_extend_total _
    (fun c => match operator ev with
              | Some GREATER_EQUAL => [threshold_constraint self ev proj idx 1%Q t c]
              | Some LESS_EQUAL =>
                  [threshold_constraint self ev proj idx (-1)%Q (- t)%Q c]
              | _ => []
              end)).
  - f_equal. destruct (operator ev) as [[]|];
      try apply (concat_nils (B:=LinearConstraint)); apply concat_singletons.
  - eapply Forall_impl; [apply enumerate_Forall|].
    intros c Hc. apply threshold_body_closed; [done|].
    simpl in Hc. unfold T.n_criteria. exact (lookup_lt_Some _ _ _ Hc).
Qed.

(** X2: a Threshold on a known project with one value [t] translates into
    one inequality constraint for each criterion, in the order of the
    criteria: for [>=] the row with [+1] at the coordinate of the project
    and the criterion and bound [t], for [<=] the row with [-1] there and
    bound [-t]. *)
Theorem threshold_constraints self ev proj idx t :
  projects ev = [proj] ->
  values ev = Some [t] ->
  T.project_index self !! proj = Some idx ->
  (operator ev = Some GREATER_EQUAL ->
   T.parse_threshold_evaluation self ev =
   Ok (threshold_constraint self ev proj idx 1%Q t <$> enumerate (T.self_criteria self))) /\
  (operator ev = Some LESS_EQUAL ->
   T.parse_threshold_evaluation self ev =
   Ok (threshold_constraint self ev proj idx (-1)%Q (- t)%Q
         <$> enumerate (T.self_criteria self))).
Proof.
  intros Hp Hv Hi.
  rewrite (parse_threshold_closed self ev proj idx t Hp Hv Hi).
  split; by intros ->.
Qed.

(** X3: a Comparison with operator [=] between two different known
    projects translates into one equality constraint for each criterion,
    with [+1] at index(a,c), [-1] at index(b,c), zero elsewhere and bound
    [0]. *)
Theorem comparison_equal self ev a b ia ib :
  projects ev = [a; b] ->
  operator ev = Some EQUAL ->
  a ≠ b ->
  T.project_index self !! a = Some ia ->
  T.project_index self !! b = Some ib ->
  exists cs,
    T.parse_comparison_evaluation self ev = Ok cs /\
    length cs = T.n_criteria self /\
    forall c, (c < T.n_criteria self)%nat ->
      exists con,
        cs !! c = Some con /\
        length (coefficients con) = (T.n_projects self * T.n_criteria self)%nat /\
        coefficients con !! variable_index self ia c = Some 1%Q /\
        coefficients con !! variable_index self ib c = Some (-1)%Q /\
        (forall j, (j < length (coefficients con))%nat ->
           j ≠ variable_index self ia c -> j ≠ variable_index self ib c ->
           coefficients con !! j = Some 0%Q) /\
        bound con = 0%Q /\
        is_equality con = true.
Proof.
  intros Hp Hop Hne Ha Hb.
  assert (ia ≠ ib) as Hi by (intros ->; by eapply Hne, project_index_inj).
  pose proof (project_index_lt _ _ _ Ha) as Hia.
  pose proof (project_index_lt _ _ _ Hb) as Hib.
  eexists. split; [by apply parse_comparison_closed|].
  rewrite Hop. simpl.
  split; [by rewrite length_fmap, enumerate_length|].
  intros c Hc.
  destruct (lookup_lt_is_Some_2 (T.self_criteria self) c Hc) as [crit Hcrit].
  exists (comparison_constraint self ev a b ia ib (0%Q, true) (c, crit)).
  split; [by rewrite list_lookup_fmap, enumerate_lookup, Hcrit|].
  destruct (comparison_coefficients self ev a b ia ib (0%Q, true)
              (c, crit) Hi Hia Hib Hc) as (Hlen & H1 & H2 & H0).
  by repeat split.
Qed.

(** X4: what [parse_comparison_evaluation] raises, before it looks at the
    operator: ValueError unless there are exactly 2 projects, KeyError on
    the first project when it is unknown, KeyError on the second when only
    that one is unknown. *)
Theorem comparison_errors self ev :
  (length (projects ev) ≠ 2%nat ->
   T.parse_comparison_evaluation self ev =
   Raise (ValueError "Comparison evaluation must involve exactly 2 projects")) /\
  (forall a b, projects ev = [a; b] -> ~ known self a ->
   T.parse_comparison_evaluation self ev = Raise (KeyError a)) /\
  (forall a b, projects ev = [a; b] -> known self a -> ~ known self b ->
   T.parse_comparison_evaluation self ev = Raise (KeyError b)).
Proof.
  unfold T.parse_comparison_evaluation. split; [|split].
  - intros Hlen. by destruct (projects ev) as [|a [|b [|]]].
  - intros a b -> Ha. by rewrite (project_index_getitem_unknown self a Ha).
  - intros a b -> [ia Ha]%project_index_known Hb.
    rewrite (project_index_getitem_Ok _ _ _ Ha). simpl.
    by rewrite (project_index_getitem_unknown self b Hb).
Qed.

(** X5: what [parse_range_evaluation] raises: ValueError unless there is
    exactly 1 project, whatever the values; then ValueError unless the
    values are a list of exactly 2; then KeyError when the project is
    unknown. *)
Theorem range_errors self ev :
  (length (projects ev) ≠ 1%nat ->
   T.parse_range_evaluation self ev =
   Raise (ValueError "Range evaluation must involve exactly 1 project")) /\
  (forall proj, projects ev = [proj] ->
   (forall lo hi, values ev ≠ Some [lo; hi]) ->
   T.parse_range_evaluation self ev =
   Raise (ValueError "Range evaluation must specify exactly 2 values (min, max)")) /\
  (forall proj lo hi, projects ev = [proj] -> values ev = Some [lo; hi] ->
   ~ known self proj ->
   T.parse_range_evaluation self ev = Raise (KeyError proj)).
Proof.
  unfold T.parse_range_evaluation. split; [|split].
  - intros Hlen. by destruct (projects ev) as [|a [|]].
  - intros proj -> Hv.
    destruct (values ev) as [[|lo [|hi [|]]]|]; try done. by destruct (Hv lo hi).
  - intros proj lo hi -> -> Hp.
    by rewrite (project_index_getitem_unknown self proj Hp).
Qed.

(** X6: what [parse_threshold_evaluation] raises: ValueError unless there
    is exactly 1 project; then ValueError unless the values are a list of
    exactly 1; then KeyError when the project is unknown, whatever the
    operator. *)
Theorem threshold_errors self ev :
  (length (projects ev) ≠ 1%nat ->
   T.parse_threshold_evaluation self ev =
   Raise (ValueError "Threshold evaluation must involve exactly 1 project")) /\
  (forall proj, projects ev = [proj] ->
   (forall t, values ev ≠ Some [t]) ->
   T.parse_threshold_evaluation self ev =
   Raise (ValueError "Threshold evaluation must specify exactly 1 threshold value")) /\
  (forall proj t, projects ev = [proj] -> values ev = Some [t] ->
   ~ known self proj ->
   T.parse_threshold_evaluation self ev = Raise (KeyError proj)).
Proof.
  unfold T.parse_threshold_evaluation. split; [|split].
  - intros Hlen. by destruct (projects ev) as [|a [|]].
  - intros proj -> Hv.
    destruct (values ev) as [[|t [|]]|]; try done. by destruct (Hv t).
  - intros proj t -> -> Hp.
    by rewrite (project_index_getitem_unknown self proj Hp).
Qed.

Lemma for_extend_raise_at {A B} (body : A -> result (list B)) xs x ys e :
  Forall (fun y => exists bs, body y = Ok bs) xs ->
  body x = Raise e ->
  for_extend body (xs ++ x :: ys) [] = Raise e.
Proof.
  intros Hxs Hx. rewrite for_extend_app.
  destruct (for_extend_Forall2 body (fun _ _ => True) xs) as (bss & _ & ->).
  { eapply Forall_impl; [exact Hxs|]. intros y [bs ?]. by exists bs. }
  simpl. by rewrite Hx.
Qed.

(** X7: a Ranking of at least 2 projects one of which is unknown raises
    KeyError on the first unknown project, and nothing of the pairs before
    it is kept: in a batch the whole Ranking gives no constraint and one
    error record. *)
Theorem ranking_unknown_project self ev before bad after :
  projects ev = before ++ bad :: after ->
  (2 <= length (projects ev))%nat ->
  Forall (known self) before ->
  ~ known self bad ->
  T.parse_ranking_evaluation self ev = Raise (KeyError bad) /\
  (evaluation_type ev = RANKING ->
   produced self ev = [] /\
   failure self ev = Some (LogErrorProcessing (evaluator_id ev) (KeyError bad))).
Proof.
  intros Hp Hk Hknown Hbad.
  assert (T.parse_ranking_evaluation self ev = Raise (KeyError bad)) as Hparse.
  { unfold T.parse_ranking_evaluation. rewrite decide_False by lia.
    assert (length (projects ev) = (length before + S (length after))%nat) as Hlen.
    { by rewrite Hp, length_app. }
    assert (forall i p, before !! i = Some p ->
              exists ip, T.project_index self !! p = Some ip) as Hidx.
    { intros i p Hi. apply project_index_known.
      rewrite Forall_forall in Hknown. by eapply Hknown, list_elem_of_lookup_2. }
    destruct before as [|p0 before'] using rev_ind.
    - (* the first project is unknown *)
      simpl in *. destruct after as [|q after]; [simpl in Hlen; lia|].
      rewrite Hlen. simpl.
      unfold T.ranking_body at 1, list_getitem. rewrite Hp. simpl.
      unfold T.parse_comparison_evaluation. simpl.
      by rewrite (project_index_getitem_unknown self bad Hbad).
    - clear IHbefore'. rewrite length_app in Hlen. simpl in Hlen.
      replace (length (projects ev) - 1)%nat
        with (length before' + S (length after))%nat by lia.
      rewrite seq_app. simpl.
      apply for_extend_raise_at.
      + apply Forall_forall. intros i Hi%elem_of_seq.
        assert (exists hi, (before' ++ [p0]) !! i = Some hi) as [hi Hhi].
        { apply lookup_lt_is_Some_2. rewrite length_app. simpl. lia. }
        assert (exists lo, (before' ++ [p0]) !! (i + 1)%nat = Some lo) as [lo Hlo].
        { apply lookup_lt_is_Some_2. rewrite length_app. simpl. lia. }
        destruct (Hidx _ _ Hhi) as [ia Ha]. destruct (Hidx _ _ Hlo) as [ib Hb].
        unfold T.ranking_body, list_getitem. rewrite Hp.
        rewrite (lookup_app_l_Some _ _ _ _ Hhi), (lookup_app_l_Some _ _ _ _ Hlo).
        simpl. erewrite parse_comparison_closed; [by eauto|done|done..].
      + destruct (Hidx (length before') p0) as [ia Ha].
        { by rewrite list_lookup_middle. }
        unfold T.ranking_body, list_getitem. rewrite Hp.
        rewrite <- app_assoc. simpl.
        rewrite (list_lookup_middle before' (bad :: after) p0 _ eq_refl). simpl.
        replace (length before' + 1)%nat with (S (length before')) by lia.
        rewrite (lookup_app_r before') by lia.
        replace (S (length before') - length before')%nat with 1%nat by lia.
        simpl. unfold T.parse_comparison_evaluation. simpl.
        rewrite (project_index_getitem_Ok _ _ _ Ha). simpl.
        by rewrite (project_index_getitem_unknown self bad Hbad). }
  split; [done|]. intros Hty.
  unfold produced, failure, T.dispatch. by rewrite Hty, Hparse.
Qed.

(** X8: a Comparison of a known project with itself is not refused: for
    [>], [<] and [=] the second write replaces the first, and each
    constraint has the single coefficient [-1] at the coordinate of the
    project and the criterion. *)
Theorem comparison_with_itself self ev a ia k :
  projects ev = [a; a] ->
  T.project_index self !! a = Some ia ->
  comparison_kind (operator ev) = Some k ->
  exists cs,
    T.parse_comparison_evaluation self ev = Ok cs /\
    length cs = T.n_criteria self /\
    forall c crit, T.self_criteria self !! c = Some crit ->
      exists con,
        cs !! c = Some con /\
        coefficients con = unit_row self ia c (-1)%Q /\
        bound con = k.1 /\ is_equality con = k.2.
Proof.
  intros Hp Ha Hk.
  rewrite (parse_comparison_closed self ev a a ia ia Hp Ha Ha), Hk.
  eexists. split; [reflexivity|].
  split; [by rewrite length_fmap, enumerate_length|].
  intros c crit Hc. eexists.
  split; [by rewrite list_lookup_fmap, enumerate_lookup, Hc|].
  simpl. split; [|done]. unfold unit_row. apply list_insert_insert_eq.
Qed.

(** X9: the index of the projects gives a name the position of its last
    occurrence in the list of projects, and only the names of the list have
    an index. *)
Theorem project_index_last self proj i :
  T.project_index self !! proj = Some i <->
  T.self_projects self !! i = Some proj /\
  forall j, (i < j)%nat -> T.self_projects self !! j ≠ Some proj.
Proof.
  destruct self as [ps cs es ks]. simpl. revert i.
  induction ps as [|p ps IH] using rev_ind; intros i.
  - unfold T.project_index. simpl. rewrite lookup_empty. split; [done|].
    by intros [? _].
  - rewrite project_index_snoc, lookup_insert. case_decide as Hp.
    + subst p. split.
      * intros [= <-]. split; [by rewrite list_lookup_middle|].
        intros j Hj. rewrite lookup_ge_None_2; [done|].
        rewrite length_app. simpl. lia.
      * intros [Hi Hlast]. f_equal.
        destruct (Nat.lt_trichotomy i (length ps)) as [Hlt|[->|Hgt]]; [|done|].
        -- destruct (Hlast (length ps) Hlt). by rewrite list_lookup_middle.
        -- apply lookup_lt_Some in Hi. rewrite length_app in Hi. simpl in Hi. lia.
    + rewrite IH. split.
      * intros [Hi Hlast]. split; [by apply lookup_app_l_Some|].
        intros j Hj Hjp. apply lookup_app_Some in Hjp as [Hjp|[_ Hjp]].
        -- by apply (Hlast j).
        -- apply list_lookup_singleton_Some in Hjp as [_ ?]. done.
      * intros [Hi Hlast].
        apply lookup_app_Some in Hi as [Hi|[_ Hi]].
        -- split; [done|]. intros j Hj Hjp. apply (Hlast j Hj).
           by apply lookup_app_l_Some.
        -- apply list_lookup_singleton_Some in Hi as [_ ?]. done.
Qed.

(** X10: translating after one more evaluation was added gives the
    constraints of before followed by those of the new evaluation: the
    translation of an evaluation does not depend on the others. *)
Theorem translate_after_add_evaluation self ev :
  (T.translate_evaluations (T.add_evaluation self ev)).1.1 =
  (T.translate_evaluations self).1.1 ++ produced self ev.
Proof.
  unfold T.translate_evaluations. rewrite !translate_loop. simpl.
  rewrite fmap_app, concat_app. simpl. by rewrite app_nil_r.
Qed.

(** X11: [get_constraint_matrices] translates only when the translator
    holds no constraint. Once it holds some, an evaluation added later is
    not in the matrices until [translate_evaluations] is called again; while
    it holds none, the matrices are those of all the evaluations. *)
Theorem matrices_ignore_later_evaluations self ev :
  (T.self_constraints self ≠ [] ->
   (T.get_constraint_matrices (T.add_evaluation self ev)).1 =
   (T.get_constraint_matrices self).1 /\
   T.self_constraints (T.get_constraint_matrices (T.add_evaluation self ev)).2 =
   T.self_constraints self) /\
  (T.self_constraints self = [] ->
   T.self_constraints (T.get_constraint_matrices (T.add_evaluation self ev)).2 =
   concat (produced self <$> T.self_evaluations self) ++ produced self ev).
Proof.
  split.
  - intros Hne. unfold T.get_constraint_matrices. simpl.
    destruct (T.self_constraints self) as [|c cs] eqn:Hcs; [done|].
    simpl. by rewrite Hcs.
  - intros Hnil. unfold T.get_constraint_matrices. simpl. rewrite Hnil.
    unfold T.translate_evaluations. rewrite translate_loop. simpl.
    rewrite fmap_app, concat_app. simpl. by rewrite app_nil_r.
Qed.

(** What [get_constraint_matrices] gives for constraints of the right
    size, and the translator it leaves. *)
Lemma get_constraint_matrices_uniform self :
  uniform self ->
  let self' := match T.self_constraints self with
               | [] => (T.translate_evaluations self).2
               | _ => self
               end in
  let cs := T.self_constraints self' in
  let n := (T.n_projects self * T.n_criteria self)%nat in
  exists A_ineq A_eq,
    T.get_constraint_matrices self =
      (Ok (A_ineq, bound <$> filter (fun c => is_equality c = false) cs,
           A_eq, bound <$> filter (fun c => is_equality c = true) cs), self') /\
    ncols A_ineq = n /\ ncols A_eq = n /\
    rows A_ineq = coefficients <$> filter (fun c => is_equality c = false) cs /\
    rows A_eq = coefficients <$> filter (fun c => is_equality c = true) cs /\
    T.n_projects self' = T.n_projects self /\
    T.n_criteria self' = T.n_criteria self /\
    uniform self'.
Proof.
  intros Hu. unfold T.get_constraint_matrices.
  set (self1 := match T.self_constraints self with
                | [] => (T.translate_evaluations self).2
                | _ => self
                end).
  assert (uniform self1 /\ T.n_projects self1 = T.n_projects self /\
          T.n_criteria self1 = T.n_criteria self) as (Hu1 & Hnp & Hnc).
  { unfold self1. destruct (T.self_constraints self); [|done].
    destruct (translate_evaluations_uniform self) as (Hp & Hc & _ & _ & ?).
    unfold T.n_projects, T.n_criteria. by rewrite Hp, Hc. }
  destruct (stack_part self1
              (filter (fun c => is_equality c = false) (T.self_constraints self1)))
    as (A_ineq & -> & Hcols1 & Hrows1).
  { by apply Forall_filter_sub. }
  destruct (stack_part self1
              (filter (fun c => is_equality c = true) (T.self_constraints self1)))
    as (A_eq & -> & Hcols2 & Hrows2).
  { by apply Forall_filter_sub. }
  simpl. exists A_ineq, A_eq. split; [reflexivity|].
  rewrite Hcols1, Hcols2, Hnp, Hnc. done.
Qed.

(** Each constraint is an inequality or an equality. *)
Lemma length_filter_is_equality (cs : list LinearConstraint) :
  (length (filter (fun c => is_equality c = false) cs) +
   length (filter (fun c => is_equality c = true) cs) = length cs)%nat.
Proof.
  induction cs as [|c cs IH]; [done|].
  rewrite !filter_cons. destruct (is_equality c) eqn:Hc.
  - rewrite decide_False, decide_True by done. simpl. lia.
  - rewrite decide_True, decide_False by done. simpl. lia.
Qed.

(** X12: for a translator whose constraints are of the right size (those
    it generates are), [get_constraint_matrices] returns; both matrices
    have one column per project and criterion; the inequality constraints
    give the rows of [A_ineq] and [b_ineq] and the equality constraints
    those of [A_eq] and [b_eq], each in the order of the list of
    constraints; no constraint is lost. *)
Theorem constraint_matrices self :
  uniform self ->
  exists A_ineq b_ineq A_eq b_eq self',
    T.get_constraint_matrices self = (Ok (A_ineq, b_ineq, A_eq, b_eq), self') /\
    let cs := T.self_constraints self' in
    let n := (T.n_projects self * T.n_criteria self)%nat in
    ncols A_ineq = n /\ ncols A_eq = n /\
    rows A_ineq = coefficients <$> filter (fun c => is_equality c = false) cs /\
    b_ineq = bound <$> filter (fun c => is_equality c = false) cs /\
    rows A_eq = coefficients <$> filter (fun c => is_equality c = true) cs /\
    b_eq = bound <$> filter (fun c => is_equality c = true) cs /\
    (length b_ineq + length b_eq = length cs)%nat.
Proof.
  intros Hu.
  destruct (get_constraint_matrices_uniform self Hu)
    as (A_ineq & A_eq & Hm & Hc1 & Hc2 & Hr1 & Hr2 & _).
  do 5 eexists. split; [exact Hm|]. simpl.
  do 6 (split; [done|]).
  rewrite !length_fmap. apply length_filter_is_equality.
Qed.

Lemma np_vstack_ragged rs r1 r2 :
  r1 ∈ rs -> r2 ∈ rs -> length r1 ≠ length r2 ->
  exists msg, np_vstack rs = Raise (ValueError msg).
Proof.
  intros H1 H2 Hlen. unfold np_vstack.
  destruct rs as [|r rs]; [by eauto|].
  destruct (forallb _ _) eqn:Hall; [|by eauto].
  exfalso. rewrite forallb_forall in Hall.
  apply Hlen.
  rewrite (proj1 (Nat.eqb_eq _ _) (Hall r1 (proj1 (list_elem_of_In _ _) H1))).
  by rewrite (proj1 (Nat.eqb_eq _ _) (Hall r2 (proj1 (list_elem_of_In _ _) H2))).
Qed.

(** X13: when a caller has put into the list of constraints two inequality
    constraints whose coefficient vectors differ in length,
    [get_constraint_matrices] raises ValueError and a visualizer cannot be
    built. *)
Theorem ragged_constraints_raise self c1 c2 :
  c1 ∈ T.self_constraints self -> c2 ∈ T.self_constraints self ->
  is_equality c1 = false -> is_equality c2 = false ->
  length (coefficients c1) ≠ length (coefficients c2) ->
  exists msg,
    (T.get_constraint_matrices self).1 = Raise (ValueError msg) /\
    V.init self = Raise (ValueError msg).
Proof.
  intros H1 H2 He1 He2 Hlen.
  assert (exists msg, (T.get_constraint_matrices self).1 = Raise (ValueError msg))
    as [msg Hm].
  { unfold T.get_constraint_matrices.
    destruct (T.self_constraints self) as [|c0 cs0] eqn:Hcs.
    { by apply elem_of_nil in H1. }
    rewrite <- Hcs in *. clear c0 cs0 Hcs.
    destruct (np_vstack_ragged
                (coefficients <$> filter (fun c => is_equality c = false)
                                    (T.self_constraints self))
                (coefficients c1) (coefficients c2)) as [msg Hv]; [| |done|].
    { by apply list_elem_of_fmap_2, list_elem_of_filter. }
    { by apply list_elem_of_fmap_2, list_elem_of_filter. }
    exists msg.
    assert (c1 ∈ filter (fun c => is_equality c = false) (T.self_constraints self))
      as Hin by (by apply list_elem_of_filter).
    destruct (filter (fun c => is_equality c = false) (T.self_constraints self))
      as [|c cs] eqn:Hf; [by apply elem_of_nil in Hin|].
    rewrite Hv. done. }
  exists msg. split; [done|].
  unfold V.init.
  destruct (T.self_constraints self) as [|c0 cs0] eqn:Hcs.
  { by apply elem_of_nil in H1. }
  destruct (T.get_constraint_matrices self) as [m tr']. simpl in Hm. by rewrite Hm.
Qed.

(** * What the constraints mean for the vertices *)

Lemma dot_nil_r r : dot r [] = 0%Q.
Proof. unfold dot. by destruct r. Qed.

Lemma dot_cons a r b x : dot (a :: r) (b :: x) = (a * b + dot r x)%Q.
Proof. done. Qed.

Lemma dot_zeros n x : (dot (np_zeros n) x == 0)%Q.
Proof.
  revert x. induction n as [|n IH]; intros [|b x]; try done.
  change (np_zeros (S n)) with (0%Q :: np_zeros n).
  rewrite dot_cons, IH. ring.
Qed.

(** Changing one coefficient changes the product by the difference times
    the coordinate. *)
Lemma dot_insert r x p c rp xp :
  r !! p = Some rp -> x !! p = Some xp ->
  (dot (<[p:=c]> r) x == dot r x + (c - rp) * xp)%Q.
Proof.
  revert x p. induction r as [|a r IH]; intros [|b x] [|p]; try done.
  - intros [= ->] [= ->]. simpl. rewrite !dot_cons. ring.
  - intros Hr Hx. simpl in Hr, Hx.
    change (<[S p:=c]> (a :: r)) with (a :: <[p:=c]> r).
    rewrite !dot_cons, (IH x p Hr Hx). ring.
Qed.

Lemma dot_unit_row self idx c s x xp :
  (idx < T.n_projects self)%nat -> (c < T.n_criteria self)%nat ->
  x !! variable_index self idx c = Some xp ->
  (dot (unit_row self idx c s) x == s * xp)%Q.
Proof.
  intros Hi Hc Hx. unfold unit_row.
  rewrite (dot_insert _ x _ s 0%Q xp); [|apply lookup_replicate_2|done].
  - rewrite dot_zeros. ring.
  - by apply variable_index_lt.
Qed.

Lemma dot_comparison_row self ia ib c x xa xb :
  ia ≠ ib ->
  (ia < T.n_projects self)%nat -> (ib < T.n_projects self)%nat ->
  (c < T.n_criteria self)%nat ->
  x !! variable_index self ia c = Some xa ->
  x !! variable_index self ib c = Some xb ->
  (dot (<[variable_index self ib c := (-1)%Q]>
          (<[variable_index self ia c := 1%Q]>
             (np_zeros (T.n_projects self * T.n_criteria self)))) x
   == xa - xb)%Q.
Proof.
  intros Hne Ha Hb Hc Hxa Hxb.
  assert (variable_index self ia c ≠ variable_index self ib c) as Hp.
  { intros [? _]%variable_index_inj; done. }
  rewrite (dot_insert _ x _ _ 0%Q xb); [| |done].
  - rewrite (dot_insert _ x _ _ 0%Q xa); [|apply lookup_replicate_2|done].
    + rewrite dot_zeros. ring.
    + by apply variable_index_lt.
  - rewrite list_lookup_insert_ne by done. apply lookup_replicate_2.
    by apply variable_index_lt.
Qed.

(** ** From the evaluations to the vertices *)

(** The constraints that the translator of a visualizer holds: those it
    held already, or else those of its evaluations. *)
Lemma init_translator tr vis :
  V.init tr = Ok vis ->
  T.self_projects (V.self_translator vis) = T.self_projects tr /\
  T.self_criteria (V.self_translator vis) = T.self_criteria tr /\
  T.self_constraints (V.self_translator vis) =
    match T.self_constraints tr with
    | [] => concat (produced tr <$> T.self_evaluations tr)
    | cs => cs
    end /\
  rows (V.self_A_ineq vis) =
    coefficients <$> filter (fun c => is_equality c = false)
                       (T.self_constraints (V.self_translator vis)) /\
  V.self_b_ineq vis =
    bound <$> filter (fun c => is_equality c = false)
                (T.self_constraints (V.self_translator vis)).
Proof.
  unfold V.init.
  set (tr1 := match T.self_constraints tr with
              | [] => (T.translate_evaluations tr).2
              | _ => tr
              end).
  destruct (T.get_constraint_matrices tr1)
    as [[[[[A_ineq b_ineq] A_eq] b_eq]|e] tr2] eqn:Hm; simpl; [|done].
  intros [= <-]. simpl.
  pose proof (get_constraint_matrices_Ok _ _ _ _ _ _ Hm) as (Hr & Hb & _ & _).
  assert (tr2 = match T.self_constraints tr1 with
                | [] => (T.translate_evaluations tr1).2
                | _ => tr1
                end) as Htr2.
  { unfold T.get_constraint_matrices in Hm. by injection Hm as _ <-. }
  assert (T.self_projects tr1 = T.self_projects tr /\
          T.self_criteria tr1 = T.self_criteria tr /\
          T.self_evaluations tr1 = T.self_evaluations tr /\
          T.self_constraints tr1 =
            match T.self_constraints tr with
            | [] => concat (produced tr <$> T.self_evaluations tr)
            | cs => cs
            end) as (Hp1 & Hc1 & He1 & Hk1).
  { unfold tr1. destruct (T.self_constraints tr) eqn:Hcs; [|done].
    unfold T.translate_evaluations. rewrite translate_loop. done. }
  assert (T.self_projects tr2 = T.self_projects tr1 /\
          T.self_criteria tr2 = T.self_criteria tr1 /\
          T.self_constraints tr2 = T.self_constraints tr1) as (Hp2 & Hc2 & Hk2).
  { rewrite Htr2. destruct (T.self_constraints tr1) eqn:Hcs; [|done].
    unfold T.translate_evaluations. rewrite translate_loop. simpl.
    do 2 (split; [done|]).
    assert (produced tr1 = produced tr) as ->.
    { unfold tr1. destruct (T.self_constraints tr); [|done].
      unfold T.translate_evaluations. by rewrite translate_loop. }
    rewrite He1. rewrite Hk1 in Hcs.
    destruct (T.self_constraints tr); [done|]. done. }
  rewrite Hp2, Hc2, Hp1, Hc1. do 2 (split; [done|]).
  split; [by rewrite Hk2, Hk1|]. done.
Qed.

Section Meaning.
Context `{Libs}.

(** A vertex that is returned was accepted. *)
Lemma returned_vertex_accepted tr vis bounds vs v :
  V.init tr = Ok vis ->
  (V.compute_vertices vis bounds).1 = Ok vs ->
  v ∈ vs ->
  satisfies_inequalities vis v /\
  inside_bounds vis (default (V.default_bounds vis) bounds) v /\
  length v = ncols (V.self_A_ineq vis).
Proof.
  intros Hinit He Hv.
  rewrite (compute_vertices_init tr vis bounds Hinit) in He.
  apply enumerate_intersections_Ok in He as (candidates & Hcand & Hdedup).
  apply remove_duplicates_spec in Hdedup as [(added & -> & Hsub & _) _].
  simpl in Hv. apply Hsub in Hv.
  by apply (accepted_candidates_accept vis bounds candidates v Hcand Hv).
Qed.

(** X14: every vertex that [compute_vertices] returns for a visualizer
    built from a translator satisfies, within [1e-10], every inequality
    constraint that the translator holds, read as
    [coefficients . v <= bound]. *)
Theorem vertices_satisfy_translator_constraints tr vis bounds vs v c :
  V.init tr = Ok vis ->
  (V.compute_vertices vis bounds).1 = Ok vs ->
  v ∈ vs ->
  c ∈ T.self_constraints (V.self_translator vis) ->
  is_equality c = false ->
  (dot (coefficients c) v <= bound c + V.slack)%Q.
Proof.
  intros Hinit He Hv Hc Heq.
  destruct (returned_vertex_accepted tr vis bounds vs v Hinit He Hv) as (Hsat & _).
  destruct (init_translator tr vis Hinit) as (_ & _ & _ & Hrows & Hb).
  unfold satisfies_inequalities in Hsat. rewrite Hrows, Hb in Hsat.
  assert (c ∈ filter (fun c => is_equality c = false)
                (T.self_constraints (V.self_translator vis))) as Hin.
  { by apply list_elem_of_filter. }
  apply list_elem_of_lookup in Hin as [i Hi].
  eapply (Forall2_lookup_lr _ _ _ i _ _ Hsat); by rewrite list_lookup_fmap, Hi.
Qed.

(** For a translator that has not translated yet, the visualizer reads the
    constraints of its evaluations, and a vertex has one coordinate per
    project and criterion. *)
Lemma fresh_vertex tr vis bounds vs v :
  T.self_constraints tr = [] ->
  V.init tr = Ok vis ->
  (V.compute_vertices vis bounds).1 = Ok vs ->
  v ∈ vs ->
  length v = (T.n_projects tr * T.n_criteria tr)%nat /\
  forall ev c, ev ∈ T.self_evaluations tr -> c ∈ produced tr ev ->
    is_equality c = false ->
    (dot (coefficients c) v <= bound c + V.slack)%Q.
Proof.
  intros Hfresh Hinit He Hv.
  destruct (returned_vertex_accepted tr vis bounds vs v Hinit He Hv)
    as (Hsat & _ & Hlen).
  split.
  - assert (uniform tr) as Hu by (unfold uniform; rewrite Hfresh; constructor).
    destruct (init_Ok tr Hu) as (vis' & Hinit' & [_ Hwf] & Hdim).
    rewrite Hinit in Hinit'. injection Hinit' as <-.
    by rewrite Hlen, Hwf.
  - intros ev c Hev Hc Heq.
    destruct (init_translator tr vis Hinit) as (_ & _ & Hcs & Hrows & Hb).
    rewrite Hfresh in Hcs.
    unfold satisfies_inequalities in Hsat. rewrite Hrows, Hb, Hcs in Hsat.
    assert (c ∈ filter (fun c => is_equality c = false)
                  (concat (produced tr <$> T.self_evaluations tr))) as Hin.
    { apply list_elem_of_filter. split; [done|].
      apply elem_of_concat. exists (produced tr ev). split; [|done].
      apply list_elem_of_fmap. by exists ev. }
    apply list_elem_of_lookup in Hin as [i Hi].
    eapply (Forall2_lookup_lr _ _ _ i _ _ Hsat); by rewrite list_lookup_fmap, Hi.
Qed.

(** X15: a Range [[lo, hi]] with [lo] below [hi] (by more than [2e-10])
    on a project of a translator that has not translated yet leaves no
    vertex: its two rows, read as [A x <= b], ask for [x <= lo] and
    [x >= hi]. *)
Theorem range_below_its_maximum_has_no_vertex tr vis bounds vs ev proj lo hi :
  T.self_constraints tr = [] ->
  T.self_criteria tr ≠ [] ->
  ev ∈ T.self_evaluations tr ->
  evaluation_type ev = RANGE ->
  projects ev = [proj] ->
  values ev = Some [lo; hi] ->
  known tr proj ->
  (lo + 2 * V.slack < hi)%Q ->
  V.init tr = Ok vis ->
  (V.compute_vertices vis bounds).1 = Ok vs ->
  vs = [].
Proof.
  intros Hfresh Hcrit Hev Hty Hp Hv Hknown Hlt Hinit He.
  destruct vs as [|v vs']; [done|]. exfalso.
  destruct (fresh_vertex tr vis bounds (v :: vs') v Hfresh Hinit He)
    as [Hlen Hall]; [by left|].
  apply project_index_known in Hknown as [idx Hidx].
  pose proof (project_index_lt _ _ _ Hidx) as Hi.
  assert (0 < T.n_criteria tr)%nat as Hc.
  { unfold T.n_criteria. destruct (T.self_criteria tr); [done|simpl; lia]. }
  destruct (lookup_lt_is_Some_2 (T.self_criteria tr) 0) as [crit Hcr]; [done|].
  assert (produced tr ev =
          concat ((fun c => [range_lower tr ev proj idx lo c;
                             range_upper tr ev proj idx hi c])
                    <$> enumerate (T.self_criteria tr))) as Hprod.
  { unfold produced, T.dispatch. rewrite Hty.
    by rewrite (parse_range_closed tr ev proj idx lo hi Hp Hv Hidx). }
  destruct (concat_pairs_lookup (range_lower tr ev proj idx lo)
              (range_upper tr ev proj idx hi)
              (enumerate (T.self_criteria tr)) 0) as [H1 H2].
  rewrite enumerate_lookup, Hcr in H1, H2.
  rewrite <- Hprod in H1, H2.
  destruct (lookup_lt_is_Some_2 v (variable_index tr idx 0)) as [x Hx].
  { rewrite Hlen. by apply variable_index_lt. }
  pose proof (Hall ev _ Hev (list_elem_of_lookup_2 _ _ _ H1) eq_refl) as Hlo.
  pose proof (Hall ev _ Hev (list_elem_of_lookup_2 _ _ _ H2) eq_refl) as Hhi.
  simpl in Hlo, Hhi.
  rewrite (dot_unit_row tr idx 0 _ v x Hi Hc Hx) in Hlo.
  rewrite (dot_unit_row tr idx 0 _ v x Hi Hc Hx) in Hhi.
  lra.
Qed.

(** X16: a Comparison [a > b] (and likewise [a < b]) between two different
    projects of a translator that has not translated yet holds every
    vertex, at every criterion, to [x_a - x_b <= -0.01] (within [1e-10]):
    the coordinate of the first project is the smaller one. *)
Theorem comparison_greater_puts_first_below tr vis bounds vs v ev a b ia ib c :
  T.self_constraints tr = [] ->
  ev ∈ T.self_evaluations tr ->
  evaluation_type ev = COMPARISON ->
  projects ev = [a; b] ->
  operator ev = Some GREATER \/ operator ev = Some LESS ->
  a ≠ b ->
  T.project_index tr !! a = Some ia ->
  T.project_index tr !! b = Some ib ->
  (c < T.n_criteria tr)%nat ->
  V.init tr = Ok vis ->
  (V.compute_vertices vis bounds).1 = Ok vs ->
  v ∈ vs ->
  exists xa xb,
    v !! variable_index tr ia c = Some xa /\
    v !! variable_index tr ib c = Some xb /\
    (xa - xb <= - (1 # 100) + V.slack)%Q.
Proof.
  intros Hfresh Hev Hty Hp Hop Hne Ha Hb Hc Hinit He Hv.
  destruct (fresh_vertex tr vis bounds vs v Hfresh Hinit He Hv) as [Hlen Hall].
  assert (ia ≠ ib) as Hi by (intros ->; by eapply Hne, project_index_inj).
  pose proof (project_index_lt _ _ _ Ha) as Hia.
  pose proof (project_index_lt _ _ _ Hb) as Hib.
  destruct (lookup_lt_is_Some_2 v (variable_index tr ia c)) as [xa Hxa].
  { rewrite Hlen. by apply variable_index_lt. }
  destruct (lookup_lt_is_Some_2 v (variable_index tr ib c)) as [xb Hxb].
  { rewrite Hlen. by apply variable_index_lt. }
  exists xa, xb. do 2 (split; [done|]).
  destruct (lookup_lt_is_Some_2 (T.self_criteria tr) c) as [crit Hcrit]; [done|].
  assert (comparison_kind (operator ev) = Some ((-1 # 100)%Q, false)) as Hk.
  { by destruct Hop as [-> | ->]. }
  assert (comparison_constraint tr ev a b ia ib ((-1 # 100)%Q, false) (c, crit)
            ∈ produced tr ev) as Hin.
  { unfold produced, T.dispatch. rewrite Hty.
    rewrite (parse_comparison_closed tr ev a b ia ib Hp Ha Hb), Hk.
    apply list_elem_of_fmap. exists (c, crit). split; [done|].
    apply (list_elem_of_lookup_2 _ c). by rewrite enumerate_lookup, Hcrit. }
  pose proof (Hall ev _ Hev Hin eq_refl) as Hle. simpl in Hle.
  rewrite (dot_comparison_row tr ia ib c v xa xb Hi Hia Hib Hc Hxa Hxb) in Hle.
  lra.
Qed.

(** X17: a Threshold on a project of a translator that has not translated
    yet holds every vertex, at every criterion, to [x <= t] for the
    operator [>=] and to [x >= t] for [<=] (within [1e-10]). *)
Theorem threshold_bounds_from_the_other_side tr vis bounds vs v ev proj idx t c :
  T.self_constraints tr = [] ->
  ev ∈ T.self_evaluations tr ->
  evaluation_type ev = THRESHOLD ->
  projects ev = [proj] ->
  values ev = Some [t] ->
  T.project_index tr !! proj = Some idx ->
  (c < T.n_criteria tr)%nat ->
  V.init tr = Ok vis ->
  (V.compute_vertices vis bounds).1 = Ok vs ->
  v ∈ vs ->
  exists x,
    v !! variable_index tr idx c = Some x /\
    (operator ev = Some GREATER_EQUAL -> (x <= t + V.slack)%Q) /\
    (operator ev = Some LESS_EQUAL -> (t - V.slack <= x)%Q).
Proof.
  intros Hfresh Hev Hty Hp Hval Hidx Hc Hinit He Hv.
  destruct (fresh_vertex tr vis bounds vs v Hfresh Hinit He Hv) as [Hlen Hall].
  pose proof (project_index_lt _ _ _ Hidx) as Hi.
  destruct (lookup_lt_is_Some_2 v (variable_index tr idx c)) as [x Hx].
  { rewrite Hlen. by apply variable_index_lt. }
  exists x. split; [done|].
  destruct (lookup_lt_is_Some_2 (T.self_criteria tr) c) as [crit Hcrit]; [done|].
  assert ((c, crit) ∈ enumerate (T.self_criteria tr)) as Hcin.
  { apply (list_elem_of_lookup_2 _ c). by rewrite enumerate_lookup, Hcrit. }
  pose proof (parse_threshold_closed tr ev proj idx t Hp Hval Hidx) as Hparse.
  split; intros Hop; rewrite Hop in Hparse.
  - assert (threshold_constraint tr ev proj idx 1%Q t (c, crit) ∈ produced tr ev)
      as Hin.
    { unfold produced, T.dispatch. rewrite Hty, Hparse.
      apply list_elem_of_fmap. by exists (c, crit). }
    pose proof (Hall ev _ Hev Hin eq_refl) as Hle. simpl in Hle.
    rewrite (dot_unit_row tr idx c _ v x Hi Hc Hx) in Hle. lra.
  - assert (threshold_constraint tr ev proj idx (-1)%Q (- t)%Q (c, crit)
              ∈ produced tr ev) as Hin.
    { unfold produced, T.dispatch. rewrite Hty, Hparse.
      apply list_elem_of_fmap. by exists (c, crit). }
    pose proof (Hall ev _ Hev Hin eq_refl) as Hle. simpl in Hle.
    rewrite (dot_unit_row tr idx c _ v x Hi Hc Hx) in Hle. lra.
Qed.

End Meaning.

(** * The edges of the vertex computation *)

Lemma combinations_short {A} (xs : list A) k :
  (length xs < k)%nat -> combinations xs k = [].
Proof.
  revert k. induction xs as [|x xs IH]; intros [|k] Hk; simpl in *; try lia; [done|].
  rewrite (IH k), (IH (S k)) by lia. done.
Qed.

Section Edges.
Context `{Libs}.

(** X18: the bounds only filter, they are never among the hyperplanes
    that are intersected: a visualizer with fewer inequality constraints
    than dimensions has no vertex, whatever the bounds. *)
Theorem fewer_constraints_than_dimensions tr vis bounds :
  V.init tr = Ok vis ->
  (length (V.self_b_ineq vis) < V.self_n_dimensions vis)%nat ->
  (V.compute_vertices vis bounds).1 = Ok [].
Proof.
  intros Hinit Hlt.
  rewrite (compute_vertices_init tr vis bounds Hinit).
  unfold V.enumerate_intersections, V.constraint_combinations.
  rewrite combinations_short; [done|]. by rewrite length_seq.
Qed.

(** X19: on a visualizer just built from a translator, which has no
    vertices cached, a call with bounds for fewer coordinates than the
    visualizer has dimensions returns no vertex if it returns: a candidate
    that reaches the missing bound raises [IndexError], which the loop does
    not catch. (Once vertices are cached, a later call returns them
    without reading its bounds.) *)
Theorem short_bounds_give_no_vertex tr vis bs vs :
  V.init tr = Ok vis ->
  (length bs < V.self_n_dimensions vis)%nat ->
  (V.compute_vertices vis (Some bs)).1 = Ok vs ->
  vs = [].
Proof.
  intros Hinit Hlt He.
  destruct vs as [|v vs']; [done|]. exfalso.
  destruct (returned_vertex_accepted tr vis (Some bs) (v :: vs') v Hinit He)
    as (_ & Hin & _); [by left|].
  destruct (Hin (length bs) Hlt) as (b & x & Hb & _).
  simpl in Hb. by rewrite lookup_ge_None_2 in Hb.
Qed.

End Edges.

Section Total.
Context `{Libs} `{!LibsLaws}.

(** X20: when [numpy.linalg] raises nothing but [LinAlgError] and
    [ValueError], and the constraints of the translator have one
    coefficient per project and criterion, the visualizer is built and
    [compute_vertices] returns for every list of bounds that is long
    enough, and without bounds. *)
Theorem compute_vertices_does_not_raise tr bounds :
  uniform tr ->
  match bounds with
  | Some bs => (T.n_projects tr * T.n_criteria tr <= length bs)%nat
  | None => True
  end ->
  exists vis vs,
    V.init tr = Ok vis /\
    V.compute_vertices vis bounds = (Ok vs, V.set_vertices vis vs).
Proof.
  intros Hu Hb.
  destruct (compute_vertices_returns tr bounds Hu Hb) as (vis & vs & Hinit & Hvs).
  exists vis, vs. split; [done|].
  apply init_inv in Hinit as (Hc & A_eq & HA & _).
  rewrite (compute_vertices_fallback vis A_eq bounds Hc HA) in Hvs.
  rewrite (compute_vertices_fallback vis A_eq bounds Hc HA).
  destruct (V.enumerate_intersections vis bounds); simpl in Hvs; by simplify_eq.
Qed.

End Total.

(** * Validation and the wizard's backend *)

Lemma dict_append_dom key x (d : gmap string pyvalue) :
  dom (dict_append key x d) = dom d.
Proof.
  unfold dict_append. destruct (d !! key) as [v|] eqn:Hk; [|done].
  destruct v; try done.
  rewrite dom_insert_L. apply elem_of_dom_2 in Hk.
  apply subseteq_union_1_L. by apply singleton_subseteq_l.
Qed.

Lemma dict_append_lookup_ne key k x (d : gmap string pyvalue) :
  key ≠ k -> dict_append key x d !! k = d !! k.
Proof.
  intros Hne. unfold dict_append. destruct (d !! key) as [v|]; [|done].
  destruct v; try done. by rewrite lookup_insert_ne.
Qed.

(** ** Which constraints are inequalities *)

Lemma comparison_body_inequality self ev a b ia ib c bs :
  operator ev ≠ Some EQUAL ->
  T.comparison_body self ev a b ia ib c = Ok bs ->
  Forall (fun c => is_equality c = false) bs.
Proof.
  intros Hop. destruct c as [ci crit]. unfold T.comparison_body.
  destruct (operator ev) as [[]|]; simpl; try done;
    try (intros [= <-]; constructor);
    (destruct (np_setitem _ _ _) as [?|?]; simpl; [|done]);
    (destruct (np_setitem _ _ _) as [?|?]; simpl; [|done]);
    intros [= <-]; by repeat constructor.
Qed.

Lemma parse_comparison_inequality self ev cs :
  operator ev ≠ Some EQUAL ->
  T.parse_comparison_evaluation self ev = Ok cs ->
  Forall (fun c => is_equality c = false) cs.
Proof.
  intros Hop. unfold T.parse_comparison_evaluation.
  destruct (projects ev) as [|a [|b [|]]]; try done.
  destruct (T.project_index_getitem self a) as [ia|]; simpl; [|done].
  destruct (T.project_index_getitem self b) as [ib|]; simpl; [|done].
  apply for_extend_Forall. intros c bs. by apply comparison_body_inequality.
Qed.

Lemma parse_range_inequality self ev cs :
  T.parse_range_evaluation self ev = Ok cs ->
  Forall (fun c => is_equality c = false) cs.
Proof.
  unfold T.parse_range_evaluation.
  destruct (projects ev) as [|a [|]]; try done.
  destruct (values ev) as [[|lo [|hi [|]]]|]; try done.
  destruct (T.project_index_getitem self a) as [ia|]; simpl; [|done].
  apply for_extend_Forall. intros [ci crit] bs. unfold T.range_body.
  destruct (np_setitem _ _ _) as [?|?]; simpl; [|done].
  destruct (np_setitem _ _ _) as [?|?]; simpl; [|done].
  intros [= <-]. by repeat constructor.
Qed.

Lemma parse_threshold_inequality self ev cs :
  T.parse_threshold_evaluation self ev = Ok cs ->
  Forall (fun c => is_equality c = false) cs.
Proof.
  unfold T.parse_threshold_evaluation.
  destruct (projects ev) as [|a [|]]; try done.
  destruct (values ev) as [[|t [|]]|]; try done.
  destruct (T.project_index_getitem self a) as [ia|]; simpl; [|done].
  apply for_extend_Forall. intros [ci crit] bs. unfold T.threshold_body.
  destruct (operator ev) as [[]|]; simpl;
    try (intros [= <-]; constructor);
    (destruct (np_setitem _ _ _) as [?|?]; simpl; [|done]);
    intros [= <-]; by repeat constructor.
Qed.

Lemma parse_ranking_inequality self ev cs :
  T.parse_ranking_evaluation self ev = Ok cs ->
  Forall (fun c => is_equality c = false) cs.
Proof.
  unfold T.parse_ranking_evaluation. case_decide; [done|].
  apply for_extend_Forall. intros i bs. unfold T.ranking_body.
  destruct (list_getitem (projects ev) i) as [hi|]; simpl; [|done].
  destruct (list_getitem (projects ev) (i + 1)) as [lo|]; simpl; [|done].
  by apply parse_comparison_inequality.
Qed.

(** Only a Comparison with [=] gives equality constraints. *)
Lemma produced_inequality self ev :
  ~ (evaluation_type ev = COMPARISON /\ operator ev = Some EQUAL) ->
  Forall (fun c => is_equality c = false) (produced self ev).
Proof.
  intros Hne. unfold produced, T.dispatch.
  destruct (evaluation_type ev) eqn:Hty.
  - destruct (T.parse_comparison_evaluation self ev) eqn:Hp; [|done].
    eapply parse_comparison_inequality; [|done]. intros Hop. by apply Hne.
  - destruct (T.parse_range_evaluation self ev) eqn:Hp; [|done].
    by eapply parse_range_inequality.
  - destruct (T.parse_ranking_evaluation self ev) eqn:Hp; [|done].
    by eapply parse_ranking_inequality.
  - done.
  - destruct (T.parse_threshold_evaluation self ev) eqn:Hp; [|done].
    by eapply parse_threshold_inequality.
Qed.

Lemma filter_is_equality_nil (cs : list LinearConstraint) :
  Forall (fun c => is_equality c = false) cs ->
  filter (fun c => is_equality c = true) cs = [].
Proof.
  induction 1 as [|c cs Hc _ IH]; [done|].
  rewrite filter_cons, decide_False; [done|]. by rewrite Hc.
Qed.

Section Validation.
Context `{Rank}.

Import TranslatorValidation.

(** The dictionary before the two checks. *)
Lemma validate_constraints_inv self d :
  (validate_constraints self).1 = Ok d ->
  exists A_ineq b_ineq A_eq b_eq self' (d0 d1 : gmap string pyvalue),
    T.get_constraint_matrices self = (Ok (A_ineq, b_ineq, A_eq, b_eq), self') /\
    d0 = {[ "n_inequality_constraints" := PyInt (length b_ineq);
            "n_equality_constraints" := PyInt (length b_eq);
            "total_constraints" := PyInt (length b_ineq + length b_eq);
            "n_variables" := PyInt (T.n_projects self' * T.n_criteria self');
            "is_overconstrained" := PyBool false;
            "warnings" := PyList [] ]} /\
    d1 = (if decide (T.n_projects self' * T.n_criteria self' < length b_eq)%nat
          then dict_append "warnings"
                 (PyStr "System may be overconstrained (more equality constraints than variables)")
                 (<["is_overconstrained" := PyBool true]> d0)
          else d0) /\
    (d = d1 \/ exists w, d = dict_append "warnings" w d1) /\
    (length b_eq = 0%nat -> d = d0).
Proof.
  unfold validate_constraints.
  destruct (T.get_constraint_matrices self)
    as [[[[[A_ineq b_ineq] A_eq] b_eq]|e] self'] eqn:Hm; simpl; [|done].
  intros [= <-]. do 7 eexists. split; [reflexivity|].
  split; [reflexivity|]. split; [reflexivity|]. split.
  - destruct (decide (0 < length b_eq)%nat); [|by left].
    destruct (ranks A_eq b_eq) as [[ra rab]|e]; [|by eauto].
    destruct (decide (ra ≠ rab)); by eauto.
  - intros Hz. rewrite Hz.
    rewrite !decide_False by lia. done.
Qed.

(** X21: the dictionary that [validate_constraints] returns has the six
    keys it starts with and no other; in particular, none named
    [is_feasible]. *)
Theorem validation_keys self d :
  (validate_constraints self).1 = Ok d ->
  dom d = ({[ "n_inequality_constraints"; "n_equality_constraints";
              "total_constraints"; "n_variables"; "is_overconstrained";
              "warnings" ]} : gset string) /\
  d !! "is_feasible" = None.
Proof.
  intros (A_ineq & b_ineq & A_eq & b_eq & self' & d0 & d1 &
          _ & Hd0 & Hd1 & Hd & _)%validate_constraints_inv.
  assert (dom d0 = ({[ "n_inequality_constraints"; "n_equality_constraints";
              "total_constraints"; "n_variables"; "is_overconstrained";
              "warnings" ]} : gset string)) as H0.
  { rewrite Hd0. rewrite !dom_insert_L, dom_singleton_L. set_solver. }
  assert (dom d1 = dom d0) as H1.
  { rewrite Hd1. case_decide; [|done].
    rewrite dict_append_dom, dom_insert_L, H0. set_solver. }
  assert (dom d = dom d0) as Hdom.
  { destruct Hd as [->|[w ->]]; [done|]. by rewrite dict_append_dom. }
  split; [by rewrite Hdom|].
  assert (d0 !! "is_feasible" = None) as Hf0.
  { rewrite Hd0. rewrite !lookup_insert_ne by done. by apply lookup_singleton_ne. }
  assert (d1 !! "is_feasible" = None) as Hf1.
  { rewrite Hd1. case_decide; [|done].
    rewrite dict_append_lookup_ne by done. by rewrite lookup_insert_ne. }
  destruct Hd as [->|[w ->]]; [done|]. by rewrite dict_append_lookup_ne.
Qed.

(** The validation returns for constraints of the right size. *)
Lemma validate_constraints_returns self :
  uniform self -> exists d, (validate_constraints self).1 = Ok d.
Proof.
  intros Hu.
  destruct (get_constraint_matrices_uniform self Hu) as (A_ineq & A_eq & Hm & _).
  unfold validate_constraints. rewrite Hm. simpl. by eexists.
Qed.

(** X22: for a translator whose constraints are of the right size,
    [validate_constraints] returns; it counts the inequality and the
    equality constraints that the translator then holds, their sum is the
    number of all its constraints, the variables are one per project and
    criterion, and the system is called overconstrained exactly when there
    are more equality constraints than variables. *)
Theorem validation_counts self :
  uniform self ->
  exists d n_ineq n_eq,
    (validate_constraints self).1 = Ok d /\
    let cs := T.self_constraints (validate_constraints self).2 in
    n_ineq = length (filter (fun c => is_equality c = false) cs) /\
    n_eq = length (filter (fun c => is_equality c = true) cs) /\
    d !! "n_inequality_constraints" = Some (PyInt n_ineq) /\
    d !! "n_equality_constraints" = Some (PyInt n_eq) /\
    d !! "total_constraints" = Some (PyInt (length cs)) /\
    d !! "n_variables" = Some (PyInt (T.n_projects self * T.n_criteria self)) /\
    d !! "is_overconstrained" =
      Some (PyBool (bool_decide (T.n_projects self * T.n_criteria self < n_eq)%nat)).
Proof.
  intros Hu.
  destruct (get_constraint_matrices_uniform self Hu)
    as (A_ineq & A_eq & Hm & _ & _ & _ & _ & Hnp & Hnc & _).
  destruct (validate_constraints self) as [r self''] eqn:Hv.
  assert (exists d, r = Ok d /\
            self'' = match T.self_constraints self with
                     | [] => (T.translate_evaluations self).2
                     | _ => self
                     end) as (d & -> & ->).
  { unfold validate_constraints in Hv. rewrite Hm in Hv. simpl in Hv.
    injection Hv as <- <-. by eexists. }
  pose proof (f_equal fst Hv) as Hd. simpl in Hd.
  apply validate_constraints_inv in Hd
    as (A1 & b1 & A2 & b2 & self' & d0 & d1 & Hm' & Hd0 & Hd1 & Hd & _).
  rewrite Hm in Hm'. injection Hm' as <- <- <- <- <-.
  set (self' := match T.self_constraints self with
                | [] => (T.translate_evaluations self).2
                | _ => self
                end) in *.
  rewrite !length_fmap in Hd0. rewrite !length_fmap in Hd1.
  rewrite Hnp, Hnc in Hd0, Hd1.
  exists d. do 2 eexists. split; [reflexivity|]. simpl.
  do 2 (split; [reflexivity|]).
  assert (forall k, k ≠ "warnings" -> d !! k = d1 !! k) as Hk.
  { intros k Hne. destruct Hd as [->|[w ->]]; [done|].
    by apply dict_append_lookup_ne. }
  rewrite !Hk by done. rewrite Hd1.
  rewrite <- (length_filter_is_equality (T.self_constraints self')).
  case_decide as Hlt.
  - rewrite !dict_append_lookup_ne by done.
    rewrite bool_decide_eq_true_2 by done. by rewrite Hd0.
  - rewrite bool_decide_eq_false_2 by done. by rewrite Hd0.
Qed.

(** X23: the validation looks at the equality constraints only. For a
    translator that has not translated yet and has no Comparison with [=]
    among its evaluations, it warns of nothing and does not call the system
    overconstrained, whatever the inequalities ask for. *)
Theorem validation_passes_inequalities self :
  T.self_constraints self = [] ->
  (forall ev, ev ∈ T.self_evaluations self ->
     ~ (evaluation_type ev = COMPARISON /\ operator ev = Some EQUAL)) ->
  exists d,
    (validate_constraints self).1 = Ok d /\
    d !! "warnings" = Some (PyList []) /\
    d !! "is_overconstrained" = Some (PyBool false) /\
    d !! "n_equality_constraints" = Some (PyInt 0).
Proof.
  intros Hfresh Hev.
  assert (uniform self) as Hu by (unfold uniform; rewrite Hfresh; constructor).
  destruct (get_constraint_matrices_uniform self Hu)
    as (A_ineq & A_eq & Hm & _).
  rewrite Hfresh in Hm.
  assert (T.self_constraints (T.translate_evaluations self).2 =
          concat (produced self <$> T.self_evaluations self)) as Hcs.
  { unfold T.translate_evaluations. by rewrite translate_loop. }
  rewrite Hcs in Hm.
  rewrite (filter_is_equality_nil (concat _)) in Hm.
  2:{ apply Forall_forall. intros c (cs & Hin & Hc)%elem_of_concat.
      apply list_elem_of_fmap in Hin as (ev & -> & Hin).
      pose proof (produced_inequality self ev (Hev ev Hin)) as HF.
      rewrite Forall_forall in HF. by apply HF. }
  destruct (validate_constraints self) as [r self''] eqn:Hv.
  assert (exists d, r = Ok d) as (d & ->).
  { unfold validate_constraints in Hv. rewrite Hm in Hv. simpl in Hv.
    injection Hv as <- _. by eexists. }
  pose proof (f_equal fst Hv) as Hd. simpl in Hd.
  apply validate_constraints_inv in Hd
    as (A1 & b1 & A2 & b2 & self' & d0 & d1 & Hm' & Hd0 & _ & _ & Hz).
  rewrite Hm in Hm'. injection Hm' as <- <- <- <- <-.
  exists d. split; [done|]. rewrite (Hz eq_refl), Hd0. done.
Qed.

End Validation.

Section Wizard.
Context `{Rank}.

(** X24: [WizardBackend.validate_constraints] never answers with the
    status [success]: without a translator it reports that, and with one
    it asks the validation of the translator for a key that is not
    there. For a translator whose constraints are of the right size the
    message is that of the [KeyError]. *)
Theorem wizard_validation_never_succeeds (self : WizardBackend.state) :
  exists message,
    (WizardBackend.validate_constraints self).1 = WizardBackend.error message /\
    forall tr, WizardBackend.self_translator self = Some tr -> uniform tr ->
      message = PyStrOf (KeyError "is_feasible").
Proof.
  unfold WizardBackend.validate_constraints.
  destruct (WizardBackend.self_translator self) as [tr|] eqn:Htr.
  2:{ eexists. split; [reflexivity|]. by intros tr'. }
  destruct (TranslatorValidation.validate_constraints tr) as [r tr'] eqn:Hv.
  destruct r as [d|e]; simpl.
  - pose proof (f_equal fst Hv) as Hd. simpl in Hd.
    apply validation_keys in Hd as [_ Hd].
    unfold dict_getitem. rewrite Hd. simpl.
    eexists. split; [reflexivity|]. done.
  - eexists. split; [reflexivity|].
    intros tr0 [= <-] Hu.
    destruct (validation_counts tr Hu) as (d & _ & _ & Hd & _).
    rewrite Hv in Hd. done.
Qed.

End Wizard.

(** X25: with a translator, [generate_constraint_matrices] of the backend
    always answers with the status [success]: it translates again, so that
    the matrices and the translator afterwards hold the constraints of the
    evaluations and nothing that the translator held before; the number of
    variables is that of the projects times that of the criteria, also
    when there is no constraint. *)
Theorem wizard_matrices_of_the_evaluations (self : WizardBackend.state) tr :
  WizardBackend.self_translator self = Some tr ->
  exists n_ineq n_eq tr',
    let response := (WizardBackend.generate_constraint_matrices self).1 in
    response !! "status" = Some (PyStr "success") /\
    response !! "n_variables" = Some (PyInt (T.n_projects tr * T.n_criteria tr)) /\
    response !! "n_inequality_constraints" = Some (PyInt n_ineq) /\
    response !! "n_equality_constraints" = Some (PyInt n_eq) /\
    (n_ineq + n_eq)%nat = length (concat (produced tr <$> T.self_evaluations tr)) /\
    WizardBackend.self_translator (WizardBackend.generate_constraint_matrices self).2
      = Some tr' /\
    T.self_constraints tr' = concat (produced tr <$> T.self_evaluations tr).
Proof.
  intros Htr. unfold WizardBackend.generate_constraint_matrices. rewrite Htr.
  destruct (translate_evaluations_uniform tr) as (Hp & Hc & He & Hcs & Hu).
  set (tr1 := (T.translate_evaluations tr).2) in *.
  assert (T.self_constraints tr1 = concat (produced tr <$> T.self_evaluations tr))
    as Hcs1.
  { unfold tr1, T.translate_evaluations. by rewrite translate_loop. }
  assert (produced tr1 = produced tr) as Hprod.
  { unfold tr1, T.translate_evaluations. by rewrite translate_loop. }
  destruct (get_constraint_matrices_uniform tr1 Hu)
    as (A_ineq & A_eq & Hm & Hc1 & _ & _ & _ & _ & _ & _).
  assert (T.self_constraints
            match T.self_constraints tr1 with
            | [] => (T.translate_evaluations tr1).2
            | _ => tr1
            end = concat (produced tr <$> T.self_evaluations tr)) as Hcs2.
  { destruct (T.self_constraints tr1) eqn:Hnil; [|by rewrite <- Hcs1, Hnil].
    unfold T.translate_evaluations. rewrite translate_loop. simpl.
    by rewrite Hprod, He. }
  rewrite Hm. simpl. rewrite Hcs2, !length_fmap.
  do 3 eexists. split; [done|]. split.
  { rewrite Hc1. unfold T.n_projects, T.n_criteria. by rewrite Hp, Hc. }
  do 2 (split; [done|]). split; [apply length_filter_is_equality|].
  split; [reflexivity|]. exact Hcs2.
Qed.

(** * The properties of the polytope *)

Lemma minimum_le_l a b : (minimum a b <= a)%Q.
Proof.
  unfold minimum. destruct (Qle_bool a b) eqn:Hle; [apply Qle_refl|].
  destruct (Qlt_le_dec b a) as [Hlt|Hge]; [by apply Qlt_le_weak|].
  apply Qle_bool_iff in Hge. congruence.
Qed.

Lemma minimum_le_r a b : (minimum a b <= b)%Q.
Proof.
  unfold minimum. destruct (Qle_bool a b) eqn:Hle; [|apply Qle_refl].
  by apply Qle_bool_iff.
Qed.

Lemma maximum_ge_l a b : (a <= maximum a b)%Q.
Proof.
  unfold maximum. destruct (Qle_bool a b) eqn:Hle; [|apply Qle_refl].
  by apply Qle_bool_iff.
Qed.

Lemma maximum_ge_r a b : (b <= maximum a b)%Q.
Proof.
  unfold maximum. destruct (Qle_bool a b) eqn:Hle; [apply Qle_refl|].
  destruct (Qlt_le_dec b a) as [Hlt|Hge]; [by apply Qlt_le_weak|].
  apply Qle_bool_iff in Hge. congruence.
Qed.

Lemma foldr_minimum_le d col x :
  x ∈ col -> (foldr minimum d col <= x)%Q.
Proof.
  induction col as [|y col IH]; [by intros ?%elem_of_nil|].
  intros [->|Hx]%elem_of_cons; simpl.
  - apply minimum_le_l.
  - eapply Qle_trans; [apply minimum_le_r|by apply IH].
Qed.

Lemma foldr_maximum_ge d col x :
  x ∈ col -> (x <= foldr maximum d col)%Q.
Proof.
  induction col as [|y col IH]; [by intros ?%elem_of_nil|].
  intros [->|Hx]%elem_of_cons; simpl.
  - apply maximum_ge_l.
  - eapply Qle_trans; [by apply IH|apply maximum_ge_r].
Qed.

Lemma foldr_minimum_elem d col : foldr minimum d col ∈ d :: col.
Proof.
  induction col as [|y col IH]; simpl; [by left|].
  unfold minimum at 1. destruct (Qle_bool _ _); [right; by left|].
  apply elem_of_cons in IH as [->|IH]; [by left|by do 2 right].
Qed.

Lemma foldr_maximum_elem d col : foldr maximum d col ∈ d :: col.
Proof.
  induction col as [|y col IH]; simpl; [by left|].
  unfold maximum at 1. destruct (Qle_bool _ _); [|right; by left].
  apply elem_of_cons in IH as [->|IH]; [by left|by do 2 right].
Qed.

(** The least and the greatest entry of a column are entries of it. *)
Lemma column_minimum_elem col :
  col ≠ [] -> foldr minimum (hd 0%Q col) col ∈ col.
Proof.
  destruct col as [|x col]; [done|]. intros _.
  change (hd 0%Q (x :: col)) with x.
  pose proof (foldr_minimum_elem x (x :: col)) as Hin.
  apply elem_of_cons in Hin as [Heq|Hin]; [rewrite Heq; by left|done].
Qed.

Lemma column_maximum_elem col :
  col ≠ [] -> foldr maximum (hd 0%Q col) col ∈ col.
Proof.
  destruct col as [|x col]; [done|]. intros _.
  change (hd 0%Q (x :: col)) with x.
  pose proof (foldr_maximum_elem x (x :: col)) as Hin.
  apply elem_of_cons in Hin as [Heq|Hin]; [rewrite Heq; by left|done].
Qed.

Lemma Qsum_bounds lo hi col :
  Forall (fun x => (lo <= x <= hi)%Q) col ->
  (inject_Z (Z.of_nat (length col)) * lo <= Qsum col
   <= inject_Z (Z.of_nat (length col)) * hi)%Q.
Proof.
  induction 1 as [|x col [Hlo Hhi] _ [IHlo IHhi]].
  - change (0 * lo <= 0 <= 0 * hi)%Q. split; lra.
  - change (Qsum (x :: col)) with (x + Qsum col)%Q.
    assert (inject_Z (Z.of_nat (length (x :: col)))
            == 1 + inject_Z (Z.of_nat (length col)))%Q as ->.
    { simpl length. rewrite Nat2Z.inj_succ, <- Z.add_1_l, inject_Z_plus. reflexivity. }
    split; lra.
Qed.

(** The mean of a column lies between two bounds of its entries. *)
Lemma mean_bounds lo hi col :
  col ≠ [] ->
  Forall (fun x => (lo <= x <= hi)%Q) col ->
  (lo <= Qsum col / inject_Z (Z.of_nat (length col)) <= hi)%Q.
Proof.
  intros Hne HF. destruct (Qsum_bounds lo hi col HF) as [Hlo Hhi].
  assert (0 < inject_Z (Z.of_nat (length col)))%Q as Hpos.
  { change 0%Q with (inject_Z 0). rewrite <- Zlt_Qlt.
    destruct col; [done|]. simpl length. lia. }
  split.
  - apply Qle_shift_div_l; [done|]. lra.
  - apply Qle_shift_div_r; [done|]. lra.
Qed.

(** ** The columns of the array of vertices *)

Lemma np_columns_length vs : length (np_columns vs) = length (hd [] vs).
Proof. unfold np_columns. by rewrite length_fmap, length_seq. Qed.

Lemma np_columns_lookup vs j :
  (j < length (hd [] vs))%nat ->
  np_columns vs !! j = Some (omap (fun v : vertex => v !! j) vs).
Proof.
  intros Hj. unfold np_columns.
  by rewrite list_lookup_fmap, lookup_seq_lt.
Qed.

Lemma column_elem (vs : list vertex) j x :
  x ∈ omap (fun v : vertex => v !! j) vs <-> exists v, v ∈ vs /\ v !! j = Some x.
Proof. apply list_elem_of_omap. Qed.

Lemma column_nonempty (vs : list vertex) j :
  (j < length (hd [] vs))%nat -> omap (fun v : vertex => v !! j) vs ≠ [].
Proof.
  intros Hj. destruct vs as [|v vs]; [simpl in Hj; lia|]. simpl in Hj.
  destruct (lookup_lt_is_Some_2 v j Hj) as [x Hx]. intros Hnil.
  assert (x ∈ omap (fun v : vertex => v !! j) (v :: vs)) as Hin.
  { apply column_elem. exists v. split; [by left|done]. }
  rewrite Hnil in Hin. by apply elem_of_nil in Hin.
Qed.

(** Bounds of all the coordinates are bounds of the box and of the
    centroid. *)
Lemma box_within (vs : list vertex) (lo hi : Q) :
  (forall v j x, v ∈ vs -> v !! j = Some x -> (lo <= x <= hi)%Q) ->
  Forall (fun x => (lo <= x <= hi)%Q) (np_min0 vs) /\
  Forall (fun x => (lo <= x <= hi)%Q) (np_max0 vs) /\
  Forall (fun x => (lo <= x <= hi)%Q) (np_mean0 vs).
Proof.
  intros Hall.
  assert (forall j col, np_columns vs !! j = Some col ->
            col ≠ [] /\ Forall (fun x => (lo <= x <= hi)%Q) col) as Hcol.
  { intros j col Hj.
    assert (j < length (hd [] vs))%nat as Hlt.
    { rewrite <- np_columns_length. by eapply lookup_lt_Some. }
    rewrite (np_columns_lookup vs j Hlt) in Hj. injection Hj as <-.
    split; [by apply column_nonempty|].
    apply Forall_forall. intros x (v & Hv & Hx)%column_elem. by eapply Hall. }
  unfold np_min0, np_max0, np_mean0.
  repeat split; apply Forall_fmap, Forall_lookup; intros j col Hj;
    destruct (Hcol j col Hj) as [Hne HF]; simpl.
  - rewrite Forall_forall in HF. by apply HF, column_minimum_elem.
  - rewrite Forall_forall in HF. by apply HF, column_maximum_elem.
  - by apply mean_bounds.
Qed.

(** Every row lies in the box. *)
Lemma box_contains (vs : list vertex) n :
  Forall (fun v => length v = n) vs -> vs ≠ [] ->
  length (np_min0 vs) = n /\ length (np_max0 vs) = n /\
  (forall v, v ∈ vs -> Forall2 Qle (np_min0 vs) v /\ Forall2 Qle v (np_max0 vs)).
Proof.
  intros Hlen Hne.
  assert (length (hd [] vs) = n) as Hhd.
  { destruct vs as [|v vs]; [done|]. by apply Forall_inv in Hlen. }
  assert (length (np_min0 vs) = n) as Hmin.
  { unfold np_min0. by rewrite length_fmap, np_columns_length. }
  assert (length (np_max0 vs) = n) as Hmax.
  { unfold np_max0. by rewrite length_fmap, np_columns_length. }
  do 2 (split; [done|]).
  assert (forall j, (j < n)%nat ->
            np_min0 vs !! j =
              Some (foldr minimum (hd 0%Q (omap (fun v : vertex => v !! j) vs))
                      (omap (fun v : vertex => v !! j) vs)) /\
            np_max0 vs !! j =
              Some (foldr maximum (hd 0%Q (omap (fun v : vertex => v !! j) vs))
                      (omap (fun v : vertex => v !! j) vs)))
    as Hj.
  { intros j Hlt. unfold np_min0, np_max0.
    rewrite !list_lookup_fmap, np_columns_lookup by lia. done. }
  intros v Hv.
  assert (length v = n) as Hv' by (rewrite Forall_forall in Hlen; by apply Hlen).
  split; apply Forall2_same_length_lookup; (split; [congruence|]);
    intros j a b Ha Hb.
  - assert (j < n)%nat as Hlt by (rewrite <- Hv'; by eapply lookup_lt_Some).
    destruct (Hj j Hlt) as (Hm & _). rewrite Hm in Ha. injection Ha as <-.
    apply foldr_minimum_le, column_elem. by exists v.
  - assert (j < n)%nat as Hlt by (rewrite <- Hv'; by eapply lookup_lt_Some).
    destruct (Hj j Hlt) as (_ & Hm). rewrite Hm in Hb. injection Hb as <-.
    apply foldr_maximum_ge, column_elem. by exists v.
Qed.

Section Properties.
Context `{Libs} `{Scipy}.

Import PolytopeProperties.

(** What the dictionary holds for the vertices that [compute_vertices]
    gives. *)
Lemma compute_polytope_properties_of self vs self' :
  V.compute_vertices self None = (Ok vs, self') ->
  exists props,
    compute_polytope_properties self = (Ok props, self') /\
    props !! "n_vertices" = Some (PyInt (length vs)) /\
    props !! "n_constraints" = Some (PyInt (length (V.self_b_ineq self'))) /\
    props !! "n_dimensions" = Some (PyInt (V.self_n_dimensions self')) /\
    (vs = [] -> props !! "centroid" = None /\ props !! "bounding_box" = None) /\
    (vs ≠ [] ->
     props !! "centroid" = Some (PyArray (np_mean0 vs)) /\
     props !! "bounding_box" =
       Some (PyDict {[ "min" := PyArray (np_min0 vs);
                       "max" := PyArray (np_max0 vs) ]})).
Proof.
  intros Hc. unfold compute_polytope_properties. rewrite Hc. simpl.
  eexists. split; [reflexivity|].
  destruct (decide (0 < length vs)%nat) as [Hpos|Hz].
  - assert (vs ≠ []) as Hne by (destruct vs; [simpl in Hpos; lia|done]).
    unfold with_volume.
    destruct (decide (_ /\ _)); [destruct (scipy_spatial_ConvexHull vs) as [[vol area]|e]|];
      (split_and!; [by simplify_map_eq|by simplify_map_eq|by simplify_map_eq|done|
                    intros _; split; by simplify_map_eq]).
  - assert (vs = []) as -> by (destruct vs; [done|simpl in Hz; lia]).
    split_and!; [by simplify_map_eq|by simplify_map_eq|by simplify_map_eq|
                 intros _; split; by simplify_map_eq|done].
Qed.

(** X26: once [compute_vertices] has returned, whatever the bounds it
    was given, [compute_polytope_properties] describes the vertices of
    that call (their number, their centroid, their bounding box) and
    leaves the visualizer as it is; it does not compute with the default
    bounds. *)
Theorem properties_of_the_first_call self bounds vs self' :
  V.compute_vertices self bounds = (Ok vs, self') ->
  exists props,
    compute_polytope_properties self' = (Ok props, self') /\
    props !! "n_vertices" = Some (PyInt (length vs)) /\
    (vs = [] -> props !! "centroid" = None /\ props !! "bounding_box" = None) /\
    (vs ≠ [] ->
     props !! "centroid" = Some (PyArray (np_mean0 vs)) /\
     props !! "bounding_box" =
       Some (PyDict {[ "min" := PyArray (np_min0 vs);
                       "max" := PyArray (np_max0 vs) ]})).
Proof.
  intros Hc%compute_vertices_sets_cache.
  destruct (compute_polytope_properties_of self' vs self'
              (compute_vertices_cached self' vs None Hc))
    as (props & Hp & Hn & _ & _ & Hnil & Hcons).
  by exists props.
Qed.

(** X27: for a visualizer just built from a translator whose
    constraints are of the right size, the bounding box and the centroid
    that [compute_polytope_properties] reports lie within the default
    bounds: every entry is between [-10] and [10]. *)
Theorem bounding_box_within_default_bounds tr vis props box :
  uniform tr ->
  V.init tr = Ok vis ->
  (compute_polytope_properties vis).1 = Ok props ->
  props !! "bounding_box" = Some box ->
  exists lo hi c,
    box = PyDict {[ "min" := PyArray lo; "max" := PyArray hi ]} /\
    props !! "centroid" = Some (PyArray c) /\
    Forall (fun x => (-10 <= x <= 10)%Q) lo /\
    Forall (fun x => (-10 <= x <= 10)%Q) hi /\
    Forall (fun x => (-10 <= x <= 10)%Q) c.
Proof.
  intros Hu Hinit Hp Hbox.
  destruct (init_Ok tr Hu) as (vis0 & Hinit0 & [_ Hwf] & _).
  rewrite Hinit in Hinit0. injection Hinit0 as <-.
  destruct (V.compute_vertices vis None) as [[vs|e] vis'] eqn:Hc.
  2:{ unfold compute_polytope_properties in Hp. by rewrite Hc in Hp. }
  destruct (compute_polytope_properties_of vis vs vis' Hc)
    as (props' & Hp' & _ & _ & _ & Hnil & Hcons).
  rewrite Hp' in Hp. injection Hp as ->.
  destruct (decide (vs = [])) as [->|Hne].
  { destruct (Hnil eq_refl) as [_ Hb]. by rewrite Hb in Hbox. }
  destruct (Hcons Hne) as [Hcen Hb]. rewrite Hb in Hbox. injection Hbox as <-.
  do 3 eexists. split; [reflexivity|]. split; [exact Hcen|].
  apply box_within. intros v j x Hv Hx.
  destruct (returned_vertex_accepted tr vis None vs v Hinit) as (_ & Hin & Hlen);
    [by rewrite Hc|done|].
  assert (j < V.self_n_dimensions vis)%nat as Hj.
  { rewrite <- Hwf, <- Hlen. by eapply lookup_lt_Some. }
  destruct (Hin j Hj) as (b & y & Hb' & Hy & Hle).
  simpl in Hb'. unfold V.default_bounds in Hb'.
  apply lookup_replicate in Hb' as [-> _].
  rewrite Hx in Hy. injection Hy as <-. exact Hle.
Qed.

(** X28: every vertex that [compute_vertices] returned for a visualizer
    built from a translator lies in the bounding box that
    [compute_polytope_properties] then reports, coordinate by
    coordinate. *)
Theorem vertices_inside_bounding_box tr vis bounds vs vis' v :
  V.init tr = Ok vis ->
  V.compute_vertices vis bounds = (Ok vs, vis') ->
  v ∈ vs ->
  exists props lo hi,
    compute_polytope_properties vis' = (Ok props, vis') /\
    props !! "bounding_box" =
      Some (PyDict {[ "min" := PyArray lo; "max" := PyArray hi ]}) /\
    Forall2 Qle lo v /\ Forall2 Qle v hi.
Proof.
  intros Hinit Hc Hv.
  assert (vs ≠ []) as Hne by (intros ->; by apply elem_of_nil in Hv).
  pose proof (compute_vertices_sets_cache vis bounds vs vis' Hc) as Hcache.
  destruct (compute_polytope_properties_of vis' vs vis'
              (compute_vertices_cached vis' vs None Hcache))
    as (props & Hp & _ & _ & _ & _ & Hcons).
  destruct (Hcons Hne) as [_ Hbox].
  assert (Forall (fun u => length u = ncols (V.self_A_ineq vis)) vs) as Hlen.
  { apply Forall_forall. intros u Hu.
    destruct (returned_vertex_accepted tr vis bounds vs u Hinit) as (_ & _ & Hl);
      [by rewrite Hc|done|done]. }
  destruct (box_contains vs _ Hlen Hne) as (_ & _ & Hall).
  destruct (Hall v Hv) as [Hv1 Hv2].
  exists props. do 2 eexists. split; [exact Hp|]. split; [exact Hbox|]. done.
Qed.

End Properties.

(** * The further properties on examples *)

Import Examples Cases.
#[local] Existing Instance numpy.
#[local] Existing Instance rank.
#[local] Existing Instance no_hull.

Ltac decide_it :=
  unfold known; apply (bool_decide_unpack _); vm_compute; reflexivity.

Lemma range_constraints_witness :
  exists cs,
    T.parse_range_evaluation (translator ["A"] []) (range "A" (1 # 4) (1 # 2)) = Ok cs /\
    length cs = 2%nat.
Proof.
  destruct (range_constraints (translator ["A"] []) (range "A" (1 # 4) (1 # 2))
              "A" 0 (1 # 4) (1 # 2)) as (cs & Hcs & Hlen & _).
  - reflexivity.
  - reflexivity.
  - vm_compute; reflexivity.
  - exists cs. split; [exact Hcs|exact Hlen].
Defined.

Lemma threshold_constraints_witness :
  exists con,
    T.parse_threshold_evaluation (translator ["A"] [])
      (threshold "A" GREATER_EQUAL (1 # 2)) = Ok [con] /\
    coefficients con = [1%Q] /\ bound con = (1 # 2)%Q.
Proof.
  destruct (threshold_constraints (translator ["A"] [])
              (threshold "A" GREATER_EQUAL (1 # 2)) "A" 0 (1 # 2)) as [Hge _].
  - reflexivity.
  - reflexivity.
  - vm_compute; reflexivity.
  - eexists. split; [apply Hge; reflexivity|]. split; reflexivity.
Defined.

Lemma comparison_equal_witness :
  exists cs,
    T.parse_comparison_evaluation (translator ["A"; "B"] [])
      (comparison "A" "B" EQUAL) = Ok cs /\
    length cs = 1%nat.
Proof.
  destruct (comparison_equal (translator ["A"; "B"] [])
              (comparison "A" "B" EQUAL) "A" "B" 0 1) as (cs & Hcs & Hlen & _).
  - reflexivity.
  - reflexivity.
  - discriminate.
  - vm_compute; reflexivity.
  - vm_compute; reflexivity.
  - exists cs. split; [exact Hcs|exact Hlen].
Defined.

Lemma comparison_errors_witness :
  T.parse_comparison_evaluation (translator ["A"; "B"] []) (ranking ["A"]) =
    Raise (ValueError "Comparison evaluation must involve exactly 2 projects") /\
  T.parse_comparison_evaluation (translator ["A"; "B"] [])
    (comparison "C" "D" GREATER) = Raise (KeyError "C") /\
  T.parse_comparison_evaluation (translator ["A"; "B"] [])
    (comparison "A" "D" GREATER) = Raise (KeyError "D").
Proof.
  split; [|split].
  - apply (proj1 (comparison_errors (translator ["A"; "B"] []) (ranking ["A"]))).
    simpl. lia.
  - apply (proj1 (proj2 (comparison_errors (translator ["A"; "B"] [])
                           (comparison "C" "D" GREATER))) "C" "D").
    + reflexivity.
    + decide_it.
  - apply (proj2 (proj2 (comparison_errors (translator ["A"; "B"] [])
                           (comparison "A" "D" GREATER))) "A" "D").
    + reflexivity.
    + decide_it.
    + decide_it.
Defined.

Lemma range_errors_witness :
  T.parse_range_evaluation (translator ["A"] []) (comparison "A" "B" GREATER) =
    Raise (ValueError "Range evaluation must involve exactly 1 project") /\
  T.parse_range_evaluation (translator ["A"] []) (threshold "A" GREATER_EQUAL 1) =
    Raise (ValueError "Range evaluation must specify exactly 2 values (min, max)") /\
  T.parse_range_evaluation (translator ["A"] []) (range "B" 0 1) =
    Raise (KeyError "B").
Proof.
  split; [|split].
  - apply (proj1 (range_errors (translator ["A"] []) (comparison "A" "B" GREATER))).
    simpl. lia.
  - apply (proj1 (proj2 (range_errors (translator ["A"] [])
                           (threshold "A" GREATER_EQUAL 1))) "A").
    + reflexivity.
    + intros lo hi. discriminate.
  - apply (proj2 (proj2 (range_errors (translator ["A"] []) (range "B" 0 1)))
             "B" 0%Q 1%Q).
    + reflexivity.
    + reflexivity.
    + decide_it.
Defined.

Lemma threshold_errors_witness :
  T.parse_threshold_evaluation (translator ["A"] []) (comparison "A" "B" GREATER) =
    Raise (ValueError "Threshold evaluation must involve exactly 1 project") /\
  T.parse_threshold_evaluation (translator ["A"] []) (range "A" 0 1) =
    Raise (ValueError "Threshold evaluation must specify exactly 1 threshold value") /\
  T.parse_threshold_evaluation (translator ["A"] []) (threshold "B" GREATER 1) =
    Raise (KeyError "B").
Proof.
  split; [|split].
  - apply (proj1 (threshold_errors (translator ["A"] [])
                    (comparison "A" "B" GREATER))).
    simpl. lia.
  - apply (proj1 (proj2 (threshold_errors (translator ["A"] []) (range "A" 0 1)))
             "A").
    + reflexivity.
    + intros t. discriminate.
  - apply (proj2 (proj2 (threshold_errors (translator ["A"] [])
                           (threshold "B" GREATER 1))) "B" 1%Q).
    + reflexivity.
    + reflexivity.
    + decide_it.
Defined.

Lemma ranking_unknown_project_witness :
  T.parse_ranking_evaluation (translator ["A"; "B"] []) (ranking ["A"; "B"; "C"; "A"]) =
    Raise (KeyError "C") /\
  produced (translator ["A"; "B"] []) (ranking ["A"; "B"; "C"; "A"]) = [].
Proof.
  destruct (ranking_unknown_project (translator ["A"; "B"] [])
              (ranking ["A"; "B"; "C"; "A"]) ["A"; "B"] "C" ["A"]) as [Hr Hp].
  - reflexivity.
  - simpl. lia.
  - repeat constructor; decide_it.
  - decide_it.
  - split; [exact Hr|]. by destruct (Hp eq_refl).
Defined.

Lemma comparison_with_itself_witness :
  exists con,
    T.parse_comparison_evaluation (translator ["A"; "B"] [])
      (comparison "B" "B" GREATER) = Ok [con] /\
    coefficients con = [0; -1]%Q /\ bound con = (-1 # 100)%Q.
Proof.
  destruct (comparison_with_itself (translator ["A"; "B"] [])
              (comparison "B" "B" GREATER) "B" 1 ((-1 # 100)%Q, false))
    as (cs & Hcs & Hlen & Hall).
  - reflexivity.
  - vm_compute; reflexivity.
  - reflexivity.
  - destruct (Hall 0%nat "value") as (con & Hcon & Hco & Hb & _); [reflexivity|].
    exists con. split; [|split; [rewrite Hco; vm_compute; reflexivity|exact Hb]].
    rewrite Hcs. f_equal.
    destruct cs as [|c0 [|c1 cs]]; try (simpl in Hlen; discriminate).
    simpl in Hcon. by injection Hcon as ->.
Defined.

Lemma project_index_last_witness :
  T.project_index (translator ["A"; "B"; "A"] []) !! "A" = Some 2%nat.
Proof.
  apply (proj2 (project_index_last (translator ["A"; "B"; "A"] []) "A" 2)).
  split; [reflexivity|].
  intros j Hj. destruct j as [|[|[|j]]]; try lia. simpl. discriminate.
Defined.

Lemma matrices_ignore_later_evaluations_witness :
  T.self_constraints
    (T.get_constraint_matrices
       (T.add_evaluation (translator ["A"; "B"] []) (comparison "A" "B" GREATER))).2 =
  produced (translator ["A"; "B"] []) (comparison "A" "B" GREATER) /\
  (T.get_constraint_matrices
     (T.add_evaluation (T.translate_evaluations square).2
        (comparison "A" "B" GREATER))).1 =
  (T.get_constraint_matrices (T.translate_evaluations square).2).1.
Proof.
  split.
  - apply (proj2 (matrices_ignore_later_evaluations (translator ["A"; "B"] [])
                    (comparison "A" "B" GREATER))).
    reflexivity.
  - apply (proj1 (matrices_ignore_later_evaluations
                    (T.translate_evaluations square).2
                    (comparison "A" "B" GREATER))).
    vm_compute. discriminate.
Defined.

Lemma constraint_matrices_witness :
  exists A_ineq b_ineq A_eq b_eq self',
    T.get_constraint_matrices equal_but_apart =
      (Ok (A_ineq, b_ineq, A_eq, b_eq), self') /\
    ncols A_ineq = 2%nat /\ ncols A_eq = 2%nat /\
    (length b_ineq + length b_eq = length (T.self_constraints self'))%nat.
Proof.
  destruct (constraint_matrices equal_but_apart)
    as (A_ineq & b_ineq & A_eq & b_eq & self' & Hm & Hc1 & Hc2 & _ & _ & _ & _ & Hlen).
  - constructor.
  - exists A_ineq, b_ineq, A_eq, b_eq, self'.
    split; [exact Hm|]. split; [exact Hc1|]. split; [exact Hc2|exact Hlen].
Defined.

Lemma ragged_constraints_raise_witness :
  exists msg, V.init ragged = Raise (ValueError msg).
Proof.
  destruct (ragged_constraints_raise ragged (row [1; 0]%Q 1%Q) (row [1%Q] 1%Q))
    as (msg & _ & Hinit).
  - left.
  - right. left.
  - reflexivity.
  - reflexivity.
  - simpl. lia.
  - by exists msg.
Defined.

Lemma vertices_satisfy_translator_constraints_witness :
  exists vis c,
    V.init square = Ok vis /\
    T.self_constraints (V.self_translator vis) !! 0%nat = Some c /\
    (dot (coefficients c) [1 # 4; 1 # 2] <= bound c + V.slack)%Q.
Proof.
  do 2 eexists. split; [vm_compute; reflexivity|].
  split; [vm_compute; reflexivity|].
  eapply (vertices_satisfy_translator_constraints square _ None _ [1 # 4; 1 # 2]%Q).
  - vm_compute; reflexivity.
  - vm_compute; reflexivity.
  - right. right. left.
  - left.
  - reflexivity.
Defined.

Lemma range_below_its_maximum_has_no_vertex_witness :
  exists vis,
    V.init quarter_to_half = Ok vis /\
    (V.compute_vertices vis None).1 = Ok [].
Proof.
  destruct (V.init quarter_to_half) as [vis|e] eqn:Hinit;
    [|vm_compute in Hinit; discriminate].
  exists vis. split; [reflexivity|].
  destruct (V.compute_vertices vis None).1 as [vs|e] eqn:Hcall.
  - f_equal.
    apply (range_below_its_maximum_has_no_vertex quarter_to_half vis None vs
             (range "A" (1 # 4) (1 # 2)) "A" (1 # 4) (1 # 2)).
    + reflexivity.
    + vm_compute. discriminate.
    + left.
    + reflexivity.
    + reflexivity.
    + reflexivity.
    + decide_it.
    + vm_compute; reflexivity.
    + exact Hinit.
    + exact Hcall.
  - exfalso. vm_compute in Hinit. injection Hinit as <-.
    vm_compute in Hcall. discriminate.
Defined.

Lemma comparison_greater_puts_first_below_witness :
  exists xa xb,
    ([1 # 4; 13 # 50]%Q : vertex) !! variable_index ordered 0 0 = Some xa /\
    ([1 # 4; 13 # 50]%Q : vertex) !! variable_index ordered 1 0 = Some xb /\
    (xa - xb <= - (1 # 100) + V.slack)%Q.
Proof.
  eapply (comparison_greater_puts_first_below ordered _ None _ [1 # 4; 13 # 50]%Q
            (comparison "A" "B" GREATER) "A" "B" 0 1 0).
  - reflexivity.
  - left.
  - reflexivity.
  - reflexivity.
  - left. reflexivity.
  - discriminate.
  - vm_compute; reflexivity.
  - vm_compute; reflexivity.
  - vm_compute. lia.
  - vm_compute; reflexivity.
  - vm_compute; reflexivity.
  - left.
Defined.

Lemma threshold_bounds_from_the_other_side_witness :
  exists x,
    ([1 # 4; 1 # 2]%Q : vertex) !! variable_index square 0 0 = Some x /\
    (x <= (1 # 2) + V.slack)%Q.
Proof.
  pose proof (fun vis vs =>
    threshold_bounds_from_the_other_side square vis None vs [1 # 4; 1 # 2]%Q
      (threshold "A" GREATER_EQUAL (1 # 2)) "A" 0 (1 # 2) 0) as Hx17.
  edestruct Hx17 as (x & Hx & Hge & _).
  - reflexivity.
  - left.
  - reflexivity.
  - reflexivity.
  - reflexivity.
  - vm_compute; reflexivity.
  - vm_compute. lia.
  - vm_compute; reflexivity.
  - vm_compute; reflexivity.
  - right. right. left.
  - exists x. split; [exact Hx|]. apply Hge. reflexivity.
Defined.

Lemma fewer_constraints_than_dimensions_witness :
  exists vis,
    V.init underdetermined = Ok vis /\
    (V.compute_vertices vis (Some [])).1 = Ok [].
Proof.
  eexists. split; [vm_compute; reflexivity|].
  eapply (fewer_constraints_than_dimensions underdetermined _ (Some [])).
  - vm_compute; reflexivity.
  - vm_compute. lia.
Defined.

Lemma short_bounds_give_no_vertex_witness :
  exists vis,
    V.init square = Ok vis /\
    (V.compute_vertices vis (Some [(0, 1 # 10)]%Q)).1 = Ok [].
Proof.
  destruct (V.init square) as [vis|e] eqn:Hinit;
    [|vm_compute in Hinit; discriminate].
  exists vis. split; [reflexivity|].
  destruct (V.compute_vertices vis (Some [(0, 1 # 10)]%Q)).1 as [vs|e] eqn:Hcall.
  - f_equal.
    apply (short_bounds_give_no_vertex square vis [(0, 1 # 10)]%Q vs Hinit);
      [|exact Hcall].
    pose proof Hinit as Hi. vm_compute in Hi. injection Hi as <-.
    vm_compute. lia.
  - exfalso. vm_compute in Hinit. injection Hinit as <-.
    vm_compute in Hcall. discriminate.
Defined.

Lemma compute_vertices_does_not_raise_witness :
  exists vis vs,
    V.init square = Ok vis /\
    V.compute_vertices vis (Some [(0, 1); (0, 1)]%Q) = (Ok vs, V.set_vertices vis vs).
Proof.
  apply (@compute_vertices_does_not_raise numpy (exact_libs_laws _ _) square
           (Some [(0, 1); (0, 1)]%Q)).
  - constructor.
  - vm_compute. lia.
Defined.

Lemma validation_keys_witness :
  exists d,
    (TranslatorValidation.validate_constraints equal_but_apart).1 = Ok d /\
    d !! "is_feasible" = None.
Proof.
  destruct (validate_constraints_returns equal_but_apart) as [d Hv].
  - constructor.
  - exists d. split; [exact Hv|].
    apply (proj2 (validation_keys equal_but_apart d Hv)).
Defined.

Lemma validation_counts_witness :
  exists d n_ineq n_eq,
    (TranslatorValidation.validate_constraints equal_but_apart).1 = Ok d /\
    d !! "n_inequality_constraints" = Some (PyInt n_ineq) /\
    d !! "n_equality_constraints" = Some (PyInt n_eq) /\
    d !! "n_variables" = Some (PyInt 2).
Proof.
  destruct (validation_counts equal_but_apart)
    as (d & n_ineq & n_eq & Hd & _ & _ & H1 & H2 & _ & H4 & _).
  - constructor.
  - exists d, n_ineq, n_eq. split; [exact Hd|]. split; [exact H1|].
    split; [exact H2|exact H4].
Defined.

Lemma validation_passes_inequalities_witness :
  exists d,
    (TranslatorValidation.validate_constraints quarter_to_half).1 = Ok d /\
    d !! "warnings" = Some (PyList []) /\
    d !! "is_overconstrained" = Some (PyBool false) /\
    d !! "n_equality_constraints" = Some (PyInt 0).
Proof.
  apply (validation_passes_inequalities quarter_to_half).
  - reflexivity.
  - intros ev Hev [Hty _]. vm_compute in Hev.
    apply list_elem_of_singleton in Hev. rewrite Hev in Hty. discriminate.
Defined.

Lemma wizard_validation_never_succeeds_witness :
  (WizardBackend.validate_constraints (backend ordered)).1 =
  WizardBackend.error (PyStrOf (KeyError "is_feasible")).
Proof.
  destruct (wizard_validation_never_succeeds (backend ordered)) as (m & Hr & Hm).
  rewrite Hr. f_equal. apply (Hm ordered); [reflexivity|constructor].
Defined.

Lemma wizard_matrices_of_the_evaluations_witness :
  (WizardBackend.generate_constraint_matrices (backend ordered)).1 !! "status" =
    Some (PyStr "success") /\
  (WizardBackend.generate_constraint_matrices (backend ordered)).1 !! "n_variables" =
    Some (PyInt 2).
Proof.
  destruct (wizard_matrices_of_the_evaluations (backend ordered) ordered)
    as (n_ineq & n_eq & tr' & Hs & Hn & _).
  - reflexivity.
  - split; [exact Hs|exact Hn].
Defined.

Lemma properties_of_the_first_call_witness :
  exists vis vs vis' props,
    V.init square = Ok vis /\
    V.compute_vertices vis (Some [(0, 3 # 10); (0, 3 # 10)]%Q) = (Ok vs, vis') /\
    PolytopeProperties.compute_polytope_properties vis' = (Ok props, vis') /\
    props !! "n_vertices" = Some (PyInt (length vs)).
Proof.
  destruct (V.init square) as [vis|e] eqn:Hinit;
    [|vm_compute in Hinit; discriminate].
  destruct (V.compute_vertices vis (Some [(0, 3 # 10); (0, 3 # 10)]%Q))
    as [[vs|e] vis'] eqn:Hcall.
  - destruct (properties_of_the_first_call vis _ vs vis' Hcall)
      as (props & Hp & Hn & _).
    exists vis, vs, vis', props. split; [reflexivity|]. split; [exact Hcall|].
    split; [exact Hp|exact Hn].
  - exfalso. vm_compute in Hinit. injection Hinit as <-.
    vm_compute in Hcall. discriminate.
Defined.

Lemma bounding_box_within_default_bounds_witness :
  exists vis props lo hi,
    V.init square = Ok vis /\
    (PolytopeProperties.compute_polytope_properties vis).1 = Ok props /\
    props !! "bounding_box" =
      Some (PyDict {[ "min" := PyArray lo; "max" := PyArray hi ]}) /\
    Forall (fun x => (-10 <= x <= 10)%Q) lo /\
    Forall (fun x => (-10 <= x <= 10)%Q) hi.
Proof.
  destruct (V.init square) as [vis|e] eqn:Hinit;
    [|vm_compute in Hinit; discriminate].
  destruct (V.compute_vertices vis None) as [[vs|e] vis'] eqn:Hcall.
  2:{ exfalso. vm_compute in Hinit. injection Hinit as <-.
      vm_compute in Hcall. discriminate. }
  assert (vs ≠ []) as Hne.
  { pose proof Hinit as Hi. vm_compute in Hi. injection Hi as <-.
    vm_compute in Hcall. injection Hcall as <- _. discriminate. }
  destruct (compute_polytope_properties_of vis vs vis' Hcall)
    as (props & Hp & _ & _ & _ & _ & Hcons).
  destruct (Hcons Hne) as [_ Hbox].
  assert ((PolytopeProperties.compute_polytope_properties vis).1 = Ok props) as Hp1.
  { by rewrite Hp. }
  destruct (bounding_box_within_default_bounds square vis props
              (PyDict {[ "min" := PyArray (np_min0 vs);
                         "max" := PyArray (np_max0 vs) ]}))
    as (lo & hi & c & Hb & _ & Hlo & Hhi & _).
  - constructor.
  - exact Hinit.
  - exact Hp1.
  - exact Hbox.
  - exists vis, props, lo, hi. split; [reflexivity|]. split; [exact Hp1|].
    split; [by rewrite Hbox, Hb|]. split; [exact Hlo|exact Hhi].
Defined.

Lemma vertices_inside_bounding_box_witness :
  exists vis vs vis' lo hi,
    V.init square = Ok vis /\
    V.compute_vertices vis None = (Ok vs, vis') /\
    Forall2 Qle lo [1 # 4; 1 # 2]%Q /\ Forall2 Qle [1 # 4; 1 # 2]%Q hi.
Proof.
  destruct (V.init square) as [vis|e] eqn:Hinit;
    [|vm_compute in Hinit; discriminate].
  destruct (V.compute_vertices vis None) as [[vs|e] vis'] eqn:Hcall.
  2:{ exfalso. vm_compute in Hinit. injection Hinit as <-.
      vm_compute in Hcall. discriminate. }
  assert ([1 # 4; 1 # 2]%Q ∈ vs) as Hv.
  { pose proof Hinit as Hi. vm_compute in Hi. injection Hi as <-.
    vm_compute in Hcall. injection Hcall as <- _. right. right. left. }
  destruct (vertices_inside_bounding_box square vis None vs vis' _ Hinit Hcall Hv)
    as (props & lo & hi & _ & _ & H1 & H2).
  exists vis, vs, vis', lo, hi. split; [reflexivity|]. split; [exact Hcall|].
  split; [exact H1|exact H2].
Defined.
